(** * teleport-lab: the inventory viewer and the sculpture viewer

    A shallow embedding of [src/main.js] (the asset-inventory viewer) and
    [src/sculptures/main.js] (the sculpture viewer).

    - JavaScript runs on one thread.  A piece of code between two [await]s is
      atomic, so an [async] function is modelled by the function that runs it
      up to its next suspension, and the event loop by a step relation that
      picks which suspended computation continues.  Any suspended
      computation may be picked: the relation has every order in which
      loads can arrive, and an execution ends when none is left.
    - [Map] caches are [gmap]s, arrays are lists.
    - Numbers of the geometry code are real numbers; the values that
      [Number.isFinite] rejects (NaN, the infinities) are a separate
      constructor.  Rounding of IEEE doubles is not modelled.
    - The rendering library (three.js) and the DOM are not part of the
      repository: what the code reads from them is an input of the model. *)

From Stdlib Require Import ZArith List Lia Reals Lra.
From stdpp Require Import base relations gmap strings list.

(** ** runWithConcurrency (src/main.js, 548-565) *)

Module Runner.

(** What a worker does when it is run up to its next suspension point. *)
Inductive wres (K : Type) :=
| Suspend (k : K)   (* it reached an [await]; [k] is the rest of the worker *)
| Return            (* it ran to its end: its promise fulfils *)
| Throw.            (* it threw: its promise rejects *)
Arguments Suspend {K} k.
Arguments Return {K}.
Arguments Throw {K}.

(** The promise returned by [worker(items[current])]. *)
Inductive promise (K : Type) :=
| Pending (k : K)
| Fulfilled
| Rejected.
Arguments Pending {K} k.
Arguments Fulfilled {K}.
Arguments Rejected {K}.

(** One call of the inner [runner()]: suspended at its [await], returned
    (the [while] test failed), or terminated by the exception that the
    [await] re-threw. *)
Inductive rstate (K : Type) :=
| Awaiting (p : promise K)
| Done
| Failed.
Arguments Awaiting {K} p.
Arguments Done {K}.
Arguments Failed {K}.

Record state (Sh K : Type) := mkState {
  shared : Sh;                    (* everything the workers read and write *)
  index : nat;                   (* [let index = 0] *)
  runners : list (rstate K);     (* the [runners] array, one entry per call *)
  claims : list (nat * nat)      (* ghost: (runner, [current]) per worker call *)
}.
Arguments mkState {Sh K}.
Arguments shared {Sh K}.
Arguments index {Sh K}.
Arguments runners {Sh K}.
Arguments claims {Sh K}.

(** [Math.max(1, Math.min(concurrency, items.length || 1))], for a limit
    that is an integer; [Pool.safeConcurrency] below takes any value. *)
Definition safeConcurrency (concurrency : Z) (len : nat) : Z :=
  Z.max 1 (Z.min concurrency (if Nat.eqb len 0 then 1 else Z.of_nat len)).

Section Machine.
Context {A Sh K : Type}.
Variable items : list A.
(** The worker, an [async] function over the shared state: [wstart] runs a
    fresh call up to its first suspension, [wresume] continues a
    suspended call. *)
Variable wstart : A -> Sh -> Sh * wres K.
Variable wresume : K -> Sh -> Sh * wres K.

Definition settle (r : wres K) : promise K :=
  match r with
  | Suspend k => Pending k
  | Return => Fulfilled
  | Throw => Rejected
  end.

(** The head of the [while] loop, run by runner [id]: test
    [index < items.length], claim [current], bump [index], call the worker
    and suspend on its promise. *)
Definition runner (id : nat) (st : state Sh K) : state Sh K * rstate K :=
  match items !! index st with
  | Some x =>
      let '(s', r) := wstart x (shared st) in
      (mkState s' (S (index st)) (runners st) (claims st ++ [(id, index st)]),
       Awaiting (settle r))
  | None => (st, Done)
  end.

(** [runners.push(runner())] *)
Definition spawn (st : state Sh K) : state Sh K :=
  let '(st', r) := runner (length (runners st)) st in
  mkState (shared st') (index st') (runners st' ++ [r]) (claims st').

(** The state when [runWithConcurrency] reaches [await Promise.all]. *)
Definition runWithConcurrency (concurrency : Z) (s0 : Sh) : state Sh K :=
  Nat.iter (Z.to_nat (safeConcurrency concurrency (length items))) spawn
           (mkState s0 0 [] []).

(** The event loop continues runner [id]'s computation: the worker call
    it waits for, when that is suspended (what the call awaited has
    settled); the runner itself, when the promise of the call has settled:
    fulfilled, the runner is back at the head of its loop; rejected, the
    [await] throws and the runner ends with the exception. *)
Definition step (id : nat) (st : state Sh K) : option (state Sh K) :=
  match runners st !! id with
  | Some (Awaiting (Pending k)) =>
      let '(s', r) := wresume k (shared st) in
      Some (mkState s' (index st) (<[id := Awaiting (settle r)]> (runners st)) (claims st))
  | Some (Awaiting Fulfilled) =>
      let '(st', r) := runner id st in
      Some (mkState (shared st') (index st') (<[id := r]> (runners st')) (claims st'))
  | Some (Awaiting Rejected) =>
      Some (mkState (shared st) (index st) (<[id := Failed]> (runners st)) (claims st))
  | _ => None
  end.

Definition Step : relation (state Sh K) :=
  fun st st' => exists id, step id st = Some st'.

(** Run a schedule: the list of runners picked by the event loop
    (a pick that cannot continue is skipped). *)
Fixpoint run (sched : list nat) (st : state Sh K) : state Sh K :=
  match sched with
  | [] => st
  | id :: sched' => run sched' (default st (step id st))
  end.

Definition is_pending (r : rstate K) : bool :=
  match r with Awaiting (Pending _) => true | _ => false end.
Definition is_done (r : rstate K) : bool :=
  match r with Done => true | _ => false end.
Definition is_stopped (r : rstate K) : bool :=
  match r with Awaiting _ => false | _ => true end.

(** Worker calls whose promise has not settled. *)
Definition in_flight (st : state Sh K) : nat :=
  length (filter (fun r => is_pending r = true) (runners st)).
(** [Promise.all(runners)] fulfils. *)
Definition resolved (st : state Sh K) : Prop :=
  forallb is_done (runners st) = true.
(** No runner can continue. *)
Definition quiescent (st : state Sh K) : Prop :=
  forallb is_stopped (runners st) = true.
(** The items the worker was called on, in call order. *)
Definition invoked (st : state Sh K) : list A :=
  omap (fun c => items !! c.2) (claims st).
End Machine.

(** The suspended worker calls, in the order of their runners. *)
Definition suspended_of {K} (r : wres K) : list K :=
  match r with Suspend k => [k] | _ => [] end.
Definition pending_of {K} (r : rstate K) : option K :=
  match r with Awaiting (Pending k) => Some k | _ => None end.
Definition pending {Sh K} (st : state Sh K) : list K :=
  omap pending_of (runners st).

(** A termination measure.  [fuel k] bounds the suspensions that remain in
    the suspended worker [k], [bound] the fuel of a fresh call. *)
Section Measure.
Context {A Sh K : Type}.
Variable items : list A.
Variable fuel : K -> nat.
Variable bound : nat.

Definition pweight (p : promise K) : nat :=
  match p with Pending k => fuel k + 2 | _ => 1 end.
Definition rweight (r : rstate K) : nat :=
  match r with Awaiting p => pweight p | _ => 0 end.
Definition weight (st : state Sh K) : nat :=
  sum_list_with rweight (runners st) + (length items - index st) * (bound + 2).
End Measure.

(** What holds of the counter and of the claims at every suspension. *)
Definition consistent {A Sh K} (items : list A) (st : state Sh K) : Prop :=
  index st <= length items /\
  (claims st).*2 = seq 0 (index st) /\
  (forall id, runners st !! id = Some Done -> length items <= index st) /\
  (forall id i, (id, i) ∈ claims st -> id < length (runners st)).

(** A runner that was not stopped by an exception and is not about to be. *)
Definition is_healthy {K} (r : rstate K) : bool :=
  match r with Failed | Awaiting Rejected => false | _ => true end.

(** Two workers over a shared log of the items they were called on.  Both
    push their item, [await] once and end; [flaky] throws after the
    [await] when its item is [7]. *)
Definition steady_start (x : nat) (log : list nat) : list nat * wres nat :=
  (log ++ [x], Suspend x).
Definition steady_resume (x : nat) (log : list nat) : list nat * wres nat :=
  (log, Return).
Definition flaky_start (x : nat) (log : list nat) : list nat * wres nat :=
  (log ++ [x], Suspend x).
Definition flaky_resume (x : nat) (log : list nat) : list nat * wres nat :=
  (log, if Nat.eqb x 7 then Throw else Return).

End Runner.

(** ** Numbers and values of the geometry code *)

Module Js.

(** A JavaScript number: finite, or one of the three values that
    [Number.isFinite] rejects. *)
Inductive num :=
| Fin (r : R)
| NaN
| PosInf
| NegInf.

(** What a property of a parsed JSON document can hold.  [Undefined] is an
    absent property.  [Coerced n] is any other value (a string, an array, an
    object) together with the number that [Number(...)] converts it to. *)
Inductive value :=
| Undefined
| Null
| Bool (b : bool)
| Num (n : num)
| Coerced (n : num).

(** [Number(value)] *)
Definition Number (v : value) : num :=
  match v with
  | Undefined => NaN
  | Null => Fin 0
  | Bool true => Fin 1
  | Bool false => Fin 0
  | Num n => n
  | Coerced n => n
  end.

Definition isFinite (n : num) : bool :=
  match n with Fin _ => true | _ => false end.

(** src/main.js, 91-94 *)
Definition asNumber (v : value) (fallback : R) : R :=
  match Number v with
  | Fin r => r
  | _ => fallback
  end.

(** src/main.js, 96-98: [Math.min(max, Math.max(min, value))] *)
Definition clamp (v lo hi : R) : R := Rmin hi (Rmax lo v).

(** [a < b] on JavaScript numbers. *)
Definition num_ltb (a b : num) : bool :=
  match a, b with
  | Fin r1, Fin r2 => if Rlt_dec r1 r2 then true else false
  | NegInf, Fin _ | NegInf, PosInf | Fin _, PosInf => true
  | _, _ => false
  end.

(** The real number held by a finite number. *)
Definition real (n : num) : R :=
  match n with Fin r => r | _ => 0%R end.

End Js.

(** ** runWithConcurrency, whatever its limit is (src/main.js, 548-565) *)

Module Pool.
Import Runner Js.

(** [Math.min] and [Math.max] of two numbers. *)
Definition Math_min (a b : num) : num :=
  match a, b with
  | NaN, _ | _, NaN => NaN
  | NegInf, _ | _, NegInf => NegInf
  | PosInf, n | n, PosInf => n
  | Fin x, Fin y => Fin (Rmin x y)
  end.
Definition Math_max (a b : num) : num :=
  match a, b with
  | NaN, _ | _, NaN => NaN
  | PosInf, _ | _, PosInf => PosInf
  | NegInf, n | n, NegInf => n
  | Fin x, Fin y => Fin (Rmax x y)
  end.

(** [Math.max(1, Math.min(concurrency, items.length || 1))], for a limit
    that is any value: [Math.min] converts it to a number. *)
Definition safeConcurrency (concurrency : value) (len : nat) : num :=
  Math_max (Fin 1)
    (Math_min (Number concurrency) (Fin (INR (if Nat.eqb len 0 then 1 else len)))).

Section Machine.
Context {A Sh K : Type}.
Variable items : list A.
Variable wstart : A -> Sh -> Sh * wres K.

(** [for (let i = 0; i < safeConcurrency; i += 1) runners.push(runner())],
    from its turn [i] on.  [fuel] bounds the turns that are left: the loop
    has ended after [items.length + 1] turns. *)
Fixpoint start (fuel i : nat) (safe : num) (st : state Sh K) : state Sh K :=
  match fuel with
  | 0 => st
  | S fuel =>
      if num_ltb (Fin (INR i)) safe
      then start fuel (S i) safe (spawn items wstart st)
      else st
  end.

(** The state when [runWithConcurrency] reaches [await Promise.all]. *)
Definition runWithConcurrency (concurrency : value) (s0 : Sh) : state Sh K :=
  start (S (length items)) 0 (safeConcurrency concurrency (length items))
        (mkState s0 0 [] []).
End Machine.

End Pool.

(** ** Transforms (src/main.js, 113-184) *)

Module Transform.
Import Js.
#[local] Open Scope R_scope.

Record Vector3 := mkVector3 { vx : R; vy : R; vz : R }.
Record Quaternion := mkQuaternion { qx : R; qy : R; qz : R; qw : R }.

(** The three.js functions that the code calls, as the library has them:
    [Quaternion.identity], [Quaternion.length], [Quaternion.normalize] and
    [Quaternion.setFromEuler] for the default order XYZ.

    [Quaternion.length] is [Math.sqrt(x * x + y * y + z * z + w * w)], in
    doubles.  A sum of squares of [OVERFLOW] or more is [Infinity].  Below
    [MIN_NORMAL] the squares are subnormal numbers: each product is rounded
    to a multiple of [ULP] (to the nearest one, to the even one of two), and
    the sum of the four is exact.  In between, the rounding of doubles (a
    relative error of 2^-50 at most) is not modelled. *)
Definition identity : Quaternion := mkQuaternion 0 0 0 1.

(** The Euclidean length of a quaternion. *)
Definition qlength (q : Quaternion) : R :=
  sqrt (qx q * qx q + qy q * qy q + qz q * qz q + qw q * qw q).

Definition OVERFLOW : R := IZR (2 ^ 1024 - 2 ^ 970).
Definition MIN_NORMAL : R := / IZR (2 ^ 1022).
Definition ULP : R := / IZR (2 ^ 1074).

(** The integer nearest to [r], the even one of two. *)
Definition round_half_even (r : R) : Z :=
  let f := Int_part r in
  let d := r - IZR f in
  if Rlt_dec d (1 / 2) then f
  else if Rlt_dec (1 / 2) d then (f + 1)%Z
  else if Z.even f then f else (f + 1)%Z.

(** A product below [MIN_NORMAL], as a double. *)
Definition subnormal (p : R) : R :=
  IZR (round_half_even (p * IZR (2 ^ 1074))) * ULP.

Definition norm2 (q : Quaternion) : R :=
  qx q * qx q + qy q * qy q + qz q * qz q + qw q * qw q.

(** [Quaternion.length] *)
Definition Quaternion_length (q : Quaternion) : num :=
  let s := norm2 q in
  if Rle_dec OVERFLOW s then PosInf
  else if Rle_dec MIN_NORMAL s then Fin (sqrt s)
  else Fin (sqrt (subnormal (qx q * qx q) + subnormal (qy q * qy q) +
                  subnormal (qz q * qz q) + subnormal (qw q * qw q))).

(** [Quaternion.normalize]: [let l = this.length()]; for [l === 0] the
    identity; otherwise [l = 1 / l] and every component is multiplied by
    [l], which is 0 when the length was [Infinity]. *)
Definition normalize (q : Quaternion) : Quaternion :=
  match Quaternion_length q with
  | Fin l =>
      if Req_dec_T l 0 then identity
      else mkQuaternion (qx q * (1 / l)) (qy q * (1 / l)) (qz q * (1 / l)) (qw q * (1 / l))
  | _ => mkQuaternion 0 0 0 0
  end.

Definition setFromEuler (ex ey ez : R) : Quaternion :=
  let c1 := cos (ex / 2) in let c2 := cos (ey / 2) in let c3 := cos (ez / 2) in
  let s1 := sin (ex / 2) in let s2 := sin (ey / 2) in let s3 := sin (ez / 2) in
  mkQuaternion (s1 * c2 * c3 + c1 * s2 * s3) (c1 * s2 * c3 - s1 * c2 * s3)
               (c1 * c2 * s3 + s1 * s2 * c3) (c1 * c2 * c3 - s1 * s2 * s3).

(** A truthy [position] or [scale]: its [x], [y] and [z] properties. *)
Record xyz := mkXyz { px : value; py : value; pz : value }.

(** The [rotation] of a transform, by shape: an array; any other object,
    with its [x], [y], [z], [w] properties ([None]: the key is not [in] the
    object); anything else ([undefined], [null], a number, a string). *)
Inductive rotation :=
| RotArray (elems : list value)
| RotObject (rx ry rz rw : option value)
| RotOther.

(** A truthy transform record; [None] is a falsy [position] or [scale]. *)
Record t := mkTransform {
  position : option xyz;
  rotation_of : rotation;
  scale : option xyz
}.

(** src/main.js, 113-120 *)
Definition getVector3 (source : option xyz) (fallback : Vector3) : Vector3 :=
  let ref := default (mkXyz Undefined Undefined Undefined) source in
  mkVector3 (asNumber (px ref) (vx fallback))
            (asNumber (py ref) (vy fallback))
            (asNumber (pz ref) (vz fallback)).

(** [r.x], for a key that may be absent. *)
Definition property (o : option value) : value := default Undefined o.

(** src/main.js, 122-161 *)
Definition getQuaternion (source : rotation) : Quaternion :=
  match source with
  | RotArray [r0; r1; r2; r3] =>
      normalize (mkQuaternion (asNumber r0 0) (asNumber r1 0) (asNumber r2 0) (asNumber r3 1))
  | RotObject (Some x) (Some y) (Some z) (Some w) =>
      normalize (mkQuaternion (asNumber x 0) (asNumber y 0) (asNumber z 0) (asNumber w 1))
  | RotObject x y z _ =>
      setFromEuler (asNumber (property x) 0) (asNumber (property y) 0) (asNumber (property z) 0)
  | RotArray _ =>
      setFromEuler (asNumber Undefined 0) (asNumber Undefined 0) (asNumber Undefined 0)
  | RotOther => identity
  end.

(** What [applyTransform] writes into its target. *)
Record Object3D := mkObject3D {
  o_position : Vector3;
  o_quaternion : Quaternion;
  o_scale : Vector3
}.

(** src/main.js, 14-20 *)
Record config := mkConfig {
  mirrorXAxisOnImport : bool;
  enableShadows : bool;
  shadowCasterLimit : nat
}.
Definition VIEWER_CONFIG : config := mkConfig true true 80.

(** src/main.js, 163-184, for a given configuration. *)
Definition applyTransformWith (cfg : config) (transform : option t) : Object3D :=
  let p := getVector3 (transform ≫= position) (mkVector3 0 0 0) in
  let s := getVector3 (transform ≫= scale) (mkVector3 1 1 1) in
  let tmpQuat := getQuaternion (from_option rotation_of RotOther transform) in
  if mirrorXAxisOnImport cfg then
    mkObject3D (mkVector3 (- vx p) (vy p) (vz p))
               (normalize (mkQuaternion (qx tmpQuat) (- qy tmpQuat) (- qz tmpQuat) (qw tmpQuat)))
               s
  else mkObject3D p tmpQuat s.

Definition applyTransform : option t -> Object3D := applyTransformWith VIEWER_CONFIG.

End Transform.

(** ** Camera fitting *)

Module Camera.
Import Js Transform.
#[local] Open Scope R_scope.

(** A three.js vector whose components need not be finite. *)
Record NVector3 := mkNVector3 { nx : num; ny : num; nz : num }.
(** The box that [Box3.setFromObject] computes. *)
Record Box3 := mkBox3 { bmin : NVector3; bmax : NVector3 }.

(** src/main.js, 100-111 *)
Definition isFiniteVec3 (v : NVector3) : bool :=
  isFinite (nx v) && isFinite (ny v) && isFinite (nz v).
Definition isFiniteBox (box : Box3) : bool :=
  isFiniteVec3 (bmin box) && isFiniteVec3 (bmax box).

(** three.js [Box3.isEmpty], [Box3.getSize] and [Box3.getCenter]; the last
    two for a box whose corners are finite. *)
Definition isEmpty (box : Box3) : bool :=
  num_ltb (nx (bmax box)) (nx (bmin box)) ||
  num_ltb (ny (bmax box)) (ny (bmin box)) ||
  num_ltb (nz (bmax box)) (nz (bmin box)).
Definition getSize (box : Box3) : Vector3 :=
  if isEmpty box then mkVector3 0 0 0
  else mkVector3 (real (nx (bmax box)) - real (nx (bmin box)))
                 (real (ny (bmax box)) - real (ny (bmin box)))
                 (real (nz (bmax box)) - real (nz (bmin box))).
Definition getCenter (box : Box3) : Vector3 :=
  if isEmpty box then mkVector3 0 0 0
  else mkVector3 ((real (nx (bmin box)) + real (nx (bmax box))) * (1 / 2))
                 ((real (ny (bmin box)) + real (ny (bmax box))) * (1 / 2))
                 ((real (nz (bmin box)) + real (nz (bmax box))) * (1 / 2)).

(** [Math.max(size.x, size.y, size.z)] *)
Definition maxDim (size : Vector3) : R := Rmax (Rmax (vx size) (vy size)) (vz size).

(** What a fit writes: the camera's position and planes, the density of the
    fog (the inventory viewer) and the target of the controls; [cameraZ] is
    the local variable of that name. *)
Record Fit := mkFit {
  cameraZ : R;
  cam_position : Vector3;
  cam_near : R;
  cam_far : R;
  fog_density : option R;
  controls_target : Vector3
}.

(** src/main.js, 452-482.  [fov] is [cameraRef.fov], in degrees; [None] is
    one of the early returns, which leave the camera as it was. *)
Definition fitCameraToObject (fov : R) (box : Box3) (offset : value) : option Fit :=
  if isEmpty box || negb (isFiniteBox box) then None
  else
    let tmpSize := getSize box in
    let tmpCenter := getCenter box in
    let maxDim := maxDim tmpSize in
    let safeMaxDim := Rmax maxDim 1 in
    let fov := fov * (PI / 180) in
    let cameraZ := Rabs ((safeMaxDim / 2) / tan (fov / 2)) in
    let cameraZ := cameraZ * asNumber offset (13 / 10) in
    let cameraZ := clamp cameraZ 10 280 in
    Some (mkFit cameraZ
            (mkVector3 (vx tmpCenter) (vy tmpCenter + safeMaxDim * (8 / 100)) (vz tmpCenter + cameraZ))
            (Rmax (Rmin (safeMaxDim / 1000) (2 / 10)) (1 / 100))
            (Rmax (Rmax (safeMaxDim * 20) (cameraZ * 8)) 1200)
            (Some (clamp ((45 / 100) / Rmax cameraZ 1) (18 / 100000) (12 / 10000)))
            tmpCenter).

(** The cameras that both viewers create: [new THREE.PerspectiveCamera(50, ...)]. *)
Definition camera_fov : R := 50.

End Camera.

(** ** The render loop (src/main.js, 52-55, 385-398, 492-542) *)

Module RenderLoop.

Record state := mkState {
  mixers : nat;                 (* [mixers.length] *)
  hasAnimatedModels : bool;
  renderLoopActive : bool;
  frameRequested : bool;
  clockRunning : bool;          (* [clock.start()] / [clock.stop()] *)
  frames : nat                  (* calls of [renderer.render] *)
}.

(** The module-level initial values. *)
Definition initial : state := mkState 0 false false true false 0.

(** src/main.js, 497-512 *)
Definition ensureRenderLoopState (st : state) : state :=
  let shouldRun := hasAnimatedModels st || frameRequested st in
  if shouldRun && negb (renderLoopActive st) then
    mkState (mixers st) (hasAnimatedModels st) true (frameRequested st) true (frames st)
  else if negb shouldRun && renderLoopActive st then
    mkState (mixers st) (hasAnimatedModels st) false (frameRequested st) false (frames st)
  else st.

(** src/main.js, 492-495 *)
Definition requestRender (st : state) : state :=
  ensureRenderLoopState
    (mkState (mixers st) (hasAnimatedModels st) (renderLoopActive st) true
             (clockRunning st) (frames st)).

(** src/main.js, 385-398; [clips] is [clips.length] (0 also for a missing
    array). *)
Definition registerModelAnimations (clips : nat) (st : state) : state :=
  if Nat.eqb clips 0 then st
  else
    let st1 := mkState (S (mixers st)) (hasAnimatedModels st) (renderLoopActive st)
                       (frameRequested st) (clockRunning st) (frames st) in
    if negb (hasAnimatedModels st1) then
      ensureRenderLoopState
        (mkState (mixers st1) true (renderLoopActive st1) (frameRequested st1)
                 (clockRunning st1) (frames st1))
    else st1.

(** src/main.js, 514-542; [needResize] is what
    [resizeRendererToDisplaySize] returns. *)
Definition renderFrame (needResize : bool) (st : state) : state :=
  let st1 :=
    if needResize then
      mkState (mixers st) (hasAnimatedModels st) (renderLoopActive st) true
              (clockRunning st) (frames st)
    else st in
  let st2 :=
    if hasAnimatedModels st1 then
      mkState (mixers st1) (hasAnimatedModels st1) (renderLoopActive st1) true
              (clockRunning st1) (frames st1)
    else st1 in
  if negb (frameRequested st2) then
    if negb (hasAnimatedModels st2) then ensureRenderLoopState st2 else st2
  else
    let st3 :=
      mkState (mixers st2) (hasAnimatedModels st2) (renderLoopActive st2) false
              (clockRunning st2) (S (frames st2)) in
    if negb (hasAnimatedModels st3) then ensureRenderLoopState st3 else st3.

(** What happens to the render-loop state: a call of [requestRender] (an
    event listener, the loading code), a call of [registerModelAnimations]
    (a model was added), an animation frame. *)
Inductive event :=
| RequestRender
| RegisterModelAnimations (clips : nat)
| AnimationFrame (needResize : bool).

(** The library calls [renderFrame] on an animation frame only while it is
    installed with [renderer.setAnimationLoop]. *)
Definition apply (e : event) (st : state) : state :=
  match e with
  | RequestRender => requestRender st
  | RegisterModelAnimations clips => registerModelAnimations clips st
  | AnimationFrame needResize =>
      if renderLoopActive st then renderFrame needResize st else st
  end.

Definition run (events : list event) (st : state) : state :=
  fold_left (fun st e => apply e st) events st.

(** The script ends with a call of [requestRender()], before any event. *)
Definition started : state := requestRender initial.

Definition loop_matches (st : state) : Prop :=
  renderLoopActive st = hasAnimatedModels st || frameRequested st.

End RenderLoop.

(** ** The inventory viewer: caches and loading pipeline
       (src/main.js, 58-59, 287-431, 692-757) *)

Module Inventory.
Import Runner.

(** The argument of a loader's [onError] callback: falsy, or an object with
    or without a [message]. *)
Inductive jserr :=
| ErrFalsy
| ErrObject (message : option string).

(** What [textureLoader.load] and [gltfLoader.load] report for a file, when
    they get to it.  A loaded glTF has a scene or not, and a number of
    animation clips. *)
Inductive texture_report :=
| TextureLoaded
| TextureError (e : jserr).
Inductive gltf_report :=
| GltfLoaded (has_scene : bool) (animations : nat)
| GltfError (e : jserr).

Record network := mkNetwork {
  textureLoader : string -> texture_report;
  gltfLoader : string -> gltf_report
}.

(** A promise is an object ([pid] tells two promises apart) that settles
    once: it resolves to a value or rejects with an error, of which the
    code reads the [message]. *)
Inductive settled (T : Type) :=
| Resolves (v : T)
| Rejects (message : option string).
Arguments Resolves {T} v.
Arguments Rejects {T} message.

Record promise (T : Type) := mkPromise { pid : nat; settles : settled T }.
Arguments mkPromise {T}.
Arguments pid {T}.
Arguments settles {T}.

(** What [loadModelTemplate] resolves to (the template and its unit scale
    are not modelled). *)
Record modelEntry := mkModelEntry { animations : nat }.

Record caches := mkCaches {
  texturePromiseCache : gmap string (promise unit);
  modelTemplateCache : gmap string (promise modelEntry);
  promises : nat;               (* promises created so far *)
  textureLoads : list string;   (* calls of [textureLoader.load] *)
  modelLoads : list string      (* calls of [gltfLoader.load] *)
}.

Definition no_caches : caches := mkCaches ∅ ∅ 0 [] [].

(** [reject(err || new Error(...))] *)
Definition rejection (e : jserr) (fallback : string) : option string :=
  match e with
  | ErrFalsy => Some fallback
  | ErrObject message => message
  end.

Definition texture_outcome (r : texture_report) : settled unit :=
  match r with
  | TextureLoaded => Resolves tt
  | TextureError e => Rejects (rejection e "Texture load failed")
  end.

Definition model_outcome (r : gltf_report) : settled modelEntry :=
  match r with
  | GltfLoaded true animations => Resolves (mkModelEntry animations)
  | GltfLoaded false _ => Rejects (Some "Empty GLTF scene")
  | GltfError e => Rejects (rejection e "Model load failed")
  end.

(** src/main.js, 300-322 *)
Definition loadTextureByFile (net : network) (fileName : string) (c : caches)
  : promise unit * caches :=
  match texturePromiseCache c !! fileName with
  | Some p => (p, c)
  | None =>
      let p := mkPromise (promises c) (texture_outcome (textureLoader net fileName)) in
      (p, mkCaches (<[fileName := p]> (texturePromiseCache c)) (modelTemplateCache c)
                   (S (promises c)) (textureLoads c ++ [fileName]) (modelLoads c))
  end.

(** src/main.js, 324-347 *)
Definition loadModelTemplate (net : network) (fileName : string) (c : caches)
  : promise modelEntry * caches :=
  match modelTemplateCache c !! fileName with
  | Some p => (p, c)
  | None =>
      let p := mkPromise (promises c) (model_outcome (gltfLoader net fileName)) in
      (p, mkCaches (texturePromiseCache c) (<[fileName := p]> (modelTemplateCache c))
                   (S (promises c)) (textureLoads c) (modelLoads c ++ [fileName]))
  end.

(** A call of one of the two loaders. *)
Inductive load :=
| LoadTexture (fileName : string)
| LoadModel (fileName : string).

Definition do_load (net : network) (l : load) (c : caches) : caches :=
  match l with
  | LoadTexture f => (loadTextureByFile net f c).2
  | LoadModel f => (loadModelTemplate net f c).2
  end.

(** An entry of [inventory.assets] that is an object. *)
Record Asset := mkAsset {
  assetType : option string;
  mapped_file : option string;
  transform : option Transform.t
}.

(** [value] when it is truthy. *)
Definition truthy (value : option string) : option string :=
  match value with
  | Some s => if String.eqb s EmptyString then None else Some s
  | None => None
  end.

Definition is_type (kind : string) (asset : Asset) : bool :=
  match assetType asset with
  | Some s => String.eqb s kind
  | None => false
  end.

(** A child of [world]. *)
Inductive content :=
| ImageLayer (fileName : string)
| ModelInstance (fileName : string) (animations : nat)
| FallbackPlane.

Record node := mkNode {
  n_content : content;
  n_pose : Transform.Object3D;     (* written by [applyTransform] *)
  n_asset : option Asset;          (* [userData.asset] *)
  n_error : option string          (* [userData.error] *)
}.

Record Totals := mkTotals { total : nat; ok : nat; fallback : nat; loaded : nat }.

Inductive status_text :=
| Cargando_inventario
| Cargando_assets (loaded total : nat) (ok_fallback : option (nat * nat))
| Listo (total ok fallback : nat)
| Error_text.

(** What the loading code reads and writes. *)
Record viewer := mkViewer {
  totals : Totals;
  world : list node;
  cache : caches;
  render : RenderLoop.state;
  status : status_text
}.

(** src/main.js, 287-298 *)
Definition addFallbackPlane (asset : option Asset) (reason : option string) (v : viewer)
  : viewer :=
  let holder :=
    mkNode FallbackPlane
           (Transform.applyTransform (asset ≫= transform))
           asset
           (Some (default "load_error" (truthy reason))) in
  mkViewer (totals v) (world v ++ [holder]) (cache v) (render v) (status v).

Definition STATUS_UPDATE_EVERY : nat := 10.
Definition YIELD_TO_UI_EVERY : nat := 12.
Definition MODEL_CONCURRENCY : Z := 1.
Definition IMAGE_CONCURRENCY : Z := 8.

(** Where a call of [handleAsset] is suspended.  [addAsset] awaits the
    promise of [addImageAsset] or [addModelAsset], and [handleAsset] awaits
    the promise of [addAsset]: after the load has settled the call
    continues in three steps. *)
Inductive suspended :=
| InImageLoad (asset : Asset) (fileName : string) (p : promise unit)
| InModelLoad (asset : Asset) (fileName : string) (p : promise modelEntry)
| InAddAsset (asset : Asset) (thrown : option (option string))
| InHandleAsset (asset : Asset) (thrown : option (option string))
| InNextFrame.

(** [`unsupported type: ${asset.assetType || "unknown"}`] *)
Definition unsupported_message (asset : Asset) : string :=
  "unsupported type: " +:+ default "unknown" (truthy (assetType asset)).

(** [handleAsset(asset)] up to its first suspension: through [addAsset]
    (src/main.js, 419-431) into [addModelAsset] or [addImageAsset]
    (359-368, 400-417), which throw for a missing file name or start the
    load. *)
Definition handleAsset (net : network) (asset : Asset) (v : viewer)
  : viewer * wres suspended :=
  if is_type "model" asset then
    match truthy (mapped_file asset) with
    | None => (v, Suspend (InAddAsset asset (Some (Some "missing mapped_file"))))
    | Some fileName =>
        let '(p, c) := loadModelTemplate net fileName (cache v) in
        (mkViewer (totals v) (world v) c (render v) (status v),
         Suspend (InModelLoad asset fileName p))
    end
  else if is_type "image" asset then
    match truthy (mapped_file asset) with
    | None => (v, Suspend (InAddAsset asset (Some (Some "missing mapped_file"))))
    | Some fileName =>
        let '(p, c) := loadTextureByFile net fileName (cache v) in
        (mkViewer (totals v) (world v) c (render v) (status v),
         Suspend (InImageLoad asset fileName p))
    end
  else (v, Suspend (InHandleAsset asset (Some (Some (unsupported_message asset))))).

(** The [finally] block of [handleAsset] (src/main.js, 725-738). *)
Definition handleAsset_finally (v : viewer) : viewer * wres suspended :=
  let t := totals v in
  let t := mkTotals (total t) (ok t) (fallback t) (S (loaded t)) in
  let v := mkViewer t (world v) (cache v) (render v) (status v) in
  let v :=
    if Nat.eqb (loaded t mod STATUS_UPDATE_EVERY) 0 || Nat.eqb (loaded t) (total t) then
      mkViewer t (world v) (cache v) (RenderLoop.requestRender (render v))
               (Cargando_assets (loaded t) (total t) (Some (ok t, fallback t)))
    else v in
  if Nat.eqb (loaded t mod YIELD_TO_UI_EVERY) 0 then (v, Suspend InNextFrame)
  else (v, Return).

(** A suspended call of [handleAsset] continues. *)
Definition handleAsset_resume (k : suspended) (v : viewer) : viewer * wres suspended :=
  match k with
  | InImageLoad asset fileName p =>
      match settles p with
      | Resolves _ =>
          let layer := mkNode (ImageLayer fileName)
                              (Transform.applyTransform (transform asset)) (Some asset) None in
          (mkViewer (totals v) (world v ++ [layer]) (cache v) (render v) (status v),
           Suspend (InAddAsset asset None))
      | Rejects message => (v, Suspend (InAddAsset asset (Some message)))
      end
  | InModelLoad asset fileName p =>
      match settles p with
      | Resolves modelEntry =>
          let holder := mkNode (ModelInstance fileName (animations modelEntry))
                               (Transform.applyTransform (transform asset)) (Some asset) None in
          (mkViewer (totals v) (world v ++ [holder]) (cache v)
                    (RenderLoop.registerModelAnimations (animations modelEntry) (render v))
                    (status v),
           Suspend (InAddAsset asset None))
      | Rejects message => (v, Suspend (InAddAsset asset (Some message)))
      end
  | InAddAsset asset thrown => (v, Suspend (InHandleAsset asset thrown))
  | InHandleAsset asset None =>
      let t := totals v in
      handleAsset_finally
        (mkViewer (mkTotals (total t) (S (ok t)) (fallback t) (loaded t))
                  (world v) (cache v) (render v) (status v))
  | InHandleAsset asset (Some message) =>
      let t := totals v in
      handleAsset_finally
        (addFallbackPlane (Some asset) (Some (default "load_error" (truthy message)))
           (mkViewer (mkTotals (total t) (ok t) (S (fallback t)) (loaded t))
                     (world v) (cache v) (render v) (status v)))
  | InNextFrame => (v, Return)
  end.

(** Suspensions left in a suspended call. *)
Definition handle_fuel (k : suspended) : nat :=
  match k with
  | InImageLoad _ _ _ | InModelLoad _ _ _ => 3
  | InAddAsset _ _ => 2
  | InHandleAsset _ _ => 1
  | InNextFrame => 0
  end.

(** src/main.js, 703-716: the counters and the three filters.  An entry of
    [assets] may be [null] ([None]). *)
Definition modelAssets (assets : list (option Asset)) : list Asset :=
  omap (fun a => a ≫= fun asset => if is_type "model" asset then Some asset else None) assets.
Definition imageAssets (assets : list (option Asset)) : list Asset :=
  omap (fun a => a ≫= fun asset => if is_type "image" asset then Some asset else None) assets.
Definition is_other (a : option Asset) : bool :=
  match a with
  | None => true
  | Some asset => negb (is_type "model" asset) && negb (is_type "image" asset)
  end.
Definition otherAssets (assets : list (option Asset)) : list (option Asset) :=
  List.filter is_other assets.

(** src/main.js, 741-745, one turn of the loop. *)
Definition other_fallback (v : viewer) (other : option Asset) : viewer :=
  let t := totals v in
  addFallbackPlane other (Some "unsupported type")
    (mkViewer (mkTotals (total t) (ok t) (S (fallback t)) (S (loaded t)))
              (world v) (cache v) (render v) (status v)).

(** [main] when it has the inventory: the state before the first batch.
    [v0] holds the caches, the world and the render loop as they are. *)
Definition loading (assets : list (option Asset)) (v0 : viewer) : viewer :=
  fold_left other_fallback (otherAssets assets)
    (mkViewer (mkTotals (length assets) 0 0 0) (world v0) (cache v0) (render v0)
              (Cargando_assets 0 (length assets) None)).

(** The module-level state when [main] goes on with the inventory it has
    fetched: nothing is loaded, nothing is cached; [r] is the state of the
    render loop, which has run in between. *)
Definition fresh (r : RenderLoop.state) : viewer :=
  mkViewer (mkTotals 0 0 0 0) [] no_caches r Cargando_inventario.

(** src/main.js, 750-756 (the ground reference and the camera are fitted
    here; see [Camera.fitCameraToObject]). *)
Definition finish (v : viewer) : viewer :=
  let t := totals v in
  mkViewer t (world v) (cache v) (RenderLoop.requestRender (render v))
           (Listo (total t) (ok t) (fallback t)).

(** [main().catch(...)] (src/main.js, 762-766) *)
Definition abort (v : viewer) : viewer :=
  mkViewer (totals v) (world v) (cache v) (RenderLoop.requestRender (render v)) Error_text.

(** [main] after the inventory was fetched: in the batch of the models, in
    the batch of the images, at its end, or rejected. *)
Inductive main_state :=
| InModels (st : state viewer suspended)
| InImages (st : state viewer suspended)
| Finished (v : viewer)
| Aborted (v : viewer).

Definition batch_step (net : network) (items : list Asset)
  : relation (state viewer suspended) :=
  Step items (handleAsset net) handleAsset_resume.

Definition has_failed (st : state viewer suspended) : Prop :=
  exists id, runners st !! id = Some Failed.

Inductive main_step (net : network) (assets : list (option Asset)) : relation main_state :=
| models_step st st' :
    batch_step net (modelAssets assets) st st' ->
    main_step net assets (InModels st) (InModels st')
| models_resolved st :
    resolved st ->
    main_step net assets (InModels st)
      (InImages (runWithConcurrency (imageAssets assets) (handleAsset net) IMAGE_CONCURRENCY (shared st)))
| models_rejected st :
    has_failed st -> main_step net assets (InModels st) (Aborted (abort (shared st)))
| images_step st st' :
    batch_step net (imageAssets assets) st st' ->
    main_step net assets (InImages st) (InImages st')
| images_resolved st :
    resolved st -> main_step net assets (InImages st) (Finished (finish (shared st)))
| images_rejected st :
    has_failed st -> main_step net assets (InImages st) (Aborted (abort (shared st))).

Definition main (net : network) (assets : list (option Asset)) (v0 : viewer)
  : main_state :=
  InModels (runWithConcurrency (modelAssets assets) (handleAsset net) MODEL_CONCURRENCY (loading assets v0)).

Definition viewer_of (m : main_state) : viewer :=
  match m with
  | InModels st | InImages st => shared st
  | Finished v | Aborted v => v
  end.

(** The reason with which the load of an asset fails, if it fails. *)
Definition reason (message : option string) : string :=
  default "load_error" (truthy message).

Definition load_failure (net : network) (asset : Asset) : option string :=
  if is_type "model" asset then
    match truthy (mapped_file asset) with
    | None => Some "missing mapped_file"
    | Some fileName =>
        match model_outcome (gltfLoader net fileName) with
        | Resolves _ => None
        | Rejects message => Some (reason message)
        end
    end
  else if is_type "image" asset then
    match truthy (mapped_file asset) with
    | None => Some "missing mapped_file"
    | Some fileName =>
        match texture_outcome (textureLoader net fileName) with
        | Resolves _ => None
        | Rejects message => Some (reason message)
        end
    end
  else Some (unsupported_message asset).

(** The placeholder that [addFallbackPlane asset reason] adds, for a
    truthy [reason]. *)
Definition fallback_node (asset : option Asset) (why : string) : node :=
  mkNode FallbackPlane (Transform.applyTransform (asset ≫= transform)) asset (Some why).

(** The child of [world] that handling a model or image asset ends with. *)
Definition placed_node (net : network) (asset : Asset) : node :=
  if is_type "model" asset then
    match truthy (mapped_file asset) with
    | None => fallback_node (Some asset) "missing mapped_file"
    | Some fileName =>
        match model_outcome (gltfLoader net fileName) with
        | Resolves modelEntry =>
            mkNode (ModelInstance fileName (animations modelEntry))
                   (Transform.applyTransform (transform asset)) (Some asset) None
        | Rejects message => fallback_node (Some asset) (reason message)
        end
    end
  else if is_type "image" asset then
    match truthy (mapped_file asset) with
    | None => fallback_node (Some asset) "missing mapped_file"
    | Some fileName =>
        match texture_outcome (textureLoader net fileName) with
        | Resolves _ =>
            mkNode (ImageLayer fileName)
                   (Transform.applyTransform (transform asset)) (Some asset) None
        | Rejects message => fallback_node (Some asset) (reason message)
        end
    end
  else fallback_node (Some asset) (unsupported_message asset).

(** The child of [world] that an entry of the inventory ends with, and the
    reason of its failure, if it fails. *)
Definition final_node (net : network) (a : option Asset) : node :=
  match a with
  | Some asset =>
      if is_other a then fallback_node a "unsupported type" else placed_node net asset
  | None => fallback_node None "unsupported type"
  end.
Definition failure (net : network) (a : option Asset) : option string :=
  match a with
  | Some asset => if is_other a then Some "unsupported type" else load_failure net asset
  | None => Some "unsupported type"
  end.

(** The child of [world] that a suspended call has still to add, and
    whether it has added one that the counters do not count yet. *)
Definition pend (k : suspended) : list node :=
  match k with
  | InImageLoad asset fileName p =>
      match settles p with
      | Resolves _ =>
          [mkNode (ImageLayer fileName)
                  (Transform.applyTransform (transform asset)) (Some asset) None]
      | Rejects message => [fallback_node (Some asset) (reason message)]
      end
  | InModelLoad asset fileName p =>
      match settles p with
      | Resolves modelEntry =>
          [mkNode (ModelInstance fileName (animations modelEntry))
                  (Transform.applyTransform (transform asset)) (Some asset) None]
      | Rejects message => [fallback_node (Some asset) (reason message)]
      end
  | InAddAsset asset (Some message) | InHandleAsset asset (Some message) =>
      [fallback_node (Some asset) (reason message)]
  | _ => []
  end.
Definition early (k : suspended) : nat :=
  match k with
  | InAddAsset _ None | InHandleAsset _ None => 1
  | _ => 0
  end.

(** 1 for a placeholder, 0 for a loaded asset. *)
Definition placeholder (n : node) : nat :=
  match n_content n with FallbackPlane => 1 | _ => 0 end.

(** The cached promises are those of the files they are cached for, and
    each loader was called once for each file it was called for. *)
Definition cache_sound (net : network) (c : caches) : Prop :=
  (forall f p, texturePromiseCache c !! f = Some p ->
     settles p = texture_outcome (textureLoader net f)) /\
  (forall f p, modelTemplateCache c !! f = Some p ->
     settles p = model_outcome (gltfLoader net f)) /\
  (forall f, f ∈ textureLoads c -> is_Some (texturePromiseCache c !! f)) /\
  (forall f, f ∈ modelLoads c -> is_Some (modelTemplateCache c !! f)) /\
  NoDup (textureLoads c) /\ NoDup (modelLoads c).

(** What holds whenever a batch over [items] is suspended, [base] being
    the children of [world] from before the batch. *)
Definition batch_inv (net : network) (n : nat) (base : list node) (items : list Asset)
  (v : viewer) (i : nat) (ks : list suspended) : Prop :=
  cache_sound net (cache v) /\
  total (totals v) = n /\
  ok (totals v) + fallback (totals v) = loaded (totals v) /\
  length (world v) = loaded (totals v) + sum_list_with early ks /\
  fallback (totals v) = sum_list_with placeholder (world v) /\
  world v ++ (ks ≫= pend) ≡ₚ base ++ (placed_node net <$> take i items).

Definition other_nodes (assets : list (option Asset)) : list node :=
  (fun other => fallback_node other "unsupported type") <$> otherAssets assets.

(** What holds of [main] after the inventory was fetched. *)
Definition main_inv (net : network) (assets : list (option Asset)) (m : main_state) : Prop :=
  match m with
  | InModels st =>
      exists r,
        rtc (batch_step net (modelAssets assets))
            (runWithConcurrency (modelAssets assets) (handleAsset net) MODEL_CONCURRENCY
                                (loading assets (fresh r))) st
  | InImages st =>
      exists v1,
        batch_inv net (length assets)
          (other_nodes assets ++ (placed_node net <$> modelAssets assets))
          (imageAssets assets) v1 0 [] /\
        rtc (batch_step net (imageAssets assets))
            (runWithConcurrency (imageAssets assets) (handleAsset net) IMAGE_CONCURRENCY v1) st
  | Finished v =>
      exists v2,
        v = finish v2 /\
        batch_inv net (length assets)
          (other_nodes assets ++ (placed_node net <$> modelAssets assets))
          (imageAssets assets) v2 (length (imageAssets assets)) []
  | Aborted _ => False
  end.

(** Every entry of the first caches is an entry of the second. *)
Definition caches_grow (c c' : caches) : Prop :=
  texturePromiseCache c ⊆ texturePromiseCache c' /\
  modelTemplateCache c ⊆ modelTemplateCache c'.

(** A sequence of calls of the two loaders. *)
Definition do_loads (net : network) (ls : list load) (c : caches) : caches :=
  fold_left (fun c l => do_load net l c) ls c.

(** A network on which every load fails. *)
Definition offline : network :=
  mkNetwork (fun _ => TextureError ErrFalsy) (fun _ => GltfError ErrFalsy).

(** The entries of the inventory that fail. *)
Definition failures (net : network) (assets : list (option Asset)) : nat :=
  sum_list_with (fun a => match failure net a with Some _ => 1 | None => 0 end) assets.

(** An inventory of a model whose file does not load, an image that loads
    and a [null] entry, and the schedules of its two batches. *)
Definition demo_net : network :=
  mkNetwork (fun _ => TextureLoaded) (fun _ => GltfError (ErrObject (Some "404"))).
Definition demo_assets : list (option Asset) :=
  [Some (mkAsset (Some "model") (Some "a.glb") None);
   Some (mkAsset (Some "image") (Some "b.png") None);
   None].
Definition demo_models_end : state viewer suspended :=
  run (modelAssets demo_assets) (handleAsset demo_net) handleAsset_resume [0; 0; 0; 0]
      (runWithConcurrency (modelAssets demo_assets) (handleAsset demo_net) MODEL_CONCURRENCY
            (loading demo_assets (fresh RenderLoop.started))).
Definition demo_images_end : state viewer suspended :=
  run (imageAssets demo_assets) (handleAsset demo_net) handleAsset_resume [0; 0; 0; 0]
      (runWithConcurrency (imageAssets demo_assets) (handleAsset demo_net) IMAGE_CONCURRENCY
            (shared demo_models_end)).

End Inventory.

(** ** The sculpture viewer (src/sculptures/main.js) *)

Module Sculpture.

(** An entry of [sculpture.layers], an object.  [id] and [role] are [None]
    when the layer has none; [position], [rotation] and [scale] are objects
    with x, y and z, or missing. *)
Record Layer := mkLayer {
  id : option string;
  role : option string;
  position : option Transform.xyz;
  rotation : option Transform.xyz;
  scale : option Transform.xyz
}.

(** [layer.role === "sample"] *)
Definition is_sample (layer : Layer) : bool :=
  match role layer with
  | Some s => String.eqb s "sample"
  | None => false
  end.

(** A mesh of the group: its material, whether it is the mirrored back
    plane, and the layer whose position, rotation and scale it has. *)
Record Mesh := mkMesh { material : nat; mirrored : bool; of_layer : Layer }.

(** The local state of [main] that the planes are built in.  A callback
    [onTextureReady] is known by the index in [group] of the front plane
    whose size it sets. *)
Record scene := mkScene {
  group : list Mesh;
  matCache : gmap (option string) nat;
  textureReadyCallbacks : gmap (option string) (list nat);
  pendingTextures : nat;
  textureWarningShown : bool;
  materials : nat;                    (* materials created so far *)
  loads : list (option string);       (* calls of [loader.load] *)
  called_at_once : list nat;          (* callbacks that [getMaterial] called itself *)
  sized : list nat;                   (* callbacks called when a texture arrived *)
  renderRequested : bool
}.

Definition empty_scene : scene := mkScene [] ∅ ∅ 0 false 0 [] [] [] false.

(** src/sculptures/main.js, 359-422 *)
Definition getMaterial (key : option string) (onTextureReady : option nat) (st : scene)
  : nat * scene :=
  match matCache st !! key with
  | Some cached =>
      match onTextureReady with
      | Some callback =>
          match textureReadyCallbacks st !! key with
          | Some callbacks =>
              (cached,
               mkScene (group st) (matCache st)
                       (<[key := callbacks ++ [callback]]> (textureReadyCallbacks st))
                       (pendingTextures st) (textureWarningShown st) (materials st)
                       (loads st) (called_at_once st) (sized st) (renderRequested st))
          | None =>
              (cached,
               mkScene (group st) (matCache st) (textureReadyCallbacks st)
                       (pendingTextures st) (textureWarningShown st) (materials st)
                       (loads st) (called_at_once st ++ [callback]) (sized st)
                       (renderRequested st))
          end
      | None => (cached, st)
      end
  | None =>
      let readyCallbacks := match onTextureReady with Some c => [c] | None => [] end in
      let mat := materials st in
      (mat,
       mkScene (group st) (<[key := mat]> (matCache st))
               (<[key := readyCallbacks]> (textureReadyCallbacks st))
               (S (pendingTextures st)) (textureWarningShown st) (S (materials st))
               (loads st ++ [key]) (called_at_once st) (sized st) (renderRequested st))
  end.

(** The [onLoad] callback that [getMaterial] gave to [loader.load]. *)
Definition texture_loaded (key : option string) (st : scene) : scene :=
  mkScene (group st) (matCache st) (delete key (textureReadyCallbacks st))
          (Nat.max 0 (pendingTextures st - 1)) (textureWarningShown st) (materials st)
          (loads st) (called_at_once st)
          (sized st ++ default [] (textureReadyCallbacks st !! key)) true.

(** The [onError] callback that [getMaterial] gave to [loader.load]. *)
Definition texture_failed (key : option string) (st : scene) : scene :=
  mkScene (group st) (matCache st) (delete key (textureReadyCallbacks st))
          (Nat.max 0 (pendingTextures st - 1)) true (materials st)
          (loads st) (called_at_once st) (sized st) true.

(** src/sculptures/main.js, 424-461 *)
Definition makePlane (layer : Layer) (st : scene) : scene :=
  if is_sample layer then st
  else
    let '(mat, st) := getMaterial (id layer) (Some (length (group st))) st in
    let front := mkMesh mat false layer in
    let back := mkMesh mat true layer in
    mkScene (group st ++ [front; back]) (matCache st) (textureReadyCallbacks st)
            (pendingTextures st) (textureWarningShown st) (materials st)
            (loads st) (called_at_once st) (sized st) (renderRequested st).

(** [for (const layer of layers) makePlane(layer)] *)
Definition makePlanes (layers : list Layer) (st : scene) : scene :=
  fold_left (fun st layer => makePlane layer st) layers st.

(** What happens to the material cache. *)
Inductive event :=
| GetMaterial (key : option string) (onTextureReady : option nat)
| MakePlane (layer : Layer)
| TextureLoaded (key : option string)
| TextureFailed (key : option string).

Definition apply (e : event) (st : scene) : scene :=
  match e with
  | GetMaterial key callback => (getMaterial key callback st).2
  | MakePlane layer => makePlane layer st
  | TextureLoaded key => texture_loaded key st
  | TextureFailed key => texture_failed key st
  end.

Definition run (events : list event) (st : scene) : scene :=
  fold_left (fun st e => apply e st) events st.

(** The elements of the page that the summary needs. *)
Record page := mkPage {
  has_summary : bool;            (* [#summary] *)
  has_card_template : bool;      (* [#layer-card-template] *)
  has_stat_layers : bool         (* [#stat-layers] *)
}.

Record card := mkCard { card_layer_id : string; thumb_src : string }.

(** [String(layer.id)], the empty string for a layer without id. *)
Definition id_text (layer : Layer) : string := default EmptyString (id layer).

(** src/sculptures/main.js, 151-173 *)
Definition addCard (p : page) (layerId imgUrl : string) : option card :=
  if has_card_template p then Some (mkCard layerId imgUrl) else None.

(** src/sculptures/main.js, 175-189: the children of [#summary]; [None]
    when the page has no such element. *)
Definition renderSummary (p : page) (layers : list Layer) (baseUrl : string)
  : option (list card) :=
  if has_summary p then
    Some (omap (fun layer => addCard p (id_text layer) (baseUrl +:+ id_text layer +:+ ".png"))
               layers)
  else None.

(** src/sculptures/main.js, 87-102: the number shown in [#stat-layers]. *)
Definition updateStats (p : page) (layers : list Layer) : option nat :=
  if has_stat_layers p then Some (length layers) else None.

(** src/sculptures/main.js, 237-258.  [size] and [center] are the vectors
    that [box.getSize] and [box.getCenter] wrote; [fov] is [camera.fov]. *)
Definition fitCameraToObject (fov : R) (size center : Transform.Vector3) (offset : R)
  : Camera.Fit :=
  let maxDim := Camera.maxDim size in
  let fov := (fov * (PI / 180))%R in
  let cameraZ := Rabs ((maxDim / 2) / tan (fov / 2)) in
  let cameraZ := (cameraZ * offset)%R in
  Camera.mkFit cameraZ
    (Transform.mkVector3 (Transform.vx center) (Transform.vy center)
                         (Transform.vz center + cameraZ)%R)
    (maxDim / 100)%R (maxDim * 100)%R None center.

End Sculpture.

(** ** Counting what the render loop is asked for *)

Module RenderDemand.
Import RenderLoop.

(** An event that asks for a frame: a request, or a frame on which the
    canvas was resized. *)
Definition demand (e : event) : nat :=
  match e with
  | RequestRender => 1
  | AnimationFrame true => 1
  | _ => 0
  end.

(** A model that is registered with at least one clip. *)
Definition animated (e : event) : nat :=
  match e with
  | RegisterModelAnimations (S _) => 1
  | _ => 0
  end.

(** The frame that [frameRequested] stands for. *)
Definition owed (st : state) : nat := if frameRequested st then 1 else 0.

End RenderDemand.

(** ** Which files the inventory viewer asks for *)

Module Requests.
Import Inventory.

(** The file names of the assets that have one. *)
Definition files (items : list Asset) : list string :=
  omap (fun asset => truthy (mapped_file asset)) items.

(** Every cached file was asked for. *)
Definition loads_track (c : caches) : Prop :=
  (forall f, is_Some (texturePromiseCache c !! f) -> f ∈ textureLoads c) /\
  (forall f, is_Some (modelTemplateCache c !! f) -> f ∈ modelLoads c).

(** What holds of the caches in the batch of the models, [i] items of which
    were claimed, and in the batch of the images. *)
Definition in_models (assets : list (option Asset)) (v : viewer) (i : nat) : Prop :=
  loads_track (cache v) /\
  textureLoads (cache v) = [] /\
  (forall f, f ∈ modelLoads (cache v) <-> f ∈ files (take i (modelAssets assets))).

Definition in_images (assets : list (option Asset)) (v : viewer) (i : nat) : Prop :=
  loads_track (cache v) /\
  (forall f, f ∈ modelLoads (cache v) <-> f ∈ files (modelAssets assets)) /\
  (forall f, f ∈ textureLoads (cache v) <-> f ∈ files (take i (imageAssets assets))).

Definition requests_inv (net : network) (assets : list (option Asset)) (m : main_state)
  : Prop :=
  main_inv net assets m /\
  match m with
  | InModels st => in_models assets (Runner.shared st) (Runner.index st)
  | InImages st => in_images assets (Runner.shared st) (Runner.index st)
  | Finished v => in_images assets v (length (imageAssets assets))
  | Aborted _ => False
  end.

End Requests.

(** ** What the inventory viewer shows while it loads *)

Module Progress.
Import Inventory.

(** The status line agrees with the counters it was written from. *)
Definition status_ok (n : nat) (v : viewer) : Prop :=
  match status v with
  | Cargando_assets l t None => l = 0 /\ t = n
  | Cargando_assets l t (Some (o, f)) =>
      o + f = l /\ l <= loaded (totals v) /\ t = n /\
      (l mod STATUS_UPDATE_EVERY = 0 \/ l = t)
  | _ => False
  end.

Definition counted (n : nat) (v : viewer) : Prop :=
  total (totals v) = n /\
  ok (totals v) + fallback (totals v) = loaded (totals v) /\
  status_ok n v.

(** 1 for the instance of a model that has animation clips. *)
Definition animated_node (n : node) : nat :=
  match n_content n with
  | ModelInstance _ clips => if Nat.eqb clips 0 then 0 else 1
  | _ => 0
  end.

Definition mixers_match (v : viewer) : Prop :=
  RenderLoop.mixers (render v) = sum_list_with animated_node (world v) /\
  RenderLoop.hasAnimatedModels (render v) = negb (Nat.eqb (RenderLoop.mixers (render v)) 0).

(** An inventory of a model with two animation clips. *)
Definition walking_net : network :=
  mkNetwork (fun _ => TextureLoaded) (fun _ => GltfLoaded true 2).
Definition walking_assets : list (option Asset) :=
  [Some (mkAsset (Some "model") (Some "walk.glb") None)].
Definition walking_end : Runner.state viewer suspended :=
  Runner.run (modelAssets walking_assets) (handleAsset walking_net) handleAsset_resume
    [0; 0; 0; 0]
    (Runner.runWithConcurrency (modelAssets walking_assets) (handleAsset walking_net)
       MODEL_CONCURRENCY (loading walking_assets (fresh RenderLoop.started))).

End Progress.

(** ** The stage of the inventory viewer: unit scale, ground and shadows
       (src/main.js, 370-383, 441-450, 675-690) *)

Module Stage.
Import Js Transform Camera.
#[local] Open Scope R_scope.





(** src/main.js, 370-383.  [root] lists the nodes of the model in the
    order of [root.traverse], [true] for a mesh; the result tells for each
    node whether [castShadow] was written and to what, and what is left of
    [shadowCasterBudget]. *)
Fixpoint configureModelWith (cfg : config) (root : list bool) (shadowCasterBudget : nat)
  : list (option bool) * nat :=
  match root with
  | [] => ([], shadowCasterBudget)
  | false :: nodes =>
      let '(flags, remaining) := configureModelWith cfg nodes shadowCasterBudget in
      (None :: flags, remaining)
  | true :: nodes =>
      if enableShadows cfg then
        let cast := Nat.ltb 0 shadowCasterBudget in
        let budget := if cast then (shadowCasterBudget - 1)%nat else shadowCasterBudget in
        let '(flags, remaining) := configureModelWith cfg nodes budget in
        (Some cast :: flags, remaining)
      else
        let '(flags, remaining) := configureModelWith cfg nodes shadowCasterBudget in
        (None :: flags, remaining)
  end.

Definition configureModelForScene : list bool -> nat -> list (option bool) * nat :=
  configureModelWith VIEWER_CONFIG.

(** The models of a scene, configured one after the other. *)
Fixpoint configureModels (models : list (list bool)) (shadowCasterBudget : nat)
  : list (list (option bool)) * nat :=
  match models with
  | [] => ([], shadowCasterBudget)
  | root :: rest =>
      let '(flags, budget) := configureModelForScene root shadowCasterBudget in
      let '(others, remaining) := configureModels rest budget in
      (flags :: others, remaining)
  end.

(** The meshes of a model, and those that cast a shadow. *)
Definition meshes (root : list bool) : nat := length (List.filter (fun m => m) root).
Definition casters (flags : list (option bool)) : nat :=
  length (List.filter (fun f => match f with Some true => true | _ => false end) flags).

End Stage.

(** ** The size of an image plane
       (src/main.js, 222-234; src/sculptures/main.js, 328-339) *)

Module PlaneSize.
Import Js.
#[local] Open Scope R_scope.

(** The source of a texture: an image, a video, a canvas or a bitmap.  Each
    of its properties is a number, or [None] when the source has no such
    property ([undefined]). *)
Record source := mkSource {
  naturalWidth : option num;
  videoWidth : option num;
  width : option num;
  naturalHeight : option num;
  videoHeight : option num;
  height : option num
}.

(** A texture with its [image], which may be missing. *)
Record texture := mkTexture { image : option source }.

(** Whether a number is truthy: not 0 and not [NaN]. *)
Definition truthy_num (n : num) : bool :=
  match n with
  | Fin r => if Req_dec_T r 0 then false else true
  | NaN => false
  | PosInf | NegInf => true
  end.
Definition truthy (p : option num) : bool :=
  match p with Some n => truthy_num n | None => false end.

(** [a || b] and [a ?? b] *)
Definition or_else (a b : option num) : option num := if truthy a then a else b.
Definition coalesce (a b : option num) : option num :=
  match a with Some _ => a | None => b end.

Definition to_value (p : option num) : value :=
  match p with Some n => Num n | None => Undefined end.

Definition FALLBACK_SIZE : R * R := (1, 1).

(** The width and the height that the inventory viewer reads. *)
Definition read_width (t : option texture) : R :=
  let img := t ≫= image in
  asNumber (match img with
            | Some img => to_value (or_else (or_else (naturalWidth img) (videoWidth img)) (width img))
            | None => Null
            end) 0.
Definition read_height (t : option texture) : R :=
  let img := t ≫= image in
  asNumber (match img with
            | Some img =>
                to_value (or_else (or_else (naturalHeight img) (videoHeight img)) (height img))
            | None => Null
            end) 0.

(** src/main.js, 222-234 *)
Definition getPlaneSizeFromTexture (t : option texture) : R * R :=
  let width := read_width t in
  let height := read_height t in
  if Rle_dec width 0 then FALLBACK_SIZE
  else if Rle_dec height 0 then FALLBACK_SIZE
  else
    let maxDimension := Rmax width height in
    (width / maxDimension, height / maxDimension).

(** The width and the height that the sculpture viewer reads. *)
Definition sculpture_width (t : option texture) : num :=
  let image := t ≫= image in
  Number (to_value
    (coalesce (coalesce (coalesce (image ≫= naturalWidth) (image ≫= videoWidth))
                        (image ≫= width))
              (Some (Fin 0)))).
Definition sculpture_height (t : option texture) : num :=
  let image := t ≫= image in
  Number (to_value
    (coalesce (coalesce (coalesce (image ≫= naturalHeight) (image ≫= videoHeight))
                        (image ≫= height))
              (Some (Fin 0)))).

(** src/sculptures/main.js, 328-339 *)
Definition sculpture_getPlaneSizeFromTexture (t : option texture) : R * R :=
  match sculpture_width t, sculpture_height t with
  | Fin width, Fin height =>
      if Rle_dec width 0 then FALLBACK_SIZE
      else if Rle_dec height 0 then FALLBACK_SIZE
      else
        let maxDimension := Rmax width height in
        (width / maxDimension, height / maxDimension)
  | _, _ => FALLBACK_SIZE
  end.

(** Of three properties, the first one that is present is 0 or [NaN] while a
    later one is truthy: what [||] skips and [??] takes. *)
Definition masked (a b c : option num) : bool :=
  match a, b, c with
  | Some _, _, _ => negb (truthy a) && (truthy b || truthy c)
  | None, Some _, _ => negb (truthy b) && truthy c
  | None, None, _ => false
  end.

(** An image element that has not loaded, with the size of its attributes. *)
Definition unloaded : texture :=
  mkTexture (Some (mkSource (Some (Fin 0)) None (Some (Fin 300))
                            (Some (Fin 0)) None (Some (Fin 150)))).

End PlaneSize.

(** ** The planes of the sculpture viewer and their textures *)

Module Layers.
Import Sculpture.

(** src/sculptures/main.js, 351-357: the number that the loading indicator
    shows, [None] when it is hidden. *)
Definition updateTextureLoading (st : scene) : option nat :=
  if Nat.ltb 0 (pendingTextures st) then Some (pendingTextures st) else None.

(** The mesh at index [i] of the group is the front plane of a layer with
    the id [key]. *)
Definition front_of (key : option string) (st : scene) (i : nat) : Prop :=
  exists m, group st !! i = Some m /\ mirrored m = false /\ id (of_layer m) = key.

(** The callback [i] waits for the texture of [key]. *)
Definition waits_for (key : option string) (st : scene) (i : nat) : Prop :=
  exists callbacks, textureReadyCallbacks st !! key = Some callbacks /\ i ∈ callbacks.

(** A texture arrives or fails only while it is loading: [loader.load]
    calls one of its two callbacks, once. *)
Fixpoint settles_in_flight (events : list event) (st : scene) : bool :=
  match events with
  | [] => true
  | e :: events =>
      match e with
      | TextureLoaded key | TextureFailed key =>
          match textureReadyCallbacks st !! key with Some _ => true | None => false end
      | _ => true
      end && settles_in_flight events (apply e st)
  end.

(** What holds while [main] makes the planes, before any texture has
    arrived. *)
Definition building (st : scene) : Prop :=
  called_at_once st = [] /\
  sized st = [] /\
  (forall key, is_Some (matCache st !! key) <-> is_Some (textureReadyCallbacks st !! key)) /\
  (forall key i, waits_for key st i <-> front_of key st i) /\
  pendingTextures st = length (loads st) /\
  materials st = length (loads st) /\
  NoDup (loads st) /\
  (forall key, key ∈ loads st <-> is_Some (matCache st !! key)) /\
  (forall i m, group st !! i = Some m -> matCache st !! id (of_layer m) = Some (material m)) /\
  (forall key mat, matCache st !! key = Some mat -> mat < materials st) /\
  (forall k1 k2 mat, matCache st !! k1 = Some mat -> matCache st !! k2 = Some mat -> k1 = k2) /\
  (forall key, is_Some (matCache st !! key) -> exists i, front_of key st i).

(** What holds of the textures in flight at any time. *)
Definition in_flight (st : scene) : Prop :=
  pendingTextures st = size (textureReadyCallbacks st) /\
  (forall key, is_Some (textureReadyCallbacks st !! key) -> is_Some (matCache st !! key)).

End Layers.

(** ** The sculpture viewer: frames on demand
       (src/sculptures/main.js, 508-526) *)

Module Redraw.

Record state := mkState {
  renderRequested : bool;
  scheduled : nat;        (* callbacks given to [requestAnimationFrame], not yet run *)
  drawn : nat             (* calls of [renderer.render] *)
}.

(** [render()] *)
Definition render (st : state) : state :=
  mkState false (scheduled st) (S (drawn st)).

Definition requestRenderIfNotRequested (st : state) : state :=
  if renderRequested st then st
  else mkState true (S (scheduled st)) (drawn st).

(** A listener or a texture callback asks for a frame; the browser runs
    the callbacks that are scheduled for the next animation frame. *)
Inductive event :=
| Request
| AnimationFrame.

Fixpoint frames (n : nat) (st : state) : state :=
  match n with
  | 0 => st
  | S n => frames n (render st)
  end.

Definition apply (e : event) (st : state) : state :=
  match e with
  | Request => requestRenderIfNotRequested st
  | AnimationFrame =>
      frames (scheduled st) (mkState (renderRequested st) 0 (drawn st))
  end.

Definition run (events : list event) (st : state) : state :=
  fold_left (fun st e => apply e st) events st.

(** [let renderRequested = false] and, at the end of [main], [render()]. *)
Definition started : state := render (mkState false 0 0).

Definition requests (e : event) : nat :=
  match e with Request => 1 | AnimationFrame => 0 end.

End Redraw.

(** ** The sculpture viewer: texts and theme
       (src/sculptures/main.js, 13-17, 54-85, 565-573) *)

Module Page.

(** [value.slice(0, end)] *)
Definition slice0 (value : string) (e : Z) : string :=
  let len := Z.of_nat (String.length value) in
  let e := if (e <? 0)%Z then Z.max (len + e) 0 else Z.min e len in
  String.substring 0 (Z.to_nat e) value.

(** src/sculptures/main.js, 13-17; [None] is [undefined] or [null]. *)
Definition shortenText (value : option string) (max : Z) : string :=
  match value with
  | None => "n/a"
  | Some s =>
      if String.eqb s EmptyString then "n/a"
      else if (Z.of_nat (String.length s) <=? max)%Z then s
      else slice0 s (max - 1) +:+ "..."
  end.

(** [localStorage]: it holds an item under [THEME_STORAGE_KEY] or not, and
    it may be blocked, when every access throws. *)
Record storage := mkStorage { blocked : bool; item : option string }.

(** src/sculptures/main.js, 54-60 *)
Definition readTheme (s : storage) : string :=
  if blocked s then "light"
  else match item s with
       | Some theme => if String.eqb theme "dark" then "dark" else "light"
       | None => "light"
       end.

(** src/sculptures/main.js, 62-68 *)
Definition writeTheme (theme : string) (s : storage) : storage :=
  if blocked s then s else mkStorage false (Some theme).

(** What [applyTheme] writes: the attribute [data-theme] of the document,
    the storage, the button [#theme-toggle] if the page has one, and the
    background of the scene, if one is given. *)
Record button := mkButton { textContent : string; aria_pressed : string; title : string }.
Record page := mkPage {
  data_theme : option string;
  local_storage : storage;
  theme_toggle : option button;
  background : option Z
}.

(** src/sculptures/main.js, 70-85 *)
Definition applyTheme (theme : string) (scene : bool) (p : page) : page :=
  let resolved := if String.eqb theme "dark" then "dark" else "light" in
  let dark := String.eqb resolved "dark" in
  mkPage (Some resolved)
         (writeTheme resolved (local_storage p))
         (match theme_toggle p with
          | Some _ =>
              Some (mkButton (if dark then "Light" else "Dark")
                             (if dark then "true" else "false")
                             (if dark then "Switch to light mode" else "Switch to dark mode"))
          | None => None
          end)
         (if scene then Some (if dark then 1055276%Z else 16777215%Z) else background p).

(** src/sculptures/main.js, 565-573: a click on [#theme-toggle]. *)
Definition toggle (p : page) : page :=
  let current :=
    match data_theme p with
    | Some theme => if String.eqb theme "dark" then "dark" else "light"
    | None => "light"
    end in
  let next := if String.eqb current "dark" then "light" else "dark" in
  applyTheme next true p.

(** [applyTheme(readTheme(), scene)] at the start of [main]. *)
Definition start (p : page) : page := applyTheme (readTheme (local_storage p)) true p.

End Page.

(** ** The sculpture viewer: the search over the layer list
       (src/sculptures/main.js, 104-149) *)

Module Filter.

(** The string functions that the filter calls, on strings of ASCII
    characters: [toLowerCase], [trim] and [includes]. *)
Definition lower (c : Ascii.ascii) : Ascii.ascii :=
  let n := Ascii.nat_of_ascii c in
  if Nat.leb 65 n && Nat.leb n 90 then Ascii.ascii_of_nat (n + 32) else c.
Fixpoint toLowerCase (s : string) : string :=
  match s with
  | EmptyString => EmptyString
  | String c s => String (lower c) (toLowerCase s)
  end.

Definition is_space (c : Ascii.ascii) : bool :=
  let n := Ascii.nat_of_ascii c in
  Nat.eqb n 32 || (Nat.leb 9 n && Nat.leb n 13).
Fixpoint trimStart (s : string) : string :=
  match s with
  | EmptyString => EmptyString
  | String c s' => if is_space c then trimStart s' else s
  end.
Definition trim (s : string) : string :=
  String.rev (trimStart (String.rev (trimStart s))).

Fixpoint includes (s q : string) : bool :=
  String.prefix q s ||
  match s with
  | EmptyString => false
  | String _ s' => includes s' q
  end.

(** What [applyLayerFilter] leaves on the page: for each item of the list
    whether it is shown, the two numbers of the badge (src/sculptures/main.js,
    104-108), and the text of [#summary-empty] when it is shown. *)
Record view := mkView {
  shown : list bool;
  visible : nat;
  total : nat;
  empty_message : option string
}.

(** [item.dataset.layerId || ""] *)
Definition layerId (item : option string) : string := default EmptyString item.

(** src/sculptures/main.js, 117-149.  [elements] tells whether the page has
    [#summary], [#layer-search] and [#summary-empty]; [items] are the
    [data-layer-id] attributes of the elements of class [layer-item];
    [None] is the early return. *)
Definition applyLayerFilter (elements : bool) (items : list (option string)) (value : string)
  : option view :=
  if negb elements then None
  else
    let query := toLowerCase (trim value) in
    let matches := (fun item => includes (toLowerCase (layerId item)) query) <$> items in
    let visibleCount := length (List.filter (fun m => m) matches) in
    Some (mkView matches visibleCount (length items)
            (if Nat.eqb (length items) 0 then Some "No layers available."
             else if Nat.eqb visibleCount 0 then Some "No layers match your search."
             else None)).

End Filter.

(** ** The geometries of the image planes (src/main.js, 61, 257-265) *)

Module ImageGeometry.
Import Js PlaneSize.
#[local] Open Scope R_scope.

(** [x.toFixed(5)] for [x >= 0]: the integer [n] for which [n / 10^5] is
    nearest to [x], the larger one of two; the string has its digits. *)
Definition toFixed5 (x : R) : Z := Int_part (x * 100000 + 1 / 2).

Record geometry := mkGeometry { g_width : R; g_height : R }.

(** [imageGeometryCache], by the two numbers of its keys. *)
Abbreviation cache := (gmap (Z * Z) geometry).

(** src/main.js, 257-265 *)
Definition getImageGeometry (t : option texture) (c : cache) : geometry * cache :=
  let size := getPlaneSizeFromTexture t in
  let key := (toFixed5 size.1, toFixed5 size.2) in
  match c !! key with
  | Some geo => (geo, c)
  | None =>
      let geo := mkGeometry size.1 size.2 in
      (geo, <[key := geo]> c)
  end.

(** The cache after the geometries of some textures were asked for. *)
Definition geometries (ts : list (option texture)) (c : cache) : cache :=
  fold_left (fun c t => (getImageGeometry t c).2) ts c.

(** The keys are those of the geometries that they are cached for, which
    have positive sides. *)
Definition keyed (c : cache) : Prop :=
  forall key geo, c !! key = Some geo ->
    key = (toFixed5 (g_width geo), toFixed5 (g_height geo)) /\
    0 < g_width geo /\ 0 < g_height geo.

End ImageGeometry.

(** * Properties *)

(** ** runWithConcurrency *)

Section RunnerFacts.
Import Runner.
Context {A Sh K : Type}.
Variable items : list A.
Variable wstart : A -> Sh -> Sh * wres K.
Variable wresume : K -> Sh -> Sh * wres K.

Abbreviation runner := (runner items wstart).
Abbreviation spawn := (spawn items wstart).
Abbreviation runWithConcurrency := (runWithConcurrency items wstart).
Abbreviation step := (step items wstart wresume).
Abbreviation Step := (Step items wstart wresume).

Lemma runner_claim id st x :
  items !! index st = Some x ->
  runner id st =
    (mkState (wstart x (shared st)).1 (S (index st)) (runners st)
             (claims st ++ [(id, index st)]),
     Awaiting (settle (wstart x (shared st)).2)).
Proof.
  intros Hx. unfold Runner.runner. rewrite Hx.
  destruct (wstart x (shared st)); reflexivity.
Qed.

Lemma runner_exit id st :
  items !! index st = None -> runner id st = (st, Done).
Proof. intros Hx. unfold Runner.runner. rewrite Hx. reflexivity. Qed.

Lemma runner_runners id st : runners (runner id st).1 = runners st.
Proof.
  destruct (items !! index st) eqn:Hx.
  - rewrite (runner_claim _ _ _ Hx). reflexivity.
  - rewrite (runner_exit _ _ Hx). reflexivity.
Qed.

Lemma spawn_runners st :
  runners (spawn st) = runners st ++ [(runner (length (runners st)) st).2].
Proof.
  unfold Runner.spawn.
  pose proof (runner_runners (length (runners st)) st) as Hr.
  destruct (runner (length (runners st)) st) as [st' r]. simpl in *.
  rewrite Hr. reflexivity.
Qed.

Lemma step_length id st st' :
  step id st = Some st' -> length (runners st') = length (runners st).
Proof.
  unfold Runner.step. intros H.
  destruct (runners st !! id) as [[[k| |]| |]|] eqn:Hr; try discriminate.
  - destruct (wresume k (shared st)). inversion H; subst; simpl.
    apply length_insert.
  - pose proof (runner_runners id st) as Hl.
    destruct (runner id st) as [st1 r]. inversion H; subst; simpl in *.
    rewrite length_insert, Hl. reflexivity.
  - inversion H; subst; simpl. apply length_insert.
Qed.

Lemma init_length concurrency s0 :
  length (runners (runWithConcurrency concurrency s0)) =
  Z.to_nat (safeConcurrency concurrency (length items)).
Proof.
  unfold Runner.runWithConcurrency.
  induction (Z.to_nat (safeConcurrency concurrency (length items))) as [|n IH];
    simpl; [reflexivity|].
  rewrite spawn_runners, length_app, IH. simpl. lia.
Qed.

Lemma reachable_length concurrency s0 st :
  rtc Step (runWithConcurrency concurrency s0) st ->
  length (runners st) = Z.to_nat (safeConcurrency concurrency (length items)).
Proof.
  intros H. rewrite <- (init_length concurrency s0).
  induction H as [|x y z [id Hs] _ IH]; [reflexivity|].
  rewrite IH. eapply step_length; eauto.
Qed.

(** *** The counter and the claims *)

Lemma runner_consistent id st :
  index st <= length items ->
  (claims st).*2 = seq 0 (index st) ->
  index st <= index (runner id st).1 <= length items /\
  (claims (runner id st).1).*2 = seq 0 (index (runner id st).1) /\
  ((runner id st).2 = Done -> length items <= index (runner id st).1) /\
  (forall c, c ∈ claims (runner id st).1 -> c ∈ claims st \/ c.1 = id).
Proof.
  intros Hi Hc. destruct (items !! index st) as [x|] eqn:Hx.
  - rewrite (runner_claim _ _ _ Hx). cbn [fst snd index claims].
    apply lookup_lt_Some in Hx. repeat split; try lia.
    + rewrite fmap_app, Hc, seq_S. reflexivity.
    + discriminate.
    + intros c Hin. apply elem_of_app in Hin as [Hin|Hin]; [by left|].
      apply list_elem_of_singleton in Hin. subst c. by right.
  - rewrite (runner_exit _ _ Hx). simpl.
    apply lookup_ge_None in Hx. repeat split; auto; lia.
Qed.

Lemma spawn_consistent st : consistent items st -> consistent items (spawn st).
Proof.
  intros (Hi & Hc & Hd & Hr).
  pose proof (runner_consistent (length (runners st)) st Hi Hc)
    as (Hi' & Hc' & Hd' & Hr').
  pose proof (spawn_runners st) as Hrs.
  unfold Runner.spawn in *.
  destruct (runner (length (runners st)) st) as [st1 r]. simpl in *.
  repeat split; simpl; try lia; try assumption.
  - intros id Hid. rewrite Hrs in Hid.
    apply lookup_app_Some in Hid as [Hid|[_ Hid]].
    + specialize (Hd _ Hid). lia.
    + apply list_lookup_singleton_Some in Hid as [_ ->]. auto.
  - intros id i Hin. rewrite Hrs, length_app. simpl.
    destruct (Hr' _ Hin) as [Hold|Hnew].
    + specialize (Hr _ _ Hold). lia.
    + simpl in Hnew. lia.
Qed.

Lemma init_consistent concurrency s0 : consistent items (runWithConcurrency concurrency s0).
Proof.
  unfold Runner.runWithConcurrency.
  induction (Z.to_nat (safeConcurrency concurrency (length items))) as [|n IH]; simpl.
  - repeat split; simpl; try lia.
    + intros id Hid. by rewrite lookup_nil in Hid.
    + intros id i Hin. by apply not_elem_of_nil in Hin.
  - by apply spawn_consistent.
Qed.

Lemma step_consistent id st st' :
  step id st = Some st' -> consistent items st -> consistent items st'.
Proof.
  intros Hs (Hi & Hc & Hd & Hr).
  pose proof (step_length _ _ _ Hs) as Hlen.
  unfold Runner.step in Hs.
  destruct (runners st !! id) as [[[k| |]| |]|] eqn:Hid; try discriminate.
  - destruct (wresume k (shared st)) as [s' r]. inversion Hs; subst; clear Hs.
    simpl in *. repeat split; simpl; auto.
    + intros j Hj. apply list_lookup_insert_Some in Hj as [(_ & Hj & _)|[_ Hj]].
      * discriminate.
      * eauto.
    + intros j i Hin. rewrite length_insert. eauto.
  - pose proof (runner_consistent id st Hi Hc) as (Hi' & Hc' & Hd' & Hr').
    pose proof (runner_runners id st) as Hrs.
    destruct (runner id st) as [st1 r]. inversion Hs; subst; clear Hs.
    simpl in *. repeat split; simpl; try lia; try assumption.
    + intros j Hj. apply list_lookup_insert_Some in Hj as [(_ & Hj & _)|[_ Hj]].
      * auto.
      * rewrite Hrs in Hj. specialize (Hd _ Hj). lia.
    + intros j i Hin. rewrite length_insert, Hrs.
      destruct (Hr' _ Hin) as [Hold|Hnew]; [eauto|].
      simpl in Hnew. subst j. by apply lookup_lt_Some in Hid.
  - inversion Hs; subst; clear Hs. simpl in *. repeat split; simpl; auto.
    + intros j Hj. apply list_lookup_insert_Some in Hj as [(_ & Hj & _)|[_ Hj]].
      * discriminate.
      * eauto.
    + intros j i Hin. rewrite length_insert. eauto.
Qed.

Lemma reachable_consistent concurrency s0 st :
  rtc Step (runWithConcurrency concurrency s0) st -> consistent items st.
Proof.
  intros H. pose proof (init_consistent concurrency s0) as H0.
  induction H as [|x y z [id Hs] _ IH]; [assumption|].
  apply IH. eapply step_consistent; eauto.
Qed.

Lemma omap_lookup_seq (l1 l2 : list A) :
  omap (fun i => (l1 ++ l2) !! i) (seq (length l1) (length l2)) = l2.
Proof.
  revert l1. induction l2 as [|x l2 IH]; intros l1; simpl; [reflexivity|].
  rewrite list_lookup_middle by reflexivity.
  f_equal. specialize (IH (l1 ++ [x])).
  rewrite <- app_assoc, length_app in IH. simpl in IH.
  rewrite Nat.add_1_r in IH. exact IH.
Qed.

Lemma invoked_all (st : state Sh K) :
  (claims st).*2 = seq 0 (length items) -> invoked items st = items.
Proof.
  intros Hc. unfold invoked.
  transitivity (omap (fun i => items !! i) ((claims st).*2)).
  - clear Hc. induction (claims st) as [|c cs IH]; [reflexivity|].
    cbn. rewrite <- IH. reflexivity.
  - rewrite Hc. apply (omap_lookup_seq [] items).
Qed.

End RunnerFacts.

(** *** Termination *)

Section RunnerTermination.
Import Runner.
Context {A Sh K : Type}.
Variable items : list A.
Variable wstart : A -> Sh -> Sh * wres K.
Variable wresume : K -> Sh -> Sh * wres K.
Variable fuel : K -> nat.
Variable bound : nat.
Hypothesis start_fuel : forall x s k, (wstart x s).2 = Suspend k -> fuel k <= bound.
Hypothesis resume_fuel : forall k s k', (wresume k s).2 = Suspend k' -> fuel k' < fuel k.

Abbreviation step := (step items wstart wresume).
Abbreviation Step := (Step items wstart wresume).
Abbreviation weight := (@weight A Sh K items fuel bound).

Lemma sum_list_with_insert {B} (f : B -> nat) (l : list B) i x y :
  l !! i = Some x ->
  sum_list_with f (<[i := y]> l) + f x = sum_list_with f l + f y.
Proof.
  revert i. induction l as [|z l IH]; intros [|i] Hi; simpl in *; try discriminate.
  - inversion Hi; subst. lia.
  - specialize (IH _ Hi). lia.
Qed.

Lemma step_weight id st st' : step id st = Some st' -> weight st' < weight st.
Proof.
  unfold Runner.step, Runner.weight. intros Hs.
  destruct (runners st !! id) as [[[k| |]| |]|] eqn:Hid; try discriminate.
  - pose proof (resume_fuel k (shared st)) as Hf.
    destruct (wresume k (shared st)) as [s' r]. inversion Hs; subst; clear Hs.
    simpl in *.
    pose proof (sum_list_with_insert (rweight fuel) _ _ _ (Awaiting (settle r)) Hid) as Hsum.
    simpl in Hsum. destruct r as [k'| |]; simpl in *.
    + specialize (Hf k' eq_refl). lia.
    + lia.
    + lia.
  - destruct (items !! index st) as [x|] eqn:Hx.
    + rewrite (runner_claim _ _ _ _ _ Hx) in Hs. inversion Hs; subst; clear Hs.
      simpl.
      pose proof (sum_list_with_insert (rweight fuel) _ _ _
                    (Awaiting (settle (wstart x (shared st)).2)) Hid) as Hsum.
      pose proof (start_fuel x (shared st)) as Hf.
      apply lookup_lt_Some in Hx.
      replace (length items - index st) with (S (length items - S (index st))) by lia.
      simpl in Hsum.
      destruct (wstart x (shared st)).2 as [k'| |]; simpl in *.
      * specialize (Hf k' eq_refl). lia.
      * lia.
      * lia.
    + rewrite (runner_exit _ _ _ _ Hx) in Hs. inversion Hs; subst; clear Hs.
      simpl.
      pose proof (sum_list_with_insert (rweight fuel) _ _ _ Done Hid) as Hsum.
      simpl in Hsum. lia.
  - inversion Hs; subst; clear Hs. simpl.
    pose proof (sum_list_with_insert (rweight fuel) _ _ _ Failed Hid) as Hsum.
    simpl in Hsum. lia.
Qed.

Lemma nsteps_weight n st st' : nsteps Step n st st' -> n + weight st' <= weight st.
Proof.
  induction 1 as [|n x y z [id Hs] _ IH]; [lia|].
  apply step_weight in Hs. lia.
Qed.

Lemma awaiting_steps id (st : state Sh K) p :
  runners st !! id = Some (Awaiting p) -> exists st', step id st = Some st'.
Proof.
  intros Hid. unfold Runner.step. rewrite Hid. destruct p as [k| |].
  - destruct (wresume k (shared st)). eauto.
  - destruct (Runner.runner items wstart id st). eauto.
  - eauto.
Qed.

Lemma stopped_or_awaiting (l : list (rstate K)) :
  forallb is_stopped l = true \/ exists id p, l !! id = Some (Awaiting p).
Proof.
  induction l as [|r l [IH|(id & p & IH)]]; simpl.
  - by left.
  - destruct r as [p| |]; simpl; auto. right. by exists 0, p.
  - right. by exists (S id), p.
Qed.

Lemma quiescent_or_step (st : state Sh K) :
  quiescent st \/ exists st', Step st st'.
Proof.
  destruct (stopped_or_awaiting (runners st)) as [Hq|(id & p & Hid)]; [by left|].
  right. destruct (awaiting_steps _ _ _ Hid) as [st' Hs]. exists st', id. exact Hs.
Qed.

Lemma quiescent_stuck (st st' : state Sh K) : quiescent st -> ~ Step st st'.
Proof.
  unfold quiescent. intros Hq [id Hs]. unfold Runner.step in Hs.
  destruct (runners st !! id) as [r|] eqn:Hid; [|discriminate].
  rewrite forallb_forall in Hq.
  assert (Hin : In r (runners st)).
  { apply list_elem_of_In, list_elem_of_lookup. eauto. }
  specialize (Hq _ Hin). destruct r; simpl in Hq; discriminate.
Qed.

Lemma runs_complete st : exists st', rtc Step st st' /\ quiescent st'.
Proof.
  remember (weight st) as w eqn:Hw. revert st Hw.
  induction w as [w IH] using lt_wf_ind. intros st ->.
  destruct (quiescent_or_step st) as [Hq|[st1 Hs]].
  - exists st. split; [apply rtc_refl|exact Hq].
  - pose proof Hs as [id Hid]. apply step_weight in Hid.
    destruct (IH _ Hid st1 eq_refl) as (st' & Hrun & Hq).
    exists st'. split; [eapply rtc_l; eauto|exact Hq].
Qed.

End RunnerTermination.

(** *** Workers that never throw *)

Section RunnerNoThrow.
Import Runner.
Context {A Sh K : Type}.
Variable items : list A.
Variable wstart : A -> Sh -> Sh * wres K.
Variable wresume : K -> Sh -> Sh * wres K.
Hypothesis start_ok : forall x s, (wstart x s).2 <> Throw.
Hypothesis resume_ok : forall k s, (wresume k s).2 <> Throw.

Abbreviation runWithConcurrency := (runWithConcurrency items wstart).
Abbreviation healthy := (fun r : rstate K => is_healthy r = true).

Lemma settle_healthy (r : wres K) : r <> Throw -> is_healthy (Awaiting (settle r)) = true.
Proof. destruct r; simpl; congruence. Qed.

Lemma runner_healthy id (st : state Sh K) :
  is_healthy (runner items wstart id st).2 = true.
Proof.
  destruct (items !! index st) as [x|] eqn:Hx.
  - rewrite (runner_claim _ _ _ _ _ Hx). simpl. apply settle_healthy, start_ok.
  - rewrite (runner_exit _ _ _ _ Hx). reflexivity.
Qed.

Lemma init_healthy concurrency s0 : Forall healthy (runners (runWithConcurrency concurrency s0)).
Proof.
  unfold Runner.runWithConcurrency.
  induction (Z.to_nat (safeConcurrency concurrency (length items))) as [|n IH]; simpl.
  - constructor.
  - rewrite spawn_runners. apply Forall_app. split; [exact IH|].
    constructor; [apply runner_healthy|constructor].
Qed.

Lemma step_healthy id (st st' : state Sh K) :
  step items wstart wresume id st = Some st' ->
  Forall healthy (runners st) -> Forall healthy (runners st').
Proof.
  unfold Runner.step. intros Hs Hh.
  destruct (runners st !! id) as [[[k| |]| |]|] eqn:Hid; try discriminate.
  - pose proof (resume_ok k (shared st)) as Hok.
    destruct (wresume k (shared st)) as [s' r]. inversion Hs; subst; clear Hs. simpl.
    apply Forall_insert; [exact Hh|]. by apply settle_healthy.
  - pose proof (runner_healthy id st) as Hok.
    pose proof (runner_runners items wstart id st) as Hrs.
    destruct (runner items wstart id st) as [st1 r]. inversion Hs; subst; clear Hs.
    simpl in *. rewrite Hrs. by apply Forall_insert.
  - eapply Forall_lookup_1 in Hh; [|exact Hid]. discriminate.
Qed.

Lemma reachable_healthy concurrency s0 st :
  rtc (Step items wstart wresume) (runWithConcurrency concurrency s0) st ->
  Forall healthy (runners st).
Proof.
  intros H. pose proof (init_healthy concurrency s0) as H0.
  induction H as [|x y z [id Hs] _ IH]; [assumption|].
  apply IH. eapply step_healthy; eauto.
Qed.

Lemma quiescent_healthy_resolved (st : state Sh K) :
  quiescent st -> Forall healthy (runners st) -> resolved st.
Proof.
  unfold quiescent, resolved. intros Hq Hh.
  induction Hh as [|r l Hr _ IH]; simpl in *; [reflexivity|].
  apply andb_prop in Hq as [Hq1 Hq2]. rewrite (IH Hq2), andb_true_r.
  destruct r as [[| |]| |]; simpl in *; congruence.
Qed.

End RunnerNoThrow.

Section RunnerSchedules.
Import Runner.
Context {A Sh K : Type}.
Variable items : list A.
Variable wstart : A -> Sh -> Sh * wres K.
Variable wresume : K -> Sh -> Sh * wres K.

Lemma run_reachable sched (st : state Sh K) :
  rtc (Step items wstart wresume) st (run items wstart wresume sched st).
Proof.
  revert st. induction sched as [|id sched IH]; intros st; simpl; [apply rtc_refl|].
  destruct (step items wstart wresume id st) as [st'|] eqn:Hs; simpl.
  - eapply rtc_l; [by exists id|apply IH].
  - apply IH.
Qed.

Lemma safeConcurrency_pos concurrency len : (1 <= safeConcurrency concurrency len)%Z.
Proof. unfold safeConcurrency. lia. Qed.

Lemma resolved_done (st : state Sh K) id :
  resolved st -> id < length (runners st) -> runners st !! id = Some Done.
Proof.
  unfold resolved. intros Hr Hid.
  destruct (lookup_lt_is_Some_2 _ _ Hid) as [r Hl]. rewrite Hl.
  rewrite forallb_forall in Hr.
  assert (Hin : In r (runners st)) by (apply list_elem_of_In, list_elem_of_lookup; eauto).
  specialize (Hr _ Hin). destruct r as [p| |]; simpl in Hr; congruence.
Qed.

Lemma claims_runner_unique (l : list (nat * nat)) a b i :
  NoDup (l.*2) -> (a, i) ∈ l -> (b, i) ∈ l -> a = b.
Proof.
  induction l as [|[c j] l IH]; intros Hnd Ha Hb.
  - by apply not_elem_of_nil in Ha.
  - simpl in Hnd. apply NoDup_cons in Hnd as [Hj Hnd].
    apply elem_of_cons in Ha as [Ha|Ha]; apply elem_of_cons in Hb as [Hb|Hb].
    + congruence.
    + inversion Ha; subst. exfalso. apply Hj.
      apply list_elem_of_fmap. by exists (b, j).
    + inversion Hb; subst. exfalso. apply Hj.
      apply list_elem_of_fmap. by exists (a, j).
    + auto.
Qed.

End RunnerSchedules.

(** *** The two guarantees of the bounded loader *)

(** C1, amended.  For every list of items, every integer concurrency limit
    and every worker whose calls never throw and settle after a bounded
    number of suspensions: every execution of [runWithConcurrency] can be
    continued to its end and has a bounded number of steps; at every moment
    the indices claimed so far are [0, 1, ..., index - 1], each once; when no
    runner can continue, [Promise.all] fulfils, the worker has been called
    exactly once on each item (in index order), and each index was claimed
    by exactly one runner.  For the empty list the only runner returns at
    once and the worker is never called. *)
Theorem runWithConcurrency_each_item_once
  {A Sh K : Type} (items : list A)
  (wstart : A -> Sh -> Sh * Runner.wres K) (wresume : K -> Sh -> Sh * Runner.wres K)
  (fuel : K -> nat) (bound : nat) (concurrency : Z) (s0 : Sh) :
  (forall x s, (wstart x s).2 <> Runner.Throw) ->
  (forall k s, (wresume k s).2 <> Runner.Throw) ->
  (forall x s k, (wstart x s).2 = Runner.Suspend k -> fuel k <= bound) ->
  (forall k s k', (wresume k s).2 = Runner.Suspend k' -> fuel k' < fuel k) ->
  let st0 := Runner.runWithConcurrency items wstart concurrency s0 in
  let Step := Runner.Step items wstart wresume in
  (forall st, rtc Step st0 st -> exists st', rtc Step st st' /\ Runner.quiescent st') /\
  (forall n st, nsteps Step n st0 st -> n <= Runner.weight items fuel bound st0) /\
  (forall st, rtc Step st0 st -> (Runner.claims st).*2 = seq 0 (Runner.index st)) /\
  (forall st, rtc Step st0 st -> Runner.quiescent st ->
     Runner.resolved st /\
     (Runner.claims st).*2 = seq 0 (length items) /\
     Runner.invoked items st = items /\
     forall i, i < length items ->
       exists r, (r, i) ∈ Runner.claims st /\ r < length (Runner.runners st) /\
                 forall r', (r', i) ∈ Runner.claims st -> r' = r) /\
  (items = [] -> st0 = Runner.mkState s0 0 [Runner.Done] []).
Proof.
  intros Hstart Hresume Hfuel0 Hfuel st0 Step.
  split; [|split; [|split; [|split]]].
  - intros st _. by apply (runs_complete items wstart wresume fuel bound).
  - intros n st Hn.
    pose proof (nsteps_weight items wstart wresume fuel bound Hfuel0 Hfuel _ _ _ Hn). lia.
  - intros st Hst. by destruct (reachable_consistent _ _ _ _ _ _ Hst) as (_ & Hc & _).
  - intros st Hst Hq.
    destruct (reachable_consistent _ _ _ _ _ _ Hst) as (Hi & Hc & Hd & Hr).
    pose proof (reachable_healthy _ _ _ Hstart Hresume _ _ _ Hst) as Hh.
    pose proof (quiescent_healthy_resolved _ Hq Hh) as Hres.
    pose proof (reachable_length _ _ _ _ _ _ Hst) as Hlen.
    pose proof (safeConcurrency_pos concurrency (length items)) as Hpos.
    assert (Hidx : Runner.index st = length items).
    { assert (H0 : 0 < length (Runner.runners st)) by lia.
      pose proof (Hd 0 (resolved_done _ _ Hres H0)). lia. }
    rewrite Hidx in Hc. split; [exact Hres|]. split; [exact Hc|].
    split; [by apply invoked_all|].
    intros i Hlt.
    assert (Hin : i ∈ (Runner.claims st).*2).
    { rewrite Hc. apply list_elem_of_In, in_seq. lia. }
    apply list_elem_of_fmap in Hin as ([r j] & Hj & Hin). simpl in Hj. subst j.
    exists r. split; [exact Hin|]. split; [eauto|].
    intros r' Hin'. eapply claims_runner_unique; eauto.
    rewrite Hc. apply NoDup_ListNoDup, seq_NoDup.
  - intros ->. subst st0. unfold Runner.runWithConcurrency, Runner.safeConcurrency. simpl.
    replace (Z.max 1 (Z.min concurrency 1)) with 1%Z by lia. reflexivity.
Qed.

(** The theorem at three items, a limit of 2 and the worker [steady]. *)
Lemma runWithConcurrency_each_item_once_witness :
  Runner.invoked [7; 8; 9]
    (Runner.run [7; 8; 9] Runner.steady_start Runner.steady_resume [0; 1; 0; 1; 0; 0; 1]
       (Runner.runWithConcurrency [7; 8; 9] Runner.steady_start 2 [])) = [7; 8; 9].
Proof.
  refine (proj1 (proj2 (proj2 (proj1 (proj2 (proj2 (proj2
    (runWithConcurrency_each_item_once [7; 8; 9] Runner.steady_start Runner.steady_resume
       (fun _ => 0) 0 2 [] _ _ _ _)))) _ _ _)))).
  - intros x s. discriminate.
  - intros k s. discriminate.
  - intros x s k _. apply Nat.le_refl.
  - intros k s k' H. discriminate H.
  - apply run_reachable.
  - reflexivity.
Defined.

(** C1 as stated fails for a worker that rejects: with a limit of 1 and the
    items [7; 8], the worker [flaky] rejects on 7, the only runner ends with
    that exception, and in no execution is the worker called on 8. *)
Lemma runWithConcurrency_rejecting_worker_skips :
  let st0 := Runner.runWithConcurrency [7; 8] Runner.flaky_start 1 [] in
  let st := Runner.run [7; 8] Runner.flaky_start Runner.flaky_resume [0; 0] st0 in
  Runner.quiescent st /\
  Runner.invoked [7; 8] st = [7] /\
  ~ Runner.resolved st /\
  forall st', rtc (Runner.Step [7; 8] Runner.flaky_start Runner.flaky_resume) st0 st' ->
              Runner.invoked [7; 8] st' = [7].
Proof.
  intros st0 st. split; [reflexivity|]. split; [reflexivity|]. split; [discriminate|].
  set (st1 := Runner.run [7; 8] Runner.flaky_start Runner.flaky_resume [0] st0).
  assert (Hclosed : forall a b,
    Runner.Step [7; 8] Runner.flaky_start Runner.flaky_resume a b ->
    a = st0 \/ a = st1 \/ a = st -> b = st0 \/ b = st1 \/ b = st).
  { intros a b [id Hs] [ -> | [ -> | -> ] ].
    - destruct id as [|id]; vm_compute in Hs; [|discriminate].
      inversion Hs. right; left. reflexivity.
    - destruct id as [|id]; vm_compute in Hs; [|discriminate].
      inversion Hs. right; right. reflexivity.
    - destruct id as [|id]; vm_compute in Hs; discriminate. }
  intros st' Hrun.
  assert (Hst' : st' = st0 \/ st' = st1 \/ st' = st).
  { assert (Hall : forall a b,
      rtc (Runner.Step [7; 8] Runner.flaky_start Runner.flaky_resume) a b ->
      a = st0 \/ a = st1 \/ a = st -> b = st0 \/ b = st1 \/ b = st).
    { induction 1 as [|x y z Hs _ IH]; [auto|]. intros Hx. apply IH. eapply Hclosed; eauto. }
    apply (Hall _ _ Hrun). by left. }
  destruct Hst' as [ -> | [ -> | -> ] ]; reflexivity.
Qed.

(** *** The pool of runners, for any limit *)

Section PoolFacts.
Import Runner.
Context {A Sh K : Type}.
Variable items : list A.
Variable wstart : A -> Sh -> Sh * wres K.
Variable wresume : K -> Sh -> Sh * wres K.

Lemma num_ltb_Fin (a b : R) : Js.num_ltb (Js.Fin a) (Js.Fin b) = true <-> (a < b)%R.
Proof. simpl. destruct (Rlt_dec a b); split; (done || lra). Qed.

(** The loop spawns a runner on each of its turns. *)
Lemma start_iter fuel i safe (st : state Sh K) :
  exists k,
    k <= fuel /\
    Pool.start items wstart fuel i safe st = Nat.iter k (spawn items wstart) st /\
    (forall j, i <= j < i + k -> Js.num_ltb (Js.Fin (INR j)) safe = true) /\
    (k < fuel -> Js.num_ltb (Js.Fin (INR (i + k))) safe = false).
Proof.
  revert i st. induction fuel as [|fuel IH]; intros i st; cbn [Pool.start].
  - exists 0. split; [lia|]. split; [reflexivity|]. split; [intros j Hj; lia|lia].
  - destruct (Js.num_ltb (Js.Fin (INR i)) safe) eqn:Ht.
    + destruct (IH (S i) (spawn items wstart st)) as (k & Hk & Hs & Hlt & Hend).
      exists (S k). split; [lia|]. split; [rewrite Hs; symmetry; apply Nat.iter_succ_r|]. split.
      * intros j Hj. destruct (decide (j = i)) as [->|Hne]; [exact Ht|]. apply Hlt. lia.
      * intros Hlt'. replace (i + S k) with (S i + k) by lia. apply Hend. lia.
    + exists 0. split; [lia|]. split; [reflexivity|]. split; [intros j Hj; lia|].
      intros _. by rewrite Nat.add_0_r.
Qed.

(** What [safeConcurrency] is: [NaN] for a limit that is no number, and
    otherwise a number between 1 and [max(1, items.length)]. *)
Lemma safeConcurrency_cases concurrency len :
  let n := INR (Nat.max 1 len) in
  match Js.Number concurrency with
  | Js.NaN => Pool.safeConcurrency concurrency len = Js.NaN
  | Js.PosInf => Pool.safeConcurrency concurrency len = Js.Fin n
  | Js.NegInf => Pool.safeConcurrency concurrency len = Js.Fin 1
  | Js.Fin c => Pool.safeConcurrency concurrency len = Js.Fin (Rmax 1 (Rmin c n))
  end.
Proof.
  assert (Hn : INR (if Nat.eqb len 0 then 1 else len) = INR (Nat.max 1 len)).
  { destruct len as [|[|len]]; reflexivity. }
  assert (H1 : (1 <= INR (Nat.max 1 len))%R).
  { change 1%R with (INR 1). apply le_INR. lia. }
  unfold Pool.safeConcurrency. rewrite Hn.
  destruct (Js.Number concurrency) as [c| | |]; simpl; try reflexivity.
  by rewrite Rmax_right.
Qed.

Lemma safeConcurrency_range concurrency len :
  Pool.safeConcurrency concurrency len = Js.NaN /\ Js.Number concurrency = Js.NaN \/
  exists r, Pool.safeConcurrency concurrency len = Js.Fin r /\
            (1 <= r <= INR (Nat.max 1 len))%R /\ Js.Number concurrency <> Js.NaN.
Proof.
  pose proof (safeConcurrency_cases concurrency len) as H. cbv zeta in H.
  assert (H1 : (1 <= INR (Nat.max 1 len))%R).
  { change 1%R with (INR 1). apply le_INR. lia. }
  destruct (Js.Number concurrency) as [c| | |].
  - right. eexists. split; [exact H|]. split; [|discriminate]. split; [apply Rmax_l|].
    apply Rmax_lub; [exact H1|apply Rmin_r].
  - by left.
  - right. eexists. split; [exact H|]. split; [lra|discriminate].
  - right. eexists. split; [exact H|]. split; [lra|discriminate].
Qed.

(** The pool that [runWithConcurrency] starts: as many runners as the
    loop has turns. *)
Lemma pool_started concurrency (s0 : Sh) :
  exists k,
    Pool.runWithConcurrency items wstart concurrency s0
    = Nat.iter k (spawn items wstart) (mkState s0 0 [] []) /\
    (forall i, i < k <->
       Js.num_ltb (Js.Fin (INR i)) (Pool.safeConcurrency concurrency (length items)) = true) /\
    k <= Nat.max 1 (length items) /\
    (Js.Number concurrency = Js.NaN -> k = 0) /\
    (Js.Number concurrency <> Js.NaN -> 1 <= k).
Proof.
  unfold Pool.runWithConcurrency.
  destruct (start_iter (S (length items)) 0
              (Pool.safeConcurrency concurrency (length items)) (mkState s0 0 [] []))
    as (k & Hk & Hs & Hlt & Hend).
  exists k. split; [exact Hs|].
  destruct (safeConcurrency_range concurrency (length items)) as [[Hsafe Hnan]|(r & Hsafe & Hr & Hnum)].
  - rewrite Hsafe in *.
    assert (k = 0).
    { destruct k as [|k]; [done|]. specialize (Hlt 0 ltac:(lia)). discriminate. }
    subst k. split; [|split; [lia|split; [done|contradiction]]].
    intros i. split; [lia|discriminate].
  - rewrite Hsafe in *.
    assert (Hbelow : forall j, j < k -> (INR j < r)%R).
    { intros j Hj. apply num_ltb_Fin, Hlt. lia. }
    assert (Hkn : k <= Nat.max 1 (length items)).
    { destruct k as [|k]; [lia|].
      pose proof (Hbelow k ltac:(lia)) as Hlast.
      assert (Hlt' : (INR k < INR (Nat.max 1 (length items)))%R) by lra.
      apply INR_lt in Hlt'. lia. }
    assert (Hstop : ~ (INR k < r)%R).
    { destruct (decide (k < S (length items))) as [Hfuel|Hfuel].
      - specialize (Hend Hfuel). simpl in Hend.
        destruct (Rlt_dec (INR k) r); [discriminate|done].
      - assert (Hge : (INR (Nat.max 1 (length items)) <= INR k)%R) by (apply le_INR; lia).
        lra. }
    assert (Hk1 : 1 <= k).
    { destruct k as [|k]; [|lia]. simpl in Hstop. lra. }
    split; [|split; [exact Hkn|split; [contradiction|done]]].
    intros i. rewrite num_ltb_Fin. split; [apply Hbelow|].
    intros Hi. destruct (Nat.lt_ge_cases i k) as [|Hge]; [done|].
    apply le_INR in Hge. lra.
Qed.

Lemma iter_runWithConcurrency k (s0 : Sh) :
  1 <= k <= Nat.max 1 (length items) ->
  Nat.iter k (spawn items wstart) (mkState s0 0 [] [])
  = runWithConcurrency items wstart (Z.of_nat k) s0.
Proof.
  intros Hk. unfold runWithConcurrency, safeConcurrency.
  replace (Z.to_nat (Z.max 1 (Z.min (Z.of_nat k)
             (if Nat.eqb (length items) 0 then 1 else Z.of_nat (length items))))) with k;
    [reflexivity|].
  destruct (length items) as [|n]; simpl Nat.eqb; cbv iota; lia.
Qed.

(** A pool without runners stays as it is. *)
Lemma no_runner_no_step (st st' : state Sh K) :
  runners st = [] -> rtc (Step items wstart wresume) st st' -> st' = st.
Proof.
  intros Hr Hrun. destruct Hrun as [|x y z [id Hs] _]; [reflexivity|].
  unfold step in Hs. by rewrite Hr, lookup_nil in Hs.
Qed.

End PoolFacts.

(** C8, amended.  While [runWithConcurrency] runs, whatever value its
    limit is, the pool has as many runners as the loop that starts them has
    turns, the worker calls in flight are at most the runners, and the
    runners are at most [max(1, items.length)].  A limit that is no number
    starts no runner: no worker is called.  Any other limit starts at
    least one, and a finite limit [c] starts
    [max(1, min(c, max(1, items.length)))] runners, rounded up: the calls in
    flight are at most [max(1, concurrency)] when the limit is an integer,
    and fewer than [max(1, concurrency) + 1] otherwise.  A runner claims the
    next item only when the promise of its current call has fulfilled. *)
Theorem runWithConcurrency_in_flight_bounded
  {A Sh K : Type} (items : list A)
  (wstart : A -> Sh -> Sh * Runner.wres K) (wresume : K -> Sh -> Sh * Runner.wres K)
  (concurrency : Js.value) (s0 : Sh) (st : Runner.state Sh K) :
  rtc (Runner.Step items wstart wresume) (Pool.runWithConcurrency items wstart concurrency s0) st ->
  let pool := length (Runner.runners st) in
  let n := Nat.max 1 (length items) in
  Runner.in_flight st <= pool /\
  pool <= n /\
  (forall i, i < pool <->
     Js.num_ltb (Js.Fin (INR i)) (Pool.safeConcurrency concurrency (length items)) = true) /\
  (Js.Number concurrency = Js.NaN ->
   pool = 0 /\ st = Runner.mkState s0 0 [] [] /\ Runner.invoked items st = []) /\
  (Js.Number concurrency <> Js.NaN -> 1 <= pool) /\
  (forall c, Js.Number concurrency = Js.Fin c ->
     (Rmax 1 (Rmin c (INR n)) <= INR pool < Rmax 1 (Rmin c (INR n)) + 1)%R /\
     (INR (Runner.in_flight st) < Rmax 1 c + 1)%R) /\
  (forall z, Js.Number concurrency = Js.Fin (IZR z) ->
     Z.of_nat pool = Z.max 1 (Z.min z (Z.of_nat n)) /\
     (Z.of_nat (Runner.in_flight st) <= Z.max 1 z)%Z /\
     Pool.runWithConcurrency items wstart concurrency s0
     = Runner.runWithConcurrency items wstart z s0) /\
  (forall id st', Runner.step items wstart wresume id st = Some st' ->
     Runner.index st' <> Runner.index st ->
     Runner.runners st !! id = Some (Runner.Awaiting Runner.Fulfilled) /\
     Runner.index st' = S (Runner.index st) /\
     Runner.in_flight st' <= S (Runner.in_flight st)).
Proof.
  intros Hst pool n.
  destruct (pool_started items wstart concurrency s0) as (k & Hinit & Hturns & Hkn & Hnan & Hnum).
  assert (Hfl : forall s : Runner.state Sh K,
             Runner.in_flight s <= length (Runner.runners s)).
  { intros s. unfold Runner.in_flight. apply length_filter. }
  assert (Hpool : pool = k).
  { subst pool. rewrite Hinit in Hst. destruct (decide (k = 0)) as [->|Hk].
    - simpl in Hst.
      pose proof (no_runner_no_step items wstart wresume
                    (Runner.mkState s0 0 [] []) st eq_refl Hst) as Heq.
      by rewrite Heq.
    - rewrite iter_runWithConcurrency in Hst by lia.
      rewrite (reachable_length _ _ _ _ _ _ Hst). unfold Runner.safeConcurrency.
      destruct (length items) as [|m]; simpl Nat.eqb; cbv iota; lia. }
  assert (Hreal : forall c, Js.Number concurrency = Js.Fin c ->
            (Rmax 1 (Rmin c (INR n)) <= INR pool < Rmax 1 (Rmin c (INR n)) + 1)%R).
  { intros c Hc. pose proof (safeConcurrency_cases concurrency (length items)) as Hsafe.
    cbv zeta in Hsafe. rewrite Hc in Hsafe. fold n in Hsafe.
    assert (Hk1 : 1 <= k) by (apply Hnum; rewrite Hc; discriminate).
    rewrite Hpool. split.
    - destruct (Rle_or_lt (Rmax 1 (Rmin c (INR n))) (INR k)) as [|Hlt]; [done|].
      assert (Ht : k < k); [|lia].
      apply Hturns. rewrite Hsafe. by apply num_ltb_Fin.
    - assert (Hlast : k - 1 < k) by lia.
      apply Hturns in Hlast. rewrite Hsafe in Hlast. apply num_ltb_Fin in Hlast.
      rewrite minus_INR in Hlast by lia. simpl in Hlast. lra. }
  split; [apply Hfl|]. split; [by rewrite Hpool|]. split; [by rewrite Hpool|].
  split.
  { intros Hc. specialize (Hnan Hc). subst k. simpl in Hinit. rewrite Hinit in Hst.
    pose proof (no_runner_no_step items wstart wresume
                  (Runner.mkState s0 0 [] []) st eq_refl Hst) as ->.
    by repeat split. }
  split; [intros Hc; rewrite Hpool; by apply Hnum|].
  split.
  { intros c Hc. destruct (Hreal c Hc) as [Hlo Hhi]. split; [by split|].
    assert (Hle : (INR (Runner.in_flight st) <= INR pool)%R) by (apply le_INR, Hfl).
    assert (Hmax : (Rmax 1 (Rmin c (INR n)) <= Rmax 1 c)%R).
    { apply Rmax_lub; [apply Rmax_l|]. etrans; [apply Rmin_l|apply Rmax_r]. }
    lra. }
  split.
  { intros z Hz. destruct (Hreal (IZR z) Hz) as [Hlo Hhi].
    assert (Hn : INR n = IZR (Z.of_nat n)) by apply INR_IZR_INZ.
    assert (Hmin : Rmin (IZR z) (INR n) = IZR (Z.min z (Z.of_nat n))).
    { rewrite Hn. unfold Rmin. destruct (Rle_dec (IZR z) (IZR (Z.of_nat n))) as [H|H].
      - apply le_IZR in H. by rewrite Z.min_l.
      - rewrite Z.min_r; [done|]. destruct (Z.le_gt_cases (Z.of_nat n) z) as [|Hgt]; [done|].
        exfalso. apply H. apply IZR_le. lia. }
    assert (Hmax : Rmax 1 (Rmin (IZR z) (INR n)) = IZR (Z.max 1 (Z.min z (Z.of_nat n)))).
    { rewrite Hmin. unfold Rmax.
      destruct (Rle_dec 1 (IZR (Z.min z (Z.of_nat n)))) as [H|H].
      - apply le_IZR in H. by rewrite Z.max_r.
      - rewrite Z.max_l; [done|].
        destruct (Z.le_gt_cases (Z.min z (Z.of_nat n)) 1) as [|Hgt]; [done|].
        exfalso. apply H. apply IZR_le. lia. }
    rewrite Hmax, (INR_IZR_INZ pool) in Hlo, Hhi.
    apply le_IZR in Hlo.
    assert (Hhi' : (Z.of_nat pool < Z.max 1 (Z.min z (Z.of_nat n)) + 1)%Z).
    { apply lt_IZR. rewrite plus_IZR. exact Hhi. }
    assert (Hval : Z.of_nat pool = Z.max 1 (Z.min z (Z.of_nat n))) by lia.
    split; [exact Hval|]. split; [specialize (Hfl st); subst pool; lia|].
    rewrite Hinit. assert (Hk1 : 1 <= k) by (apply Hnum; rewrite Hz; discriminate).
    rewrite iter_runWithConcurrency by lia.
    unfold Runner.runWithConcurrency. f_equal. f_equal. unfold Runner.safeConcurrency.
    rewrite <- Hpool. subst n. destruct (length items) as [|m]; simpl Nat.eqb; cbv iota; lia. }
  intros id st' Hs Hidx. unfold Runner.step in Hs.
  destruct (Runner.runners st !! id) as [[[k'| |]| |]|] eqn:Hid; try discriminate.
  + destruct (wresume k' (Runner.shared st)). inversion Hs; subst. by simpl in Hidx.
  + split; [reflexivity|].
    destruct (items !! Runner.index st) as [x|] eqn:Hx.
    * rewrite (runner_claim _ _ _ _ _ Hx) in Hs. inversion Hs; subst; clear Hs.
      simpl. split; [reflexivity|].
      unfold Runner.in_flight. simpl.
      rewrite (insert_take_drop (Runner.runners st)) by (by apply lookup_lt_Some in Hid).
      rewrite <- (take_drop_middle _ _ _ Hid) at 3.
      rewrite !filter_app, !length_app, !filter_cons. simpl.
      repeat case_decide; simpl; lia.
    * rewrite (runner_exit _ _ _ _ Hx) in Hs. inversion Hs; subst. by simpl in Hidx.
  + inversion Hs; subst. by simpl in Hidx.
Qed.

(** The theorem at the state in which [await Promise.all] is reached, for
    three items and a limit of 2. *)
Lemma runWithConcurrency_in_flight_bounded_witness :
  Z.le (Z.of_nat (Runner.in_flight
                    (Pool.runWithConcurrency [7; 8; 9] Runner.steady_start (Js.Num (Js.Fin 2)) [])))
       2%Z.
Proof.
  exact (proj1 (proj2 (proj1 (proj2 (proj2 (proj2 (proj2 (proj2 (proj2
    (runWithConcurrency_in_flight_bounded [7; 8; 9] Runner.steady_start Runner.steady_resume
       (Js.Num (Js.Fin 2)) [] _ (rtc_refl _ _)))))))) 2%Z eq_refl))).
Defined.

(** A limit of 2.5 over three items starts three runners, and three calls
    are in flight when [await Promise.all] is reached; a limit that is no
    number starts none, and no item is handled. *)
Lemma fractional_limit_rounds_up :
  Runner.in_flight
    (Pool.runWithConcurrency [7; 8; 9] Runner.steady_start (Js.Num (Js.Fin (5 / 2))) []) = 3 /\
  Pool.runWithConcurrency [7; 8; 9] Runner.steady_start Js.Undefined []
  = Runner.mkState [] 0 [] [].
Proof.
  unfold Pool.runWithConcurrency, Pool.safeConcurrency. simpl.
  assert (Hmin : Rmin (5 / 2) (1 + 1 + 1) = (5 / 2)%R) by (apply Rmin_left; lra).
  assert (Hmax : Rmax 1 (5 / 2) = (5 / 2)%R) by (apply Rmax_right; lra).
  rewrite Hmin, Hmax.
  destruct (Rlt_dec 0 (5 / 2)) as [_|H]; [|lra].
  destruct (Rlt_dec 1 (5 / 2)) as [_|H]; [|lra].
  destruct (Rlt_dec (1 + 1) (5 / 2)) as [_|H]; [|lra].
  destruct (Rlt_dec (1 + 1 + 1) (5 / 2)) as [H|_]; [lra|].
  split; reflexivity.
Qed.

(** C8 as stated fails below a limit of 1: with a limit of 0 and one item,
    one call is in flight when [await Promise.all] is reached. *)
Lemma runWithConcurrency_limit_zero_one_in_flight :
  Runner.in_flight (Runner.runWithConcurrency [7] Runner.steady_start 0 []) = 1 /\
  ~ Z.le (Z.of_nat (Runner.in_flight (Runner.runWithConcurrency [7] Runner.steady_start 0 []))) 0%Z.
Proof. split; [reflexivity|]. vm_compute. intros H. apply H. reflexivity. Qed.

(** ** Transforms *)

Section TransformFacts.
Import Js Transform.
#[local] Open Scope R_scope.

Lemma qlength_identity : qlength identity = 1.
Proof.
  unfold qlength, identity. simpl.
  replace (0 * 0 + 0 * 0 + 0 * 0 + 1 * 1) with 1 by ring. apply sqrt_1.
Qed.

Lemma norm2_nonneg (q : Quaternion) : 0 <= norm2 q.
Proof. unfold norm2. nra. Qed.

Lemma qlength_norm2 (q : Quaternion) : qlength q = sqrt (norm2 q).
Proof. reflexivity. Qed.

(** The limits of the range: 0 < 2^-1022 < 1 < 2^1024 - 2^970. *)
Lemma range_limits : 0 < MIN_NORMAL /\ MIN_NORMAL < 1 /\ 1 < OVERFLOW.
Proof.
  unfold MIN_NORMAL, OVERFLOW.
  assert (H1 : 1 < IZR (2 ^ 1022)) by (apply IZR_lt; vm_compute; reflexivity).
  assert (H2 : 1 < IZR (2 ^ 1024 - 2 ^ 970)) by (apply IZR_lt; vm_compute; reflexivity).
  set (a := IZR (2 ^ 1022)) in *. set (b := IZR (2 ^ 1024 - 2 ^ 970)) in *.
  assert (Hi : 0 < / a) by (apply Rinv_0_lt_compat; lra).
  assert (Hu : a * / a = 1) by (apply Rinv_r; lra).
  split; [exact Hi|]. split; [nra|exact H2].
Qed.


(** Within the range, [normalize] divides by the length. *)
Lemma normalize_regular (q : Quaternion) :
  MIN_NORMAL <= norm2 q -> norm2 q < OVERFLOW ->
  normalize q = mkQuaternion (qx q * (1 / qlength q)) (qy q * (1 / qlength q))
                             (qz q * (1 / qlength q)) (qw q * (1 / qlength q)) /\
  qlength (normalize q) = 1.
Proof.
  intros Hlo Hhi. destruct range_limits as (Hmin & _ & _).
  assert (Hpos : 0 < norm2 q) by lra.
  assert (Hne : sqrt (norm2 q) <> 0).
  { intros H. apply sqrt_eq_0 in H; lra. }
  assert (Hn : normalize q =
    mkQuaternion (qx q * (1 / qlength q)) (qy q * (1 / qlength q))
                 (qz q * (1 / qlength q)) (qw q * (1 / qlength q))).
  { unfold normalize, Quaternion_length.
    destruct (Rle_dec OVERFLOW (norm2 q)) as [H|_]; [lra|].
    destruct (Rle_dec MIN_NORMAL (norm2 q)) as [_|H]; [|lra].
    destruct (Req_dec_T (sqrt (norm2 q)) 0) as [H|_]; [contradiction|]. reflexivity. }
  split; [exact Hn|]. rewrite Hn, !qlength_norm2. unfold norm2 at 1. simpl.
  set (n := norm2 q) in *.
  pose proof (sqrt_def n ltac:(lra)) as Hs.
  replace (qx q * (1 / sqrt n) * (qx q * (1 / sqrt n)) +
           qy q * (1 / sqrt n) * (qy q * (1 / sqrt n)) +
           qz q * (1 / sqrt n) * (qz q * (1 / sqrt n)) +
           qw q * (1 / sqrt n) * (qw q * (1 / sqrt n)))
    with (norm2 q / (sqrt n * sqrt n)) by (unfold norm2; field; exact Hne).
  fold n. rewrite Hs. replace (n / n) with 1 by (field; lra). apply sqrt_1.
Qed.

(** A quaternion of length 1 is left as it is. *)
Lemma normalize_unit (q : Quaternion) : qlength q = 1 -> normalize q = q.
Proof.
  intros H. destruct range_limits as (Hmin & Hlt & Hov).
  assert (Hn : norm2 q = 1).
  { pose proof (sqrt_def (norm2 q) (norm2_nonneg q)) as Hs.
    rewrite <- qlength_norm2, H in Hs. lra. }
  destruct (normalize_regular q ltac:(lra) ltac:(lra)) as [-> _].
  rewrite H. destruct q as [a b c d]. simpl. f_equal; field.
Qed.



Lemma qlength_setFromEuler ex ey ez : qlength (setFromEuler ex ey ez) = 1.
Proof.
  unfold qlength, setFromEuler. simpl.
  set (c1 := cos (ex / 2)). set (c2 := cos (ey / 2)). set (c3 := cos (ez / 2)).
  set (s1 := sin (ex / 2)). set (s2 := sin (ey / 2)). set (s3 := sin (ez / 2)).
  assert (H1 : s1 * s1 + c1 * c1 = 1) by apply (sin2_cos2 (ex / 2)).
  assert (H2 : s2 * s2 + c2 * c2 = 1) by apply (sin2_cos2 (ey / 2)).
  assert (H3 : s3 * s3 + c3 * c3 = 1) by apply (sin2_cos2 (ez / 2)).
  match goal with |- sqrt ?e = 1 =>
    replace e with ((s1 * s1 + c1 * c1) * (s2 * s2 + c2 * c2) * (s3 * s3 + c3 * c3)) by ring
  end.
  rewrite H1, H2, H3. replace (1 * 1 * 1) with 1 by ring. apply sqrt_1.
Qed.

Lemma qlength_flip (q : Quaternion) :
  qlength (mkQuaternion (qx q) (- qy q) (- qz q) (qw q)) = qlength q.
Proof. unfold qlength. simpl. f_equal. ring. Qed.

(** The mirrored quaternion of a quaternion of length 1. *)
Lemma normalize_flip_unit (q : Quaternion) :
  qlength q = 1 ->
  normalize (mkQuaternion (qx q) (- qy q) (- qz q) (qw q))
  = mkQuaternion (qx q) (- qy q) (- qz q) (qw q).
Proof. intros H. apply normalize_unit. by rewrite qlength_flip. Qed.

(** Four numbers of which the squares add up to 1 are a quaternion that
    [getQuaternion] returns as it is. *)
Lemma qlength_of_unit (x y z w : R) :
  x * x + y * y + z * z + w * w = 1 -> qlength (mkQuaternion x y z w) = 1.
Proof. intros H. unfold qlength. simpl. rewrite H. apply sqrt_1. Qed.



(** C5.  [applyTransform], in the mirror mode that is configured.  A
    missing or null transform, and a transform without position, rotation
    and scale, give position (0,0,0), the identity quaternion and scale
    (1,1,1); so does each of the three fields that is missing.  A position
    and a scale that are present are read by component, a component that
    is missing or no finite number being 0 for the position and 1 for the
    scale.  The rotation is read by shape.  An array of four elements and
    an object that has the keys x, y, z and w are read as the components
    of a quaternion (a missing one being 0, or 1 for w), which is
    normalized: four numbers of which the squares add up to 1 come out as
    they are, mirrored.  Any other object is read as Euler angles, an
    array of another length too, which has no x, y and z: an object with x
    only is the rotation about the x axis by that angle, one with y only
    the mirrored rotation about the y axis.  Anything else is the
    identity. *)
Theorem applyTransform_defaults_and_rotation_shapes :
  let unmoved := mkObject3D (mkVector3 0 0 0) identity (mkVector3 1 1 1) in
  let mirror := fun q => mkQuaternion (qx q) (- qy q) (- qz q) (qw q) in
  applyTransform None = unmoved /\
  applyTransform (Some (mkTransform None RotOther None)) = unmoved /\
  (forall cfg, applyTransformWith cfg None = unmoved) /\
  (forall tr,
     (position tr = None -> o_position (applyTransform (Some tr)) = mkVector3 0 0 0) /\
     (rotation_of tr = RotOther -> o_quaternion (applyTransform (Some tr)) = identity) /\
     (scale tr = None -> o_scale (applyTransform (Some tr)) = mkVector3 1 1 1)) /\
  (forall tr a b c,
     position tr = Some (mkXyz a b c) ->
     o_position (applyTransform (Some tr))
     = mkVector3 (- asNumber a 0) (asNumber b 0) (asNumber c 0)) /\
  (forall tr a b c,
     scale tr = Some (mkXyz a b c) ->
     o_scale (applyTransform (Some tr))
     = mkVector3 (asNumber a 1) (asNumber b 1) (asNumber c 1)) /\
  (forall r fallback,
     asNumber (Num (Fin r)) fallback = r /\
     asNumber Undefined fallback = fallback /\
     asNumber (Num NaN) fallback = fallback /\
     asNumber (Num PosInf) fallback = fallback /\
     asNumber Null fallback = 0) /\
  (forall tr r0 r1 r2 r3,
     rotation_of tr = RotArray [r0; r1; r2; r3] ->
     o_quaternion (applyTransform (Some tr))
     = normalize (mirror (normalize (mkQuaternion (asNumber r0 0) (asNumber r1 0)
                                                  (asNumber r2 0) (asNumber r3 1))))) /\
  (forall tr x y z w,
     rotation_of tr = RotObject (Some x) (Some y) (Some z) (Some w) ->
     o_quaternion (applyTransform (Some tr))
     = normalize (mirror (normalize (mkQuaternion (asNumber x 0) (asNumber y 0)
                                                  (asNumber z 0) (asNumber w 1))))) /\
  (forall tr x y z w,
     x * x + y * y + z * z + w * w = 1 ->
     rotation_of tr = RotArray [Num (Fin x); Num (Fin y); Num (Fin z); Num (Fin w)] \/
     rotation_of tr = RotObject (Some (Num (Fin x))) (Some (Num (Fin y)))
                                (Some (Num (Fin z))) (Some (Num (Fin w))) ->
     o_quaternion (applyTransform (Some tr)) = mkQuaternion x (- y) (- z) w) /\
  (forall tr x y z w,
     rotation_of tr = RotObject x y z w ->
     x = None \/ y = None \/ z = None \/ w = None ->
     o_quaternion (applyTransform (Some tr))
     = mirror (setFromEuler (asNumber (property x) 0) (asNumber (property y) 0)
                            (asNumber (property z) 0))) /\
  (forall tr a w,
     rotation_of tr = RotObject (Some (Num (Fin a))) None None w ->
     o_quaternion (applyTransform (Some tr)) = mkQuaternion (sin (a / 2)) 0 0 (cos (a / 2))) /\
  (forall tr b w,
     rotation_of tr = RotObject None (Some (Num (Fin b))) None w ->
     o_quaternion (applyTransform (Some tr))
     = mkQuaternion 0 (- sin (b / 2)) 0 (cos (b / 2))) /\
  (forall tr elems,
     rotation_of tr = RotArray elems -> length elems <> 4%nat ->
     o_quaternion (applyTransform (Some tr)) = identity).
Proof.
  cbv zeta.
  assert (Hflip0 : mkQuaternion 0 (- 0) (- 0) 1 = identity).
  { unfold identity. by rewrite Ropp_0. }
  assert (Hid : normalize (mkQuaternion 0 (- 0) (- 0) 1) = identity).
  { rewrite Hflip0. apply (normalize_unit identity), qlength_identity. }
  assert (Hnone : forall cfg, applyTransformWith cfg None =
     mkObject3D (mkVector3 0 0 0) identity (mkVector3 1 1 1)).
  { intros cfg. unfold applyTransformWith. simpl.
    destruct (mirrorXAxisOnImport cfg); [|reflexivity].
    unfold getVector3, asNumber. simpl. rewrite Hid, Ropp_0. reflexivity. }
  assert (Hq : forall tr,
    o_quaternion (applyTransform (Some tr)) =
    normalize (mkQuaternion (qx (getQuaternion (rotation_of tr)))
                            (- qy (getQuaternion (rotation_of tr)))
                            (- qz (getQuaternion (rotation_of tr)))
                            (qw (getQuaternion (rotation_of tr))))) by reflexivity.
  assert (Heuler : forall tr ex ey ez,
    getQuaternion (rotation_of tr) = setFromEuler ex ey ez ->
    o_quaternion (applyTransform (Some tr)) =
    mkQuaternion (qx (setFromEuler ex ey ez)) (- qy (setFromEuler ex ey ez))
                 (- qz (setFromEuler ex ey ez)) (qw (setFromEuler ex ey ez))).
  { intros tr ex ey ez Hr. rewrite Hq, Hr.
    apply normalize_flip_unit, qlength_setFromEuler. }
  assert (Hunit : forall tr x y z w,
    x * x + y * y + z * z + w * w = 1 ->
    getQuaternion (rotation_of tr) = normalize (mkQuaternion x y z w) ->
    o_quaternion (applyTransform (Some tr)) = mkQuaternion x (- y) (- z) w).
  { intros tr x y z w Hu Hr. rewrite Hq, Hr.
    pose proof (qlength_of_unit x y z w Hu) as Hlen.
    rewrite (normalize_unit _ Hlen). apply (normalize_flip_unit _ Hlen). }
  split; [apply Hnone|]. split.
  { unfold applyTransform, applyTransformWith. simpl.
    unfold getVector3, asNumber. simpl. rewrite Hid, Ropp_0. reflexivity. }
  split; [exact Hnone|]. split.
  { intros [p r sc]. unfold applyTransform, applyTransformWith. simpl.
    split; [|split].
    - intros ->. unfold getVector3, asNumber. simpl. by rewrite Ropp_0.
    - intros ->. simpl. exact Hid.
    - intros ->. reflexivity. }
  split.
  { intros [p r sc] a b c Hp. simpl in Hp. subst p. reflexivity. }
  split.
  { intros [p r sc] a b c Hs. simpl in Hs. subst sc. reflexivity. }
  split; [intros; by repeat split|].
  split.
  { intros tr r0 r1 r2 r3 Hr. rewrite Hq, Hr. reflexivity. }
  split.
  { intros tr x y z w Hr. rewrite Hq, Hr. reflexivity. }
  split.
  { intros tr x y z w Hu [Hr|Hr]; apply (Hunit tr x y z w Hu); by rewrite Hr. }
  split.
  { intros tr x y z w Hr Hmiss. apply Heuler. rewrite Hr.
    destruct x, y, z, w; try reflexivity.
    destruct Hmiss as [H|[H|[H|H]]]; discriminate. }
  split.
  { intros tr a w Hr.
    rewrite (Heuler tr a 0 0) by (rewrite Hr; by destruct w).
    unfold setFromEuler. simpl.
    replace (0 / 2) with 0 by lra. rewrite cos_0, sin_0. f_equal; ring. }
  split.
  { intros tr b w Hr.
    rewrite (Heuler tr 0 b 0) by (rewrite Hr; by destruct w).
    unfold setFromEuler. simpl.
    replace (0 / 2) with 0 by lra. rewrite cos_0, sin_0. f_equal; ring. }
  intros tr elems Hr Hlen.
  assert (He : getQuaternion (rotation_of tr) = setFromEuler 0 0 0).
  { rewrite Hr. destruct elems as [|r0 [|r1 [|r2 [|r3 [|r4 l]]]]]; try reflexivity.
    simpl in Hlen. congruence. }
  rewrite (Heuler tr 0 0 0 He). unfold setFromEuler, identity. simpl.
  replace (0 / 2) with 0 by lra. rewrite cos_0, sin_0. f_equal; ring.
Qed.

(** The theorem at an object that has x (a quarter turn) but no y, z and
    w: the rotation about the x axis by that angle. *)
Lemma applyTransform_defaults_and_rotation_shapes_witness :
  o_quaternion (applyTransform
    (Some (mkTransform None (RotObject (Some (Num (Fin (PI / 2)))) None None None) None)))
  = mkQuaternion (sin (PI / 2 / 2)) 0 0 (cos (PI / 2 / 2)).
Proof.
  exact (proj1 (proj2 (proj2 (proj2 (proj2 (proj2 (proj2 (proj2 (proj2 (proj2 (proj2 (proj2
    applyTransform_defaults_and_rotation_shapes)))))))))))
    (mkTransform None (RotObject (Some (Num (Fin (PI / 2)))) None None None) None)
    (PI / 2) None eq_refl).
Defined.

End TransformFacts.

(** ** Camera fitting *)

Section CameraFacts.
Import Js Transform Camera.
#[local] Open Scope R_scope.

Lemma clamp_range v lo hi : lo <= hi -> lo <= clamp v lo hi <= hi.
Proof.
  intros H. unfold clamp, Rmin, Rmax.
  destruct (Rle_dec lo v); destruct (Rle_dec hi _); lra.
Qed.

(** The tangent of half the field of view of the viewers' cameras. *)
Lemma tan_half_camera_fov : 0 < tan (camera_fov * (PI / 180) / 2) < 1.
Proof.
  unfold camera_fov. pose proof PI_RGT_0 as Hpi. split.
  - rewrite <- tan_0. apply tan_increasing; lra.
  - rewrite <- tan_PI4. apply tan_increasing; lra.
Qed.


Lemma maxDim_x m : 0 <= m -> maxDim (mkVector3 m 0 0) = m.
Proof.
  intros Hm. unfold maxDim, Rmax. simpl.
  destruct (Rle_dec m 0); destruct (Rle_dec _ 0); lra.
Qed.




End CameraFacts.

(** ** The render loop *)

Section RenderLoopFacts.
Import RenderLoop.

Lemma ensureRenderLoopState_matches st : loop_matches (ensureRenderLoopState st).
Proof.
  unfold loop_matches, ensureRenderLoopState.
  destruct st as [m a l f c n]. simpl. destruct a, l, f; reflexivity.
Qed.

Lemma requestRender_matches st : loop_matches (requestRender st).
Proof. apply ensureRenderLoopState_matches. Qed.

Lemma registerModelAnimations_matches clips st :
  loop_matches st -> loop_matches (registerModelAnimations clips st).
Proof.
  unfold loop_matches, registerModelAnimations.
  destruct st as [m a l f c n]. simpl. intros ->.
  destruct (Nat.eqb clips 0), a, f; reflexivity.
Qed.

Lemma renderFrame_matches needResize st :
  loop_matches st -> loop_matches (renderFrame needResize st).
Proof.
  unfold loop_matches, renderFrame.
  destruct st as [m a l f c n]. simpl. intros ->.
  destruct needResize, a, f; reflexivity.
Qed.

Lemma apply_matches e st : loop_matches st -> loop_matches (apply e st).
Proof.
  destruct e as [|clips|needResize]; simpl; intros H.
  - apply requestRender_matches.
  - by apply registerModelAnimations_matches.
  - destruct (renderLoopActive st) eqn:Ha; [by apply renderFrame_matches|exact H].
Qed.

Lemma run_matches events st : loop_matches st -> loop_matches (run events st).
Proof.
  unfold run. revert st. induction events as [|e events IH]; intros st H; simpl; [exact H|].
  apply IH. by apply apply_matches.
Qed.

(** C6.  After the script's first [requestRender] and any sequence of
    calls of [requestRender], [registerModelAnimations] and animation
    frames, [renderLoopActive] equals
    [hasAnimatedModels || frameRequested].  After a frame callback in such
    a state the flag [frameRequested] is false; a frame was drawn if the
    flag was set, the canvas was resized or a model is animated; the loop
    is still installed exactly when a model is animated. *)
Theorem render_loop_active_when_needed (events : list RenderLoop.event) (needResize : bool) :
  let st := run events started in
  let st' := renderFrame needResize st in
  loop_matches st /\
  loop_matches (requestRender st) /\
  (forall clips, loop_matches (registerModelAnimations clips st)) /\
  loop_matches st' /\
  frameRequested st' = false /\
  frames st' =
    (if frameRequested st || needResize || hasAnimatedModels st
     then S (frames st) else frames st) /\
  hasAnimatedModels st' = hasAnimatedModels st /\
  renderLoopActive st' = hasAnimatedModels st /\
  (hasAnimatedModels st = true -> renderLoopActive st' = true /\ frames st' = S (frames st)).
Proof.
  intros st st'.
  assert (Hst : loop_matches st) by apply run_matches, requestRender_matches.
  split; [exact Hst|]. split; [apply requestRender_matches|].
  split; [intros; by apply registerModelAnimations_matches|].
  split; [by apply renderFrame_matches|].
  subst st'. revert Hst. generalize st. clear st. intros st.
  unfold loop_matches, renderFrame. destruct st as [m a l f c n]. simpl. intros ->.
  destruct needResize, a, f; simpl; repeat split; try reflexivity; intros; discriminate.
Qed.

(** The theorem after a model with one clip was added. *)
Lemma render_loop_active_when_needed_witness :
  renderLoopActive
    (renderFrame false (run [RegisterModelAnimations 1] started)) = true.
Proof.
  exact (proj1 (proj2 (proj2 (proj2 (proj2 (proj2 (proj2 (proj2 (proj2
    (render_loop_active_when_needed [RegisterModelAnimations 1] false)))))))) eq_refl)).
Defined.

End RenderLoopFacts.

(** *** An induction principle for properties of the shared state

    A property of the shared state, the counter and the suspended worker
    calls (in any order) holds whenever [runWithConcurrency] is suspended,
    if calling the worker on the next item and continuing a suspended call
    preserve it. *)

Section RunnerInvariant.
Import Runner.
Context {A Sh K : Type}.
Variable items : list A.
Variable wstart : A -> Sh -> Sh * wres K.
Variable wresume : K -> Sh -> Sh * wres K.
Variable P : Sh -> nat -> list K -> Prop.
Hypothesis P_perm : forall s i ks ks', ks ≡ₚ ks' -> P s i ks -> P s i ks'.
Hypothesis P_start : forall s i ks x,
  P s i ks -> items !! i = Some x ->
  P (wstart x s).1 (S i) (ks ++ suspended_of (wstart x s).2).
Hypothesis P_resume : forall s i ks k,
  P s i (k :: ks) -> P (wresume k s).1 i (suspended_of (wresume k s).2 ++ ks).

Lemma pending_settle (r : wres K) :
  option_list (pending_of (Awaiting (settle r))) = suspended_of r.
Proof. by destruct r. Qed.

Lemma omap_split (l : list (rstate K)) id r :
  l !! id = Some r ->
  omap pending_of l ≡ₚ
    option_list (pending_of r) ++ omap pending_of (take id l ++ drop (S id) l).
Proof.
  intros Hid. rewrite <- (take_drop_middle _ _ _ Hid) at 1.
  rewrite !omap_app. simpl.
  destruct (pending_of r) as [k|]; simpl; [|reflexivity].
  by rewrite Permutation_middle.
Qed.

Lemma omap_insert (l : list (rstate K)) id r r' :
  l !! id = Some r ->
  omap pending_of (<[id := r']> l) ≡ₚ
    option_list (pending_of r') ++ omap pending_of (take id l ++ drop (S id) l).
Proof.
  intros Hid.
  assert (Hlt : id < length l) by (by apply lookup_lt_Some in Hid).
  rewrite (omap_split (<[id := r']> l) id r')
    by (by apply list_lookup_insert_eq).
  rewrite take_insert_ge by lia. rewrite drop_insert_lt by lia. reflexivity.
Qed.

Let Q (st : state Sh K) : Prop := P (shared st) (index st) (pending st).

Lemma omap_settle (r : wres K) :
  omap pending_of [Awaiting (settle r)] = suspended_of r.
Proof. by destruct r. Qed.

Lemma spawn_invariant st : Q st -> Q (Runner.spawn items wstart st).
Proof.
  unfold Q, Runner.spawn. intros H.
  destruct (items !! index st) as [x|] eqn:Hx.
  - rewrite (runner_claim _ _ _ _ _ Hx). unfold pending.
    cbn [shared index runners]. rewrite omap_app, omap_settle. by apply P_start.
  - rewrite (runner_exit _ _ _ _ Hx). unfold pending.
    cbn [shared index runners]. rewrite omap_app. simpl. by rewrite app_nil_r.
Qed.

Lemma step_invariant id st st' :
  Runner.step items wstart wresume id st = Some st' -> Q st -> Q st'.
Proof.
  unfold Q, Runner.step, pending. intros Hs H.
  destruct (runners st !! id) as [[[k| |]| |]|] eqn:Hid; try discriminate.
  - pose proof (P_resume (shared st) (index st)
                  (omap pending_of (take id (runners st) ++ drop (S id) (runners st))) k) as Hr.
    destruct (wresume k (shared st)) as [s' r] eqn:Hw. inversion Hs; subst; clear Hs.
    simpl in *. eapply P_perm.
    + symmetry. rewrite (omap_insert _ _ _ _ Hid), pending_settle. reflexivity.
    + apply Hr. eapply P_perm; [|exact H]. by rewrite (omap_split _ _ _ Hid).
  - destruct (items !! index st) as [x|] eqn:Hx.
    + rewrite (runner_claim _ _ _ _ _ Hx) in Hs. inversion Hs; subst; clear Hs.
      simpl. eapply P_perm.
      * symmetry. rewrite (omap_insert _ _ _ _ Hid), pending_settle.
        apply Permutation_app_comm.
      * apply P_start; [|exact Hx].
        eapply P_perm; [|exact H]. by rewrite (omap_split _ _ _ Hid).
    + rewrite (runner_exit _ _ _ _ Hx) in Hs. inversion Hs; subst; clear Hs.
      simpl. eapply P_perm; [|exact H].
      by rewrite (omap_split _ _ _ Hid), (omap_insert _ _ _ _ Hid).
  - inversion Hs; subst; clear Hs. simpl. eapply P_perm; [|exact H].
    by rewrite (omap_split _ _ _ Hid), (omap_insert _ _ _ _ Hid).
Qed.

Lemma batch_invariant concurrency s0 st :
  P s0 0 [] ->
  rtc (Runner.Step items wstart wresume) (Runner.runWithConcurrency items wstart concurrency s0) st ->
  P (shared st) (index st) (pending st).
Proof.
  intros H0 Hst.
  assert (Hinit : Q (Runner.runWithConcurrency items wstart concurrency s0)).
  { unfold Runner.runWithConcurrency.
    induction (Z.to_nat (safeConcurrency concurrency (length items))) as [|n IH]; simpl.
    - exact H0.
    - by apply spawn_invariant. }
  induction Hst as [|x y z [id Hs] _ IH]; [exact Hinit|].
  apply IH. eapply step_invariant; eauto.
Qed.

Lemma quiescent_pending (st : state Sh K) : quiescent st -> pending st = [].
Proof.
  unfold quiescent, pending. induction (runners st) as [|r l IH]; simpl; [done|].
  intros H. apply andb_prop in H as [Hr Hl]. destruct r as [p| |]; simpl in *;
    try discriminate; by apply IH.
Qed.

End RunnerInvariant.

(** ** The inventory viewer *)

Section InventoryFacts.
Import Runner Inventory.
Variable net : network.

Lemma truthy_Some value s : truthy value = Some s -> truthy (Some s) = Some s.
Proof.
  destruct value as [s'|]; simpl; [|discriminate].
  destruct (String.eqb s' EmptyString) eqn:He; [discriminate|].
  intros H. inversion H; subst. simpl. by rewrite He.
Qed.

(** A reason is never the empty string. *)
Lemma reason_truthy message : truthy (Some (reason message)) = Some (reason message).
Proof.
  unfold reason. destruct (truthy message) as [s|] eqn:Hm; simpl.
  - by apply truthy_Some in Hm.
  - reflexivity.
Qed.

Lemma reason_reason message : reason (Some (reason message)) = reason message.
Proof. unfold reason at 1. by rewrite reason_truthy. Qed.

Lemma unsupported_truthy asset :
  truthy (Some (unsupported_message asset)) = Some (unsupported_message asset).
Proof. reflexivity. Qed.

(** *** The caches *)

Lemma loadTextureByFile_sound f c :
  cache_sound net c ->
  cache_sound net (loadTextureByFile net f c).2 /\
  settles (loadTextureByFile net f c).1 = texture_outcome (textureLoader net f).
Proof.
  intros (Ht & Hm & Htl & Hml & Hnt & Hnm). unfold loadTextureByFile.
  destruct (texturePromiseCache c !! f) as [p|] eqn:Hf; simpl.
  - split; [by repeat split|]. eauto.
  - split; [|reflexivity]. repeat split; simpl; try assumption.
    + intros g p Hg. apply lookup_insert_Some in Hg as [[<- <-]|[_ Hg]]; [done|eauto].
    + intros g Hg. apply elem_of_app in Hg as [Hg|Hg].
      * destruct (decide (f = g)) as [<-|Hne].
        -- rewrite lookup_insert_eq. eauto.
        -- rewrite lookup_insert_ne by done. auto.
      * apply list_elem_of_singleton in Hg as ->. rewrite lookup_insert_eq. eauto.
    + apply NoDup_app. split; [done|]. split; [|apply NoDup_singleton].
      intros g Hg Hg'. apply list_elem_of_singleton in Hg' as ->.
      apply Htl in Hg as [p Hp]. congruence.
Qed.

Lemma loadModelTemplate_sound f c :
  cache_sound net c ->
  cache_sound net (loadModelTemplate net f c).2 /\
  settles (loadModelTemplate net f c).1 = model_outcome (gltfLoader net f).
Proof.
  intros (Ht & Hm & Htl & Hml & Hnt & Hnm). unfold loadModelTemplate.
  destruct (modelTemplateCache c !! f) as [p|] eqn:Hf; simpl.
  - split; [by repeat split|]. eauto.
  - split; [|reflexivity]. repeat split; simpl; try assumption.
    + intros g p Hg. apply lookup_insert_Some in Hg as [[<- <-]|[_ Hg]]; [done|eauto].
    + intros g Hg. apply elem_of_app in Hg as [Hg|Hg].
      * destruct (decide (f = g)) as [<-|Hne].
        -- rewrite lookup_insert_eq. eauto.
        -- rewrite lookup_insert_ne by done. auto.
      * apply list_elem_of_singleton in Hg as ->. rewrite lookup_insert_eq. eauto.
    + apply NoDup_app. split; [done|]. split; [|apply NoDup_singleton].
      intros g Hg Hg'. apply list_elem_of_singleton in Hg' as ->.
      apply Hml in Hg as [p Hp]. congruence.
Qed.

(** *** One call of [handleAsset] *)

Lemma handleAsset_spec asset v :
  cache_sound net (cache v) ->
  exists k,
    (handleAsset net asset v).2 = Suspend k /\
    pend k = [placed_node net asset] /\ early k = 0 /\
    totals (handleAsset net asset v).1 = totals v /\
    world (handleAsset net asset v).1 = world v /\
    cache_sound net (cache (handleAsset net asset v).1).
Proof.
  intros Hc. unfold handleAsset, placed_node.
  destruct (is_type "model" asset).
  - destruct (truthy (mapped_file asset)) as [f|].
    + destruct (loadModelTemplate_sound f _ Hc) as [Hc' Hp].
      destruct (loadModelTemplate net f (cache v)) as [p c]. simpl in *.
      eexists. split; [reflexivity|]. simpl. rewrite Hp.
      destruct (model_outcome (gltfLoader net f)); repeat (split; [reflexivity|]); exact Hc'.
    + eexists. split; [reflexivity|]. repeat (split; [reflexivity|]). exact Hc.
  - destruct (is_type "image" asset).
    + destruct (truthy (mapped_file asset)) as [f|].
      * destruct (loadTextureByFile_sound f _ Hc) as [Hc' Hp].
        destruct (loadTextureByFile net f (cache v)) as [p c]. simpl in *.
        eexists. split; [reflexivity|]. simpl. rewrite Hp.
        destruct (texture_outcome (textureLoader net f)); repeat (split; [reflexivity|]); exact Hc'.
      * eexists. split; [reflexivity|]. repeat (split; [reflexivity|]). exact Hc.
    + eexists. split; [reflexivity|]. repeat (split; [reflexivity|]). exact Hc.
Qed.

Lemma handleAsset_finally_spec v :
  totals (handleAsset_finally v).1 =
    mkTotals (total (totals v)) (ok (totals v)) (fallback (totals v)) (S (loaded (totals v))) /\
  world (handleAsset_finally v).1 = world v /\
  cache (handleAsset_finally v).1 = cache v /\
  ((handleAsset_finally v).2 = Return \/ (handleAsset_finally v).2 = Suspend InNextFrame).
Proof.
  unfold handleAsset_finally.
  repeat match goal with |- context [if ?b then _ else _] => destruct b end;
    simpl; repeat split; auto.
Qed.

Lemma handleAsset_resume_spec k v :
  cache (handleAsset_resume k v).1 = cache v /\
  total (totals (handleAsset_resume k v).1) = total (totals v) /\
  (ok (totals v) + fallback (totals v) = loaded (totals v) ->
   ok (totals (handleAsset_resume k v).1) + fallback (totals (handleAsset_resume k v).1) =
   loaded (totals (handleAsset_resume k v).1)) /\
  length (world (handleAsset_resume k v).1) + early k + loaded (totals v) =
    length (world v) + sum_list_with early (suspended_of (handleAsset_resume k v).2) +
    loaded (totals (handleAsset_resume k v).1) /\
  world (handleAsset_resume k v).1 ++ (suspended_of (handleAsset_resume k v).2 ≫= pend) =
    world v ++ pend k /\
  (fallback (totals v) = sum_list_with placeholder (world v) ->
   fallback (totals (handleAsset_resume k v).1) =
   sum_list_with placeholder (world (handleAsset_resume k v).1)) /\
  (handleAsset_resume k v).2 <> Throw.
Proof.
  destruct k as [asset f p|asset f p|asset thrown|asset [message|]|]; simpl.
  - destruct (settles p); simpl;
      rewrite ?length_app, ?app_nil_r, ?sum_list_with_app; simpl;
      repeat split; auto; lia.
  - destruct (settles p); simpl;
      rewrite ?length_app, ?app_nil_r, ?sum_list_with_app; simpl;
      repeat split; auto; lia.
  - destruct thrown; simpl; rewrite ?app_nil_r; repeat split; auto; lia.
  - match goal with |- context [handleAsset_finally ?w] =>
      pose proof (handleAsset_finally_spec w) as (Ht & Hw & Hc & Hr);
      destruct (handleAsset_finally w) as [v' r] end.
    simpl in *. rewrite Ht, Hw, Hc. simpl.
    pose proof (reason_reason message) as Hrr. unfold reason at 1 in Hrr.
    simpl in Hrr. unfold reason in Hrr |- *. rewrite Hrr.
    rewrite length_app, sum_list_with_app. simpl.
    destruct Hr as [-> | ->]; simpl; rewrite ?app_nil_r; repeat split; auto; lia.
  - match goal with |- context [handleAsset_finally ?w] =>
      pose proof (handleAsset_finally_spec w) as (Ht & Hw & Hc & Hr);
      destruct (handleAsset_finally w) as [v' r] end.
    simpl in *. rewrite Ht, Hw, Hc. simpl.
    destruct Hr as [-> | ->]; simpl; rewrite ?app_nil_r; repeat split; auto; lia.
  - rewrite app_nil_r. repeat split; auto.
Qed.

(** [handleAsset] never rejects, and settles within four suspensions. *)
Lemma handleAsset_ok asset v : (handleAsset net asset v).2 <> Throw.
Proof.
  unfold handleAsset.
  destruct (is_type "model" asset); [|destruct (is_type "image" asset)];
    try destruct (truthy (mapped_file asset));
    try destruct (loadModelTemplate _ _ _); try destruct (loadTextureByFile _ _ _);
    discriminate.
Qed.

Lemma handleAsset_resume_ok k v : (handleAsset_resume k v).2 <> Throw.
Proof. apply handleAsset_resume_spec. Qed.

Lemma handleAsset_fuel asset v k :
  (handleAsset net asset v).2 = Suspend k -> handle_fuel k <= 3.
Proof. intros _. destruct k; simpl; lia. Qed.

Lemma handleAsset_resume_fuel k v k' :
  (handleAsset_resume k v).2 = Suspend k' -> handle_fuel k' < handle_fuel k.
Proof.
  destruct k as [asset f p|asset f p|asset thrown|asset [message|]|]; simpl.
  - destruct (settles p); intros H; inversion H; simpl; lia.
  - destruct (settles p); intros H; inversion H; simpl; lia.
  - intros H; inversion H; simpl; lia.
  - match goal with |- context [handleAsset_finally ?w] =>
      destruct (handleAsset_finally_spec w) as (_ & _ & _ & [Hr|Hr]) end;
      rewrite Hr; intros H; inversion H; simpl; lia.
  - match goal with |- context [handleAsset_finally ?w] =>
      destruct (handleAsset_finally_spec w) as (_ & _ & _ & [Hr|Hr]) end;
      rewrite Hr; intros H; inversion H; simpl; lia.
  - discriminate.
Qed.

End InventoryFacts.

(** *** A batch *)

Section BatchFacts.
Import Runner Inventory.
Variable net : network.
Variable n : nat.
Variable base : list node.
Variable items : list Asset.

Lemma batch_inv_perm v i ks ks' :
  ks ≡ₚ ks' -> batch_inv net n base items v i ks -> batch_inv net n base items v i ks'.
Proof.
  intros Hp (Hc & Ht & Hs & Hl & Hf & Hw).
  split; [done|]. split; [done|]. split; [done|].
  split; [by rewrite <- Hp|]. split; [done|]. by rewrite <- Hp.
Qed.

Lemma batch_inv_start v i ks x :
  batch_inv net n base items v i ks -> items !! i = Some x ->
  batch_inv net n base items (handleAsset net x v).1 (S i)
            (ks ++ suspended_of (handleAsset net x v).2).
Proof.
  intros (Hc & Ht & Hs & Hl & Hf & Hw) Hx.
  destruct (handleAsset_spec net x v Hc) as (k & Hk & Hpend & Hearly & Htot & Hwo & Hc').
  rewrite Hk. simpl. unfold batch_inv. rewrite Htot, Hwo.
  split; [done|]. split; [done|]. split; [done|].
  split; [rewrite sum_list_with_app; simpl; lia|]. split; [done|].
  rewrite bind_app, (take_S_r _ _ _ Hx), fmap_app. simpl.
  rewrite app_nil_r, Hpend, !app_assoc. by rewrite Hw.
Qed.

Lemma batch_inv_resume v i ks k :
  batch_inv net n base items v i (k :: ks) ->
  batch_inv net n base items (handleAsset_resume k v).1 i
            (suspended_of (handleAsset_resume k v).2 ++ ks).
Proof.
  intros (Hc & Ht & Hs & Hl & Hf & Hw).
  destruct (handleAsset_resume_spec k v) as (Hc' & Ht' & Hs' & Hl' & Hw' & Hf' & _).
  unfold batch_inv. rewrite Hc', Ht'.
  split; [done|]. split; [done|]. split; [auto|].
  split; [rewrite sum_list_with_app; simpl in Hl; lia|]. split; [auto|].
  rewrite bind_app, app_assoc, Hw', <- app_assoc. by rewrite <- Hw.
Qed.

Lemma batch_reachable concurrency v0 st :
  batch_inv net n base items v0 0 [] ->
  rtc (batch_step net items) (runWithConcurrency items (handleAsset net) concurrency v0) st ->
  batch_inv net n base items (shared st) (index st) (pending st).
Proof.
  intros H0 Hst.
  apply (batch_invariant items (handleAsset net) handleAsset_resume
           (batch_inv net n base items)) with (concurrency := concurrency) (s0 := v0).
  - intros. eapply batch_inv_perm; eauto.
  - intros. by apply batch_inv_start.
  - intros. by apply batch_inv_resume.
  - exact H0.
  - exact Hst.
Qed.

(** No runner of a batch is stopped by an exception. *)
Lemma batch_never_fails concurrency v0 st :
  rtc (batch_step net items) (runWithConcurrency items (handleAsset net) concurrency v0) st ->
  ~ has_failed st.
Proof.
  intros Hst [id Hid].
  pose proof (reachable_healthy items (handleAsset net) handleAsset_resume
                (handleAsset_ok net) handleAsset_resume_ok _ _ _ Hst) as Hh.
  eapply Forall_lookup_1 in Hh; [|exact Hid]. discriminate.
Qed.

Lemma resolved_quiescent (st : state viewer suspended) : resolved st -> quiescent st.
Proof.
  unfold resolved, quiescent. induction (runners st) as [|r l IH]; simpl; [done|].
  intros H. apply andb_prop in H as [Hr Hl]. rewrite (IH Hl), andb_true_r.
  by destruct r.
Qed.

Lemma resolved_index concurrency v0 st :
  rtc (batch_step net items) (runWithConcurrency items (handleAsset net) concurrency v0) st ->
  resolved st -> index st = length items.
Proof.
  intros Hst Hres.
  destruct (reachable_consistent _ _ _ _ _ _ Hst) as (Hi & _ & Hd & _).
  pose proof (reachable_length _ _ _ _ _ _ Hst) as Hlen.
  pose proof (safeConcurrency_pos concurrency (length items)) as Hpos.
  assert (H0 : 0 < length (runners st)) by lia.
  pose proof (Hd 0 (resolved_done _ _ Hres H0)). lia.
Qed.

(** A batch can always be run to its end, where [Promise.all] fulfils and
    every item was handled. *)
Lemma batch_completes concurrency v0 st :
  rtc (batch_step net items) (runWithConcurrency items (handleAsset net) concurrency v0) st ->
  exists st', rtc (batch_step net items) st st' /\ resolved st'.
Proof.
  intros Hst.
  destruct (runs_complete items (handleAsset net) handleAsset_resume handle_fuel 3
              (handleAsset_fuel net) handleAsset_resume_fuel st) as (st' & Hrun & Hq).
  exists st'. split; [exact Hrun|].
  apply quiescent_healthy_resolved; [exact Hq|].
  eapply (reachable_healthy items (handleAsset net) handleAsset_resume
            (handleAsset_ok net) handleAsset_resume_ok).
  etrans; eauto.
Qed.

Lemma batch_end concurrency v0 st :
  batch_inv net n base items v0 0 [] ->
  rtc (batch_step net items) (runWithConcurrency items (handleAsset net) concurrency v0) st ->
  resolved st ->
  batch_inv net n base items (shared st) (length items) [].
Proof.
  intros H0 Hst Hres.
  pose proof (batch_reachable _ _ _ H0 Hst) as H.
  rewrite (resolved_index _ _ _ Hst Hres) in H.
  by rewrite (quiescent_pending _ (resolved_quiescent _ Hres)) in H.
Qed.

End BatchFacts.

(** *** [main] *)

Section MainFacts.
Import Runner Inventory.
Variable net : network.
Variable assets : list (option Asset).

Abbreviation models := (modelAssets assets).
Abbreviation images := (imageAssets assets).
Abbreviation base1 := (other_nodes assets ++ (placed_node net <$> modelAssets assets)).

Lemma not_model_and_image asset :
  is_type "model" asset = true -> is_type "image" asset = true -> False.
Proof.
  unfold is_type. destruct (assetType asset) as [s|]; [|discriminate].
  intros H1 H2. apply String.eqb_eq in H1, H2. congruence.
Qed.

Lemma partition_nodes (l : list (option Asset)) :
  final_node net <$> l ≡ₚ
    other_nodes l ++ (placed_node net <$> modelAssets l) ++ (placed_node net <$> imageAssets l).
Proof.
  unfold other_nodes, otherAssets, modelAssets, imageAssets.
  induction l as [|a l IH]; [reflexivity|].
  destruct a as [asset|]; cbn [fmap list_fmap final_node is_other omap list_omap mbind
                                 option_bind List.filter].
  - destruct (is_type "model" asset) eqn:Hm; destruct (is_type "image" asset) eqn:Hi;
      cbn [negb andb fmap list_fmap].
    + destruct (not_model_and_image _ Hm Hi).
    + rewrite IH, <- app_comm_cons. apply Permutation_middle.
    + rewrite IH, (app_assoc _ _ (_ :: _)), <- Permutation_middle.
      by rewrite <- app_assoc.
    + rewrite IH. reflexivity.
  - rewrite IH. reflexivity.
Qed.

Lemma partition_lengths (l : list (option Asset)) :
  length (otherAssets l) + length (modelAssets l) + length (imageAssets l) = length l.
Proof.
  pose proof (Permutation_length (partition_nodes l)) as H.
  unfold other_nodes in H. rewrite !length_app, !length_fmap in H. lia.
Qed.

Lemma sum_placeholder_others (l : list (option Asset)) :
  sum_list_with placeholder ((fun other => fallback_node other "unsupported type") <$> l)
  = length l.
Proof.
  induction l as [|a l IH]; [reflexivity|].
  rewrite fmap_cons. simpl in *. by rewrite IH.
Qed.

Lemma fold_other_fallback (others : list (option Asset)) v :
  let v' := fold_left other_fallback others v in
  totals v' = mkTotals (total (totals v)) (ok (totals v))
                       (fallback (totals v) + length others)
                       (loaded (totals v) + length others) /\
  world v' = world v ++ ((fun other => fallback_node other "unsupported type") <$> others) /\
  cache v' = cache v.
Proof.
  revert v. induction others as [|o others IH]; intros v; simpl.
  - rewrite !Nat.add_0_r, app_nil_r. by destruct (totals v).
  - destruct (IH (other_fallback v o)) as (Ht & Hw & Hc).
    rewrite Ht, Hw, Hc. simpl. rewrite <- app_assoc. simpl.
    repeat split; f_equal; lia.
Qed.

Lemma cache_sound_empty : cache_sound net no_caches.
Proof.
  unfold cache_sound. simpl. split; [|split; [|split; [|split; [|split]]]].
  - intros f p H. by rewrite lookup_empty in H.
  - intros f p H. by rewrite lookup_empty in H.
  - intros f H. by apply not_elem_of_nil in H.
  - intros f H. by apply not_elem_of_nil in H.
  - apply NoDup_nil_2.
  - apply NoDup_nil_2.
Qed.

Lemma loading_inv r :
  batch_inv net (length assets) (other_nodes assets) models (loading assets (fresh r)) 0 [].
Proof.
  unfold loading.
  match goal with |- context [fold_left other_fallback ?o ?v] =>
    destruct (fold_other_fallback o v) as (Ht & Hw & Hc) end.
  simpl in *. unfold batch_inv. rewrite Ht, Hw, Hc. simpl.
  split; [apply cache_sound_empty|]. split; [done|]. split; [done|].
  split; [rewrite length_fmap; lia|].
  split; [by rewrite sum_placeholder_others|].
  by rewrite !app_nil_r.
Qed.

Lemma main_inv_start r : main_inv net assets (main net assets (fresh r)).
Proof. simpl. exists r. apply rtc_refl. Qed.

Lemma main_inv_step m m' :
  main_inv net assets m -> main_step net assets m m' -> main_inv net assets m'.
Proof.
  intros Hm Hs. destruct Hs as [st st' Hs|st Hres|st Hf|st st' Hs|st Hres|st Hf]; simpl in *.
  - destruct Hm as [r Hm]. exists r. eapply rtc_r; eauto.
  - destruct Hm as [r Hm]. exists (shared st). split; [|apply rtc_refl].
    pose proof (batch_end net _ _ _ _ _ _ (loading_inv r) Hm Hres)
      as (Hc & Ht & Hk & Hl & Hfb & Hw).
    split; [done|]. split; [done|]. split; [done|]. split; [done|]. split; [done|].
    rewrite take_ge in Hw by done. simpl in *. by rewrite !app_nil_r in *.
  - destruct Hm as [r Hm]. by apply batch_never_fails in Hm.
  - destruct Hm as (v1 & H1 & Hrun). exists v1. split; [done|]. eapply rtc_r; eauto.
  - destruct Hm as (v1 & H1 & Hrun). exists (shared st). split; [reflexivity|].
    by apply (batch_end net _ _ _ _ _ _ H1 Hrun).
  - destruct Hm as (v1 & H1 & Hrun). by apply batch_never_fails in Hrun.
Qed.

Lemma main_reachable r m :
  rtc (main_step net assets) (main net assets (fresh r)) m -> main_inv net assets m.
Proof.
  intros H. pose proof (main_inv_start r) as H0.
  induction H as [|x y z Hs _ IH]; [assumption|].
  apply IH. eapply main_inv_step; eauto.
Qed.

(** What the invariant says of the viewer. *)
Lemma main_inv_viewer m :
  main_inv net assets m ->
  exists base items i ks,
    batch_inv net (length assets) base items (viewer_of m) i ks \/
    (exists v2, viewer_of m = finish v2 /\
                batch_inv net (length assets) base items v2 i ks).
Proof.
  destruct m as [st|st|v|v]; simpl; intros Hm.
  - destruct Hm as [r Hm].
    exists (other_nodes assets), models, (index st), (pending st). left.
    exact (batch_reachable net _ _ _ _ _ _ (loading_inv r) Hm).
  - destruct Hm as (v1 & H1 & Hrun).
    exists base1, images, (index st), (pending st). left.
    exact (batch_reachable net _ _ _ _ _ _ H1 Hrun).
  - destruct Hm as (v2 & -> & H2). exists base1, images, (length images), []. right. eauto.
  - destruct Hm.
Qed.

Lemma lift_models st st' :
  rtc (batch_step net models) st st' ->
  rtc (main_step net assets) (InModels st) (InModels st').
Proof.
  induction 1 as [|x y z Hs _ IH]; [apply rtc_refl|].
  eapply rtc_l; [by apply models_step|exact IH].
Qed.

Lemma lift_images st st' :
  rtc (batch_step net images) st st' ->
  rtc (main_step net assets) (InImages st) (InImages st').
Proof.
  induction 1 as [|x y z Hs _ IH]; [apply rtc_refl|].
  eapply rtc_l; [by apply images_step|exact IH].
Qed.

(** [main] can always be continued to its end. *)
Lemma main_finishes m :
  main_inv net assets m -> exists v, rtc (main_step net assets) m (Finished v).
Proof.
  assert (Himg : forall v1 st,
    rtc (batch_step net images) (runWithConcurrency images (handleAsset net) IMAGE_CONCURRENCY v1) st ->
    exists v, rtc (main_step net assets) (InImages st) (Finished v)).
  { intros v1 st Hrun. destruct (batch_completes net _ _ _ _ Hrun) as (st' & Hrun' & Hres).
    exists (finish (shared st')). eapply rtc_trans; [by apply lift_images|].
    apply rtc_once. by apply images_resolved. }
  destruct m as [st|st|v|v]; simpl; intros Hm.
  - destruct Hm as [r Hm].
    destruct (batch_completes net _ _ _ _ Hm) as (st' & Hrun' & Hres).
    destruct (Himg (shared st') _ (rtc_refl _ _)) as [v Hv].
    exists v. eapply rtc_trans; [by apply lift_models|].
    eapply rtc_l; [by apply models_resolved|exact Hv].
  - destruct Hm as (v1 & _ & Hrun). eauto.
  - exists v. apply rtc_refl.
  - destruct Hm.
Qed.

End MainFacts.

(** *** The claims about the loading pipeline *)

Section PipelineClaims.
Import Runner Inventory.

Lemma load_failure_placed_node net asset why :
  load_failure net asset = Some why -> placed_node net asset = fallback_node (Some asset) why.
Proof.
  unfold load_failure, placed_node.
  destruct (is_type "model" asset); simpl.
  - destruct (truthy (mapped_file asset)) as [f|]; [|by intros [= <-]].
    destruct (model_outcome (gltfLoader net f)); [discriminate|by intros [= <-]].
  - destruct (is_type "image" asset); simpl; [|by intros [= <-]].
    destruct (truthy (mapped_file asset)) as [f|]; [|by intros [= <-]].
    destruct (texture_outcome (textureLoader net f)); [discriminate|by intros [= <-]].
Qed.

Lemma failure_final_node net a why :
  failure net a = Some why -> final_node net a = fallback_node a why.
Proof.
  destruct a as [asset|]; simpl; [|by intros [= <-]].
  destruct (negb (is_type "model" asset) && negb (is_type "image" asset));
    [by intros [= <-]|apply load_failure_placed_node].
Qed.

Lemma placeholder_final_node net a :
  placeholder (final_node net a) = match failure net a with Some _ => 1 | None => 0 end.
Proof.
  destruct (failure net a) as [why|] eqn:Hf.
  - by rewrite (failure_final_node _ _ _ Hf).
  - destruct a as [asset|]; simpl in *; [|discriminate].
    destruct (negb (is_type "model" asset) && negb (is_type "image" asset));
      [discriminate|].
    unfold load_failure, placed_node in *.
    destruct (is_type "model" asset); simpl in *.
    + destruct (truthy (mapped_file asset)) as [f|]; [|discriminate].
      by destruct (model_outcome (gltfLoader net f)).
    + destruct (is_type "image" asset); simpl in *; [|discriminate].
      destruct (truthy (mapped_file asset)) as [f|]; [|discriminate].
      by destruct (texture_outcome (textureLoader net f)).
Qed.

Lemma sum_placeholder_final net (l : list (option Asset)) :
  sum_list_with placeholder (final_node net <$> l) = failures net l.
Proof.
  unfold failures. induction l as [|a l IH]; [reflexivity|].
  rewrite fmap_cons. simpl in *. by rewrite IH, placeholder_final_node.
Qed.

(** What holds of the viewer with which [main] ends. *)
Lemma finished_viewer net assets v :
  main_inv net assets (Finished v) ->
  loaded (totals v) = length assets /\
  total (totals v) = length assets /\
  fallback (totals v) = failures net assets /\
  world v ≡ₚ final_node net <$> assets.
Proof.
  intros (v2 & -> & (Hc & Ht & Hk & Hl & Hf & Hw)). simpl.
  rewrite take_ge in Hw by done. simpl in Hw, Hl. rewrite app_nil_r in Hw.
  assert (Hperm : world v2 ≡ₚ final_node net <$> assets).
  { rewrite Hw, <- app_assoc. symmetry. apply partition_nodes. }
  split; [|split; [done|split]].
  - rewrite Nat.add_0_r in Hl. rewrite <- Hl, Hperm. apply length_fmap.
  - by rewrite Hf, Hperm, sum_placeholder_final.
  - exact Hperm.
Qed.

(** C9.  Whenever [main] is suspended while it loads the inventory (and
    when it has ended), [totals.ok + totals.fallback = totals.loaded] and
    [totals.total] is the number of entries of the inventory; [main] can
    always be continued to its end, it never rejects, and at its end
    [totals.loaded = totals.total]. *)
Theorem totals_add_up
  (net : network) (assets : list (option Asset)) (r : RenderLoop.state) (m : main_state) :
  rtc (main_step net assets) (main net assets (fresh r)) m ->
  ok (totals (viewer_of m)) + fallback (totals (viewer_of m)) = loaded (totals (viewer_of m)) /\
  total (totals (viewer_of m)) = length assets /\
  (forall v, m = Finished v ->
     loaded (totals v) = total (totals v) /\ loaded (totals v) = length assets) /\
  (exists v, rtc (main_step net assets) m (Finished v)) /\
  (forall v, m <> Aborted v).
Proof.
  intros Hm. apply main_reachable in Hm.
  split; [|split; [|split; [|split]]].
  - destruct (main_inv_viewer _ _ _ Hm) as (base & items & i & ks & [H|(v2 & -> & H)]);
      by destruct H as (_ & _ & Hk & _).
  - destruct (main_inv_viewer _ _ _ Hm) as (base & items & i & ks & [H|(v2 & -> & H)]);
      by destruct H as (_ & Ht & _).
  - intros v ->. destruct (finished_viewer _ _ _ Hm) as (Hl & Ht & _). by rewrite Hl, Ht.
  - by apply main_finishes.
  - intros v ->. destruct Hm.
Qed.

(** The demo inventory runs to its end. *)
Lemma demo_reaches_end :
  rtc (main_step demo_net demo_assets)
      (main demo_net demo_assets (fresh RenderLoop.started))
      (Finished (finish (shared demo_images_end))).
Proof.
  apply rtc_trans with (InModels demo_models_end); [apply lift_models, run_reachable|].
  eapply rtc_l; [apply (models_resolved _ _ demo_models_end); reflexivity|].
  apply rtc_trans with (InImages demo_images_end); [apply lift_images, run_reachable|].
  apply rtc_once. apply (images_resolved _ _ demo_images_end). reflexivity.
Qed.

(** The theorem at the end of the demo inventory: three entries, three
    loaded, one of them well. *)
Lemma totals_add_up_witness :
  totals (finish (shared demo_images_end)) = mkTotals 3 1 2 3 /\
  ok (totals (finish (shared demo_images_end)))
  + fallback (totals (finish (shared demo_images_end)))
  = loaded (totals (finish (shared demo_images_end))).
Proof.
  split; [reflexivity|].
  exact (proj1 (totals_add_up demo_net demo_assets _ _ demo_reaches_end)).
Defined.

(** C3.  While the inventory loads: [main] never rejects and can always
    be continued to its end, because [handleAsset] never throws; no loader
    is called twice for a file.  A
    call of [handleAsset] whose [addAsset] failed adds a fallback plane
    that records the reason and counts the asset in [totals.fallback] and
    [totals.loaded].  At the end of [main] the world holds one child per
    entry of the inventory, the fallback plane with its reason for every
    entry that failed, and [totals.fallback] is the number of those. *)
Theorem failed_loads_become_fallback_planes
  (net : network) (assets : list (option Asset)) (r : RenderLoop.state) (m : main_state) :
  rtc (main_step net assets) (main net assets (fresh r)) m ->
  (forall v, m <> Aborted v) /\
  (exists v, rtc (main_step net assets) m (Finished v)) /\
  (forall asset v, (handleAsset net asset v).2 <> Throw) /\
  (forall k v, (handleAsset_resume k v).2 <> Throw) /\
  NoDup (textureLoads (cache (viewer_of m))) /\
  NoDup (modelLoads (cache (viewer_of m))) /\
  (forall asset message v,
     let v' := (handleAsset_resume (InHandleAsset asset (Some message)) v).1 in
     world v' = world v ++ [fallback_node (Some asset) (reason message)] /\
     fallback (totals v') = S (fallback (totals v)) /\
     loaded (totals v') = S (loaded (totals v)) /\
     ok (totals v') = ok (totals v)) /\
  (forall asset why v,
     load_failure net asset = Some why -> cache_sound net (cache v) ->
     exists k, (handleAsset net asset v).2 = Suspend k /\
               pend k = [fallback_node (Some asset) why]) /\
  (forall v, m = Finished v ->
     world v ≡ₚ final_node net <$> assets /\
     fallback (totals v) = failures net assets /\
     loaded (totals v) = length assets /\
     forall a why, a ∈ assets -> failure net a = Some why -> fallback_node a why ∈ world v).
Proof.
  intros Hm. apply main_reachable in Hm.
  split; [intros v ->; destruct Hm|].
  split; [by apply main_finishes|].
  split; [apply handleAsset_ok|]. split; [apply handleAsset_resume_ok|].
  assert (Hc : cache_sound net (cache (viewer_of m))).
  { destruct (main_inv_viewer _ _ _ Hm) as (base & items & i & ks & [H|(v2 & -> & H)]);
      by destruct H as (Hc & _). }
  split; [apply Hc|]. split; [apply Hc|]. split; [|split].
  - intros asset message v.
    destruct (handleAsset_resume_spec (InHandleAsset asset (Some message)) v)
      as (_ & _ & _ & _ & Hw & _).
    simpl in *.
    match goal with |- context [handleAsset_finally ?w] =>
      pose proof (handleAsset_finally_spec w) as (Ht & Hw' & _ & Hr);
      destruct (handleAsset_finally w) as [v' res] end.
    simpl in *. rewrite Ht. simpl. split; [|done].
    destruct Hr as [-> | ->]; simpl in Hw; by rewrite app_nil_r in Hw.
  - intros asset why v Hfail Hsound.
    destruct (handleAsset_spec net asset v Hsound) as (k & Hk & Hp & _).
    exists k. split; [exact Hk|]. rewrite Hp. f_equal.
    by apply load_failure_placed_node.
  - intros v ->. destruct (finished_viewer _ _ _ Hm) as (Hl & Ht & Hf & Hw).
    split; [exact Hw|]. split; [exact Hf|]. split; [exact Hl|].
    intros a why Ha Hfa. rewrite Hw. apply list_elem_of_fmap.
    exists a. split; [|exact Ha]. symmetry. by apply failure_final_node.
Qed.

(** The theorem at the end of the demo inventory: the model whose file
    does not load is a fallback plane that records the loader's message. *)
Lemma failed_loads_become_fallback_planes_witness :
  fallback_node (Some (mkAsset (Some "model") (Some "a.glb") None)) "404"
  ∈ world (finish (shared demo_images_end)).
Proof.
  destruct (failed_loads_become_fallback_planes demo_net demo_assets _ _ demo_reaches_end)
    as (_ & _ & _ & _ & _ & _ & _ & _ & H).
  destruct (H _ eq_refl) as (_ & _ & _ & Hin). apply Hin.
  - apply list_elem_of_here.
  - reflexivity.
Defined.

End PipelineClaims.

(** ** The caches *)

Section CacheFacts.
Import Inventory.

Lemma loadTextureByFile_cached net f c :
  texturePromiseCache (loadTextureByFile net f c).2 !! f = Some (loadTextureByFile net f c).1.
Proof.
  unfold loadTextureByFile. destruct (texturePromiseCache c !! f) eqn:Hf; simpl; [done|].
  apply lookup_insert_eq.
Qed.

Lemma loadModelTemplate_cached net f c :
  modelTemplateCache (loadModelTemplate net f c).2 !! f = Some (loadModelTemplate net f c).1.
Proof.
  unfold loadModelTemplate. destruct (modelTemplateCache c !! f) eqn:Hf; simpl; [done|].
  apply lookup_insert_eq.
Qed.

Lemma do_load_grows net l c :
  texturePromiseCache c ⊆ texturePromiseCache (do_load net l c) /\
  modelTemplateCache c ⊆ modelTemplateCache (do_load net l c).
Proof.
  destruct l as [f|f]; simpl; unfold loadTextureByFile, loadModelTemplate.
  - destruct (texturePromiseCache c !! f) eqn:Hf; simpl; [done|].
    split; [by apply insert_subseteq|done].
  - destruct (modelTemplateCache c !! f) eqn:Hf; simpl; [done|].
    split; [done|by apply insert_subseteq].
Qed.

Lemma do_loads_grows net ls c :
  texturePromiseCache c ⊆ texturePromiseCache (do_loads net ls c) /\
  modelTemplateCache c ⊆ modelTemplateCache (do_loads net ls c).
Proof.
  unfold do_loads. revert c. induction ls as [|l ls IH]; intros c; simpl; [done|].
  destruct (do_load_grows net l c) as [H1 H2].
  destruct (IH (do_load net l c)) as [H3 H4].
  split; etrans; eauto.
Qed.

(** The loading pipeline only adds to the two caches. *)
Lemma handleAsset_cache_grows net asset v :
  caches_grow (cache v) (cache (handleAsset net asset v).1).
Proof.
  unfold handleAsset.
  destruct (is_type "model" asset); [|destruct (is_type "image" asset)];
    try destruct (truthy (mapped_file asset)) as [f|]; try done.
  - pose proof (do_load_grows net (LoadModel f) (cache v)) as H. simpl in H.
    by destruct (loadModelTemplate net f (cache v)).
  - pose proof (do_load_grows net (LoadTexture f) (cache v)) as H. simpl in H.
    by destruct (loadTextureByFile net f (cache v)).
Qed.

Lemma runner_cache_grows net items id (st : Runner.state viewer suspended) :
  caches_grow (cache (Runner.shared st))
              (cache (Runner.shared (Runner.runner items (handleAsset net) id st).1)).
Proof.
  destruct (items !! Runner.index st) as [x|] eqn:Hx.
  - rewrite (runner_claim _ _ _ _ _ Hx). simpl. apply handleAsset_cache_grows.
  - by rewrite (runner_exit _ _ _ _ Hx).
Qed.

Lemma caches_grow_trans c1 c2 c3 : caches_grow c1 c2 -> caches_grow c2 c3 -> caches_grow c1 c3.
Proof. intros [H1 H2] [H3 H4]. split; etrans; eauto. Qed.

Lemma runWithConcurrency_cache_grows net items concurrency v :
  caches_grow (cache v)
    (cache (Runner.shared (Runner.runWithConcurrency items (handleAsset net) concurrency v))).
Proof.
  unfold Runner.runWithConcurrency.
  induction (Z.to_nat (Runner.safeConcurrency concurrency (length items))) as [|n IH]; simpl.
  - done.
  - eapply caches_grow_trans; [exact IH|]. unfold Runner.spawn.
    match goal with |- context [Runner.runner items (handleAsset net) ?i ?s] =>
      pose proof (runner_cache_grows net items i s) as H;
      destruct (Runner.runner items (handleAsset net) i s) end.
    exact H.
Qed.

Lemma batch_step_cache_grows net items st st' :
  batch_step net items st st' ->
  caches_grow (cache (Runner.shared st)) (cache (Runner.shared st')).
Proof.
  intros [id Hs]. unfold Runner.step in Hs.
  destruct (Runner.runners st !! id) as [[[k| |]| |]|]; try discriminate.
  - destruct (handleAsset_resume_spec k (Runner.shared st)) as (Hc & _).
    destruct (handleAsset_resume k (Runner.shared st)). inversion Hs; subst. simpl in *.
    by rewrite Hc.
  - pose proof (runner_cache_grows net items id st) as H.
    destruct (Runner.runner items (handleAsset net) id st). by inversion Hs; subst.
  - by inversion Hs; subst.
Qed.

Lemma main_step_cache_grows net assets m m' :
  main_step net assets m m' -> caches_grow (cache (viewer_of m)) (cache (viewer_of m')).
Proof.
  intros [st st' Hs|st Hres|st Hf|st st' Hs|st Hres|st Hf]; simpl;
    try (by eapply batch_step_cache_grows); try done.
  apply runWithConcurrency_cache_grows.
Qed.

Lemma main_steps_cache_grows net assets m m' :
  rtc (main_step net assets) m m' -> caches_grow (cache (viewer_of m)) (cache (viewer_of m')).
Proof.
  induction 1 as [|x y z Hs _ IH]; [done|].
  eapply caches_grow_trans; [by eapply main_step_cache_grows|exact IH].
Qed.

End CacheFacts.

Section MaterialFacts.
Import Sculpture.

Lemma getMaterial_cached key callback st :
  matCache (getMaterial key callback st).2 !! key = Some (getMaterial key callback st).1.
Proof.
  unfold getMaterial. destruct (matCache st !! key) as [cached|] eqn:Hk.
  - destruct callback as [cb|]; [|done].
    by destruct (textureReadyCallbacks st !! key).
  - simpl. apply lookup_insert_eq.
Qed.

Lemma getMaterial_grows key callback st :
  matCache st ⊆ matCache (getMaterial key callback st).2.
Proof.
  unfold getMaterial. destruct (matCache st !! key) as [cached|] eqn:Hk.
  - destruct callback as [cb|]; [|done].
    by destruct (textureReadyCallbacks st !! key).
  - simpl. by apply insert_subseteq.
Qed.

Lemma makePlane_grows layer st : matCache st ⊆ matCache (makePlane layer st).
Proof.
  unfold makePlane. destruct (is_sample layer); [done|].
  pose proof (getMaterial_grows (id layer) (Some (length (group st))) st) as H.
  by destruct (getMaterial (id layer) (Some (length (group st))) st).
Qed.

Lemma apply_grows e st : matCache st ⊆ matCache (Sculpture.apply e st).
Proof.
  destruct e as [key cb|layer|key|key]; simpl.
  - apply getMaterial_grows.
  - apply makePlane_grows.
  - done.
  - done.
Qed.

Lemma run_grows events st : matCache st ⊆ matCache (Sculpture.run events st).
Proof.
  unfold Sculpture.run. revert st. induction events as [|e events IH]; intros st; simpl; [done|].
  etrans; [apply apply_grows|apply IH].
Qed.

Lemma getMaterial_hit key callback st mat :
  matCache st !! key = Some mat -> (getMaterial key callback st).1 = mat.
Proof.
  intros Hk. unfold getMaterial. rewrite Hk.
  destruct callback as [cb|]; [|done]. by destruct (textureReadyCallbacks st !! key).
Qed.

End MaterialFacts.

(** C7.  A second call of [loadTextureByFile] or [loadModelTemplate] for
    a file, after any calls of the two loaders, returns the promise that
    the first call returned, whatever that promise settles to, and starts
    no load; a second call of [getMaterial] for a layer id, after any
    calls of [getMaterial] and [makePlane] and any textures that arrived or
    failed, returns the material of the first call.  Every entry of the
    three caches stays in its cache, with its value, also while [main]
    loads the inventory. *)
Theorem cached_results_are_kept :
  (forall net f c ls,
     let first := Inventory.loadTextureByFile net f c in
     let c' := Inventory.do_loads net ls first.2 in
     Inventory.loadTextureByFile net f c' = (first.1, c')) /\
  (forall net f c ls,
     let first := Inventory.loadModelTemplate net f c in
     let c' := Inventory.do_loads net ls first.2 in
     Inventory.loadModelTemplate net f c' = (first.1, c')) /\
  (forall net ls c,
     Inventory.texturePromiseCache c ⊆ Inventory.texturePromiseCache (Inventory.do_loads net ls c) /\
     Inventory.modelTemplateCache c ⊆ Inventory.modelTemplateCache (Inventory.do_loads net ls c)) /\
  (forall net assets m m',
     rtc (Inventory.main_step net assets) m m' ->
     Inventory.texturePromiseCache (Inventory.cache (Inventory.viewer_of m)) ⊆
       Inventory.texturePromiseCache (Inventory.cache (Inventory.viewer_of m')) /\
     Inventory.modelTemplateCache (Inventory.cache (Inventory.viewer_of m)) ⊆
       Inventory.modelTemplateCache (Inventory.cache (Inventory.viewer_of m'))) /\
  (forall key callback callback' events st,
     let first := Sculpture.getMaterial key callback st in
     let st' := Sculpture.run events first.2 in
     (Sculpture.getMaterial key callback' st').1 = first.1) /\
  (forall events st, Sculpture.matCache st ⊆ Sculpture.matCache (Sculpture.run events st)).
Proof.
  split; [|split; [|split; [|split; [|split]]]].
  - intros net f c ls first c'. subst first c'.
    pose proof (loadTextureByFile_cached net f c) as Hc.
    destruct (do_loads_grows net ls (Inventory.loadTextureByFile net f c).2) as [Hsub _].
    pose proof (lookup_weaken _ _ _ _ Hc Hsub) as Hc'.
    unfold Inventory.loadTextureByFile at 1. by rewrite Hc'.
  - intros net f c ls first c'. subst first c'.
    pose proof (loadModelTemplate_cached net f c) as Hc.
    destruct (do_loads_grows net ls (Inventory.loadModelTemplate net f c).2) as [_ Hsub].
    pose proof (lookup_weaken _ _ _ _ Hc Hsub) as Hc'.
    unfold Inventory.loadModelTemplate at 1. by rewrite Hc'.
  - intros. apply do_loads_grows.
  - intros net assets m m' Hrun. exact (main_steps_cache_grows net assets m m' Hrun).
  - intros key callback callback' events st first st'.
    apply getMaterial_hit.
    eapply lookup_weaken; [apply getMaterial_cached|apply run_grows].
  - intros. apply run_grows.
Qed.

(** A load that fails stays cached: offline, the second call for a file
    returns the rejected promise of the first and calls no loader. *)
Example failed_load_is_kept :
  let first := Inventory.loadTextureByFile Inventory.offline "a.png" Inventory.no_caches in
  let second := Inventory.loadTextureByFile Inventory.offline "a.png" first.2 in
  Inventory.settles first.1 = Inventory.Rejects (Some "Texture load failed") /\
  second.1 = first.1 /\
  Inventory.textureLoads second.2 = ["a.png"].
Proof. repeat split. Qed.

(** ** The planes of the sculpture viewer *)

Section PlaneFacts.
Import Sculpture.

Lemma makePlane_sample layer st : is_sample layer = true -> makePlane layer st = st.
Proof. intros H. unfold makePlane. by rewrite H. Qed.

Lemma makePlane_group layer st :
  is_sample layer = false ->
  exists mat,
    group (makePlane layer st) =
    group st ++ [mkMesh mat false layer; mkMesh mat true layer].
Proof.
  intros H. unfold makePlane. rewrite H.
  assert (Hg : group (getMaterial (id layer) (Some (length (group st))) st).2 = group st).
  { unfold getMaterial. destruct (matCache st !! id layer); [|done].
    by destruct (textureReadyCallbacks st !! id layer). }
  destruct (getMaterial (id layer) (Some (length (group st))) st) as [mat st1].
  simpl in *. exists mat. by rewrite Hg.
Qed.

Lemma makePlanes_length layers st :
  length (group (makePlanes layers st)) =
  length (group st) + 2 * length (List.filter (fun l => negb (is_sample l)) layers).
Proof.
  unfold makePlanes. revert st. induction layers as [|layer layers IH]; intros st; simpl.
  - lia.
  - rewrite IH. destruct (is_sample layer) eqn:Hs; simpl.
    + by rewrite makePlane_sample.
    + destruct (makePlane_group layer st Hs) as [mat ->].
      rewrite length_app. simpl. lia.
Qed.

(** C10.  [makePlane] leaves the scene as it is for a layer whose role is
    "sample", and adds two meshes for any other layer: a front plane and a
    mirrored back plane of one material.  The group built from a list of
    layers holds two meshes for each layer that is not a sample.  On a
    page that has the summary list and the card template, the summary
    holds a card for every layer, and the layer statistic is the number of
    all layers: samples are among them. *)
Theorem sample_layers_have_cards_but_no_meshes :
  (forall layer st, role layer = Some "sample" -> makePlane layer st = st) /\
  (forall layer st, role layer <> Some "sample" ->
     exists mat,
       group (makePlane layer st) =
       group st ++ [mkMesh mat false layer; mkMesh mat true layer]) /\
  (forall layers,
     length (group (makePlanes layers empty_scene)) =
     2 * length (List.filter (fun l => negb (is_sample l)) layers)) /\
  (forall p layers baseUrl,
     has_summary p = true -> has_card_template p = true ->
     renderSummary p layers baseUrl =
       Some ((fun l => mkCard (id_text l) (baseUrl +:+ id_text l +:+ ".png")) <$> layers)) /\
  (forall p layers, has_stat_layers p = true -> updateStats p layers = Some (length layers)).
Proof.
  split; [|split; [|split; [|split]]].
  - intros layer st Hr. apply makePlane_sample. unfold is_sample. by rewrite Hr.
  - intros layer st Hr. apply makePlane_group. unfold is_sample.
    destruct (role layer) as [s|]; [|done].
    destruct (String.eqb s "sample") eqn:He; [|done].
    apply String.eqb_eq in He. congruence.
  - intros layers. by rewrite makePlanes_length.
  - intros p layers baseUrl Hs Ht. unfold renderSummary, addCard. rewrite Hs, Ht.
    reflexivity.
  - intros p layers Hs. unfold updateStats. by rewrite Hs.
Qed.

(** The theorem at a sample layer and a drawing layer. *)
Lemma sample_layers_have_cards_but_no_meshes_witness :
  makePlane (mkLayer (Some "s1") (Some "sample") None None None) empty_scene = empty_scene /\
  renderSummary (mkPage true true true)
    [mkLayer (Some "s1") (Some "sample") None None None;
     mkLayer (Some "l2") (Some "art") None None None] "art/" =
  Some [mkCard "s1" "art/s1.png"; mkCard "l2" "art/l2.png"].
Proof.
  split.
  - apply (proj1 sample_layers_have_cards_but_no_meshes). reflexivity.
  - apply (proj1 (proj2 (proj2 (proj2 sample_layers_have_cards_but_no_meshes))));
      reflexivity.
Defined.

End PlaneFacts.

(** * Further properties *)

(** ** runWithConcurrency, for any worker *)

Section RunnerOrder.
Import Runner.
Context {A Sh K : Type}.
Variable items : list A.
Variable wstart : A -> Sh -> Sh * wres K.
Variable wresume : K -> Sh -> Sh * wres K.

Lemma omap_lookup_prefix (l : list A) n :
  n <= length l -> omap (fun i => l !! i) (seq 0 n) = take n l.
Proof.
  induction n as [|n IH]; intros Hn; [reflexivity|].
  destruct (lookup_lt_is_Some_2 l n ltac:(lia)) as [x Hx].
  rewrite seq_S, omap_app, IH by lia. simpl. rewrite Hx.
  by rewrite (take_S_r _ _ _ Hx).
Qed.

Lemma invoked_prefix (st : state Sh K) :
  consistent items st -> invoked items st = take (index st) items.
Proof.
  intros (Hi & Hc & _). unfold invoked.
  transitivity (omap (fun i => items !! i) ((claims st).*2)).
  - clear Hc. induction (claims st) as [|c cs IH]; [reflexivity|].
    cbn. rewrite <- IH. reflexivity.
  - rewrite Hc. by apply omap_lookup_prefix.
Qed.

(** X1.  Whatever the worker does (it may reject or never settle), at
    every moment the worker has been called on the first [index] items, in
    list order and each once; no index is claimed twice. *)
Theorem runWithConcurrency_calls_in_list_order
  (concurrency : Z) (s0 : Sh) (st : state Sh K) :
  rtc (Step items wstart wresume) (runWithConcurrency items wstart concurrency s0) st ->
  invoked items st = take (index st) items /\
  index st <= length items /\
  length (claims st) = index st /\
  NoDup ((claims st).*2).
Proof.
  intros Hst. pose proof (reachable_consistent _ _ _ _ _ _ Hst) as Hc.
  split; [by apply invoked_prefix|].
  destruct Hc as (Hi & Hc & _). split; [exact Hi|]. split.
  - rewrite <- (length_fmap snd), Hc. apply length_seq.
  - rewrite Hc. apply NoDup_ListNoDup, seq_NoDup.
Qed.

(** X2.  Items are left out only when every runner was stopped by a
    rejection: if no runner can continue and one of them returned, the
    worker was called on every item. *)
Theorem runWithConcurrency_one_survivor_suffices
  (concurrency : Z) (s0 : Sh) (st : state Sh K) (id : nat) :
  rtc (Step items wstart wresume) (runWithConcurrency items wstart concurrency s0) st ->
  runners st !! id = Some Done ->
  index st = length items /\
  invoked items st = items /\
  (forall st', rtc (Step items wstart wresume) st st' -> invoked items st' = items).
Proof.
  intros Hst Hid.
  pose proof (reachable_consistent _ _ _ _ _ _ Hst) as Hc.
  assert (Hidx : index st = length items).
  { destruct Hc as (Hi & _ & Hd & _). specialize (Hd _ Hid). lia. }
  split; [exact Hidx|]. split.
  - rewrite (invoked_prefix _ Hc), Hidx. by apply take_ge.
  - intros st' Hst'.
    assert (Hreach : rtc (Step items wstart wresume)
                         (runWithConcurrency items wstart concurrency s0) st')
      by (etrans; eauto).
    pose proof (reachable_consistent _ _ _ _ _ _ Hreach) as Hc'.
    rewrite (invoked_prefix _ Hc').
    assert (Hmono : index st <= index st').
    { clear -Hst'. induction Hst' as [|x y z [i Hs] _ IH]; [lia|].
      etrans; [|exact IH]. clear IH. unfold Runner.step in Hs.
      destruct (runners x !! i) as [[[k| |]| |]|]; try discriminate.
      - destruct (wresume k (shared x)). by inversion Hs; subst.
      - destruct (items !! index x) as [a|] eqn:Ha.
        + rewrite (runner_claim _ _ _ _ _ Ha) in Hs. inversion Hs; subst. simpl. lia.
        + rewrite (runner_exit _ _ _ _ Ha) in Hs. by inversion Hs; subst.
      - by inversion Hs; subst. }
    destruct Hc' as (Hi' & _). apply take_ge. lia.
Qed.

End RunnerOrder.

(** X1 at the end of the run in which the worker rejects on the first of
    two items. *)
Lemma runWithConcurrency_calls_in_list_order_witness :
  Runner.invoked [7; 8]
    (Runner.run [7; 8] Runner.flaky_start Runner.flaky_resume [0; 0]
       (Runner.runWithConcurrency [7; 8] Runner.flaky_start 1 [])) =
  take (Runner.index
          (Runner.run [7; 8] Runner.flaky_start Runner.flaky_resume [0; 0]
             (Runner.runWithConcurrency [7; 8] Runner.flaky_start 1 []))) [7; 8].
Proof.
  exact (proj1 (runWithConcurrency_calls_in_list_order [7; 8] Runner.flaky_start
                  Runner.flaky_resume 1 [] _ (run_reachable _ _ _ _ _))).
Defined.

(** X2 with two runners, of which the one that gets 7 is stopped. *)
Lemma runWithConcurrency_one_survivor_suffices_witness :
  Runner.invoked [7; 8; 9]
    (Runner.run [7; 8; 9] Runner.flaky_start Runner.flaky_resume [0; 0; 1; 1; 1; 1]
       (Runner.runWithConcurrency [7; 8; 9] Runner.flaky_start 2 [])) = [7; 8; 9].
Proof.
  refine (proj1 (proj2 (runWithConcurrency_one_survivor_suffices [7; 8; 9] Runner.flaky_start
                  Runner.flaky_resume 2 []
                  (Runner.run [7; 8; 9] Runner.flaky_start Runner.flaky_resume
                     [0; 0; 1; 1; 1; 1]
                     (Runner.runWithConcurrency [7; 8; 9] Runner.flaky_start 2 []))
                  1 (run_reachable _ _ _ _ _) _))).
  reflexivity.
Defined.

(** ** The render loop, frame by frame *)

Section RenderDemandFacts.
Import RenderLoop RenderDemand.

Lemma apply_mixers e st :
  (hasAnimatedModels st = true <-> 0 < mixers st) ->
  mixers (apply e st) = mixers st + animated e /\
  (hasAnimatedModels (apply e st) = true <-> 0 < mixers (apply e st)).
Proof.
  destruct st as [m a l f c n]. destruct e as [|[|clips]|[|]]; simpl;
    intros H; unfold requestRender, registerModelAnimations, renderFrame,
                     ensureRenderLoopState; simpl;
    destruct a, l, f; simpl in *; (split; [lia|]); try exact H;
    split; intros; try reflexivity; try lia.
Qed.

Lemma run_mixers events st :
  (hasAnimatedModels st = true <-> 0 < mixers st) ->
  mixers (run events st) = mixers st + sum_list_with animated events /\
  (hasAnimatedModels (run events st) = true <-> 0 < mixers (run events st)).
Proof.
  unfold run. revert st. induction events as [|e events IH]; intros st H; simpl.
  - split; [lia|exact H].
  - destruct (apply_mixers e st H) as [Hm Ha].
    destruct (IH _ Ha) as [Hm' Ha']. split; [lia|exact Ha'].
Qed.

Lemma apply_owed e st :
  hasAnimatedModels st = false -> animated e = 0 ->
  hasAnimatedModels (apply e st) = false /\
  frames (apply e st) + owed (apply e st) <= frames st + owed st + demand e.
Proof.
  destruct st as [m a l f c n]. simpl. intros -> He.
  destruct e as [|[|clips]|[|]]; try discriminate; simpl;
    unfold requestRender, registerModelAnimations, renderFrame,
           ensureRenderLoopState, owed; simpl;
    destruct l, f; simpl; split; try reflexivity; lia.
Qed.

(** X3.  Without an animated model the viewer draws on demand only: the
    frames drawn, and the one still requested, are at most one (the
    script's own request) plus the requests and the resizes since. *)
Theorem frames_drawn_on_demand (events : list event) :
  sum_list_with animated events = 0 ->
  hasAnimatedModels (run events started) = false /\
  frames (run events started) + owed (run events started)
    <= 1 + sum_list_with demand events.
Proof.
  assert (H : forall st, hasAnimatedModels st = false ->
            sum_list_with animated events = 0 ->
            hasAnimatedModels (run events st) = false /\
            frames (run events st) + owed (run events st)
              <= frames st + owed st + sum_list_with demand events).
  { unfold run. induction events as [|e events IH]; intros st Ha Hev; simpl in *.
    - split; [exact Ha|lia].
    - destruct (apply_owed e st Ha ltac:(lia)) as [Ha' Hle].
      destruct (IH _ Ha' ltac:(lia)) as [Ha'' Hle']. split; [exact Ha''|lia]. }
  intros Hev. destruct (H started eq_refl Hev) as [Ha Hle].
  split; [exact Ha|]. exact Hle.
Qed.

(** X3 at three requests in a row, answered by one frame. *)
Lemma frames_drawn_on_demand_witness :
  frames (run [RequestRender; RequestRender; RequestRender; AnimationFrame false] started)
  + owed (run [RequestRender; RequestRender; RequestRender; AnimationFrame false] started)
  <= 1 + 3.
Proof.
  exact (proj2 (frames_drawn_on_demand
                  [RequestRender; RequestRender; RequestRender; AnimationFrame false] eq_refl)).
Defined.

(** X4.  The clock runs exactly while the loop is installed. *)
Theorem clock_runs_with_loop (events : list event) :
  clockRunning (run events started) = renderLoopActive (run events started).
Proof.
  assert (H : forall st, clockRunning st = renderLoopActive st ->
            clockRunning (run events st) = renderLoopActive (run events st)).
  { unfold run. induction events as [|e events IH]; intros st Hst; simpl; [exact Hst|].
    apply IH. destruct st as [m a l f c n]. simpl in Hst. subst c.
    destruct e as [|[|clips]|[|]]; simpl;
      unfold requestRender, registerModelAnimations, renderFrame, ensureRenderLoopState;
      simpl; destruct a, l, f; reflexivity. }
  by apply H.
Qed.

(** X5.  Without an animated model, a request is answered by exactly one
    frame: the next animation frame draws once and removes the loop, and
    further animation frames change nothing until the next request. *)
Theorem one_frame_per_request (st : state) (needResize : bool) :
  hasAnimatedModels st = false ->
  let st1 := apply (AnimationFrame false) (requestRender st) in
  frames st1 = S (frames st) /\
  renderLoopActive st1 = false /\
  frameRequested st1 = false /\
  clockRunning st1 = false /\
  apply (AnimationFrame needResize) st1 = st1.
Proof.
  destruct st as [m a l f c n]. simpl. intros ->.
  destruct l, f, needResize; repeat split; reflexivity.
Qed.

Lemma one_frame_per_request_witness :
  frames (apply (AnimationFrame false) (requestRender initial)) = 1.
Proof. exact (proj1 (one_frame_per_request initial false eq_refl)). Defined.

(** X6.  [mixers] counts the models registered with at least one clip,
    and [hasAnimatedModels] says whether there is one.  From the first such
    model on the loop stays installed and every animation frame draws. *)
Theorem animated_models_keep_the_loop_running (events : list event) (needResize : bool) :
  let st := run events started in
  mixers st = sum_list_with animated events /\
  (hasAnimatedModels st = true <-> 0 < sum_list_with animated events) /\
  (0 < sum_list_with animated events ->
     renderLoopActive st = true /\
     frames (apply (AnimationFrame needResize) st) = S (frames st) /\
     renderLoopActive (apply (AnimationFrame needResize) st) = true).
Proof.
  intros st.
  assert (H0 : hasAnimatedModels started = true <-> 0 < mixers started)
    by (simpl; split; [discriminate|lia]).
  destruct (run_mixers events started H0) as [Hm Ha]. fold st in Hm, Ha.
  simpl in Hm. split; [exact Hm|]. rewrite <- Hm. split; [exact Ha|].
  intros Hpos. apply Ha in Hpos.
  pose proof (run_matches events started (requestRender_matches initial)) as Hl.
  fold st in Hl. unfold loop_matches in Hl. rewrite Hpos in Hl. simpl in Hl.
  split; [exact Hl|]. simpl. rewrite Hl.
  destruct st as [m a l f c n]. simpl in *. subst a l.
  unfold renderFrame. simpl. destruct needResize; simpl; by split.
Qed.

Lemma animated_models_keep_the_loop_running_witness :
  renderLoopActive
    (run [RegisterModelAnimations 2; AnimationFrame false; AnimationFrame false] started) = true.
Proof.
  exact (proj1 (proj2 (proj2
    (animated_models_keep_the_loop_running
       [RegisterModelAnimations 2; AnimationFrame false; AnimationFrame false] false))
    (Nat.lt_0_succ 0))).
Defined.

End RenderDemandFacts.

(** ** The inventory viewer: order and number of the loads *)

Section RequestFacts.
Import Runner Inventory Requests.
Variable net : network.
Variable assets : list (option Asset).

Lemma modelAssets_model asset :
  asset ∈ modelAssets assets -> is_type "model" asset = true.
Proof.
  unfold modelAssets. intros H. apply list_elem_of_omap in H as (a & _ & Ha).
  destruct a as [x|]; simpl in Ha; [|discriminate].
  destruct (is_type "model" x) eqn:Hx; [|discriminate]. by inversion Ha; subst.
Qed.

Lemma imageAssets_image asset :
  asset ∈ imageAssets assets ->
  is_type "model" asset = false /\ is_type "image" asset = true.
Proof.
  unfold imageAssets. intros H. apply list_elem_of_omap in H as (a & _ & Ha).
  destruct a as [x|]; simpl in Ha; [|discriminate].
  destruct (is_type "image" x) eqn:Hx; [|discriminate]. inversion Ha; subst.
  split; [|exact Hx]. destruct (is_type "model" asset) eqn:Hm; [|done].
  destruct (not_model_and_image _ Hm Hx).
Qed.

Lemma files_take_S (items : list Asset) i x :
  items !! i = Some x ->
  files (take (S i) items) = files (take i items) ++ option_list (truthy (mapped_file x)).
Proof.
  intros Hx. unfold files. rewrite (take_S_r _ _ _ Hx), omap_app. simpl.
  by destruct (truthy (mapped_file x)).
Qed.

Lemma loadModelTemplate_loads f c :
  loads_track c ->
  loads_track (loadModelTemplate net f c).2 /\
  textureLoads (loadModelTemplate net f c).2 = textureLoads c /\
  (forall g, g ∈ modelLoads (loadModelTemplate net f c).2 <-> g ∈ modelLoads c \/ g = f).
Proof.
  intros [Ht Hm]. unfold loadModelTemplate.
  destruct (modelTemplateCache c !! f) as [p|] eqn:Hf; simpl.
  - split; [by split|]. split; [done|]. intros g. split; [auto|].
    intros [Hg| ->]; [done|]. apply Hm. eauto.
  - split; [split; simpl|split; [done|]].
    + exact Ht.
    + intros g Hg. apply elem_of_app. destruct (decide (f = g)) as [<-|Hne].
      * right. apply list_elem_of_singleton. reflexivity.
      * left. apply Hm. by rewrite lookup_insert_ne in Hg.
    + intros g. rewrite elem_of_app, list_elem_of_singleton. tauto.
Qed.

Lemma loadTextureByFile_loads f c :
  loads_track c ->
  loads_track (loadTextureByFile net f c).2 /\
  modelLoads (loadTextureByFile net f c).2 = modelLoads c /\
  (forall g, g ∈ textureLoads (loadTextureByFile net f c).2 <-> g ∈ textureLoads c \/ g = f).
Proof.
  intros [Ht Hm]. unfold loadTextureByFile.
  destruct (texturePromiseCache c !! f) as [p|] eqn:Hf; simpl.
  - split; [by split|]. split; [done|]. intros g. split; [auto|].
    intros [Hg| ->]; [done|]. apply Ht. eauto.
  - split; [split; simpl|split; [done|]].
    + intros g Hg. apply elem_of_app. destruct (decide (f = g)) as [<-|Hne].
      * right. apply list_elem_of_singleton. reflexivity.
      * left. apply Ht. by rewrite lookup_insert_ne in Hg.
    + exact Hm.
    + intros g. rewrite elem_of_app, list_elem_of_singleton. tauto.
Qed.

Lemma in_models_start v i x :
  in_models assets v i -> modelAssets assets !! i = Some x ->
  in_models assets (handleAsset net x v).1 (S i).
Proof.
  intros (Htr & Htex & Hmod) Hx.
  assert (Hm : is_type "model" x = true).
  { apply modelAssets_model, list_elem_of_lookup. eauto. }
  unfold in_models, handleAsset. rewrite Hm, (files_take_S _ _ _ Hx).
  destruct (truthy (mapped_file x)) as [f|]; simpl.
  - destruct (loadModelTemplate_loads f (cache v) Htr) as (Htr' & Htex' & Hmod').
    destruct (loadModelTemplate net f (cache v)) as [p c]. simpl in *.
    split; [exact Htr'|]. split; [congruence|].
    intros g. rewrite Hmod', elem_of_app, list_elem_of_singleton, Hmod. tauto.
  - rewrite app_nil_r. simpl. split; [done|]. split; done.
Qed.

Lemma in_images_start v i x :
  in_images assets v i -> imageAssets assets !! i = Some x ->
  in_images assets (handleAsset net x v).1 (S i).
Proof.
  intros (Htr & Hmod & Htex) Hx.
  assert (Hi : is_type "model" x = false /\ is_type "image" x = true).
  { apply imageAssets_image, list_elem_of_lookup. eauto. }
  destruct Hi as [Hm Hi].
  unfold in_images, handleAsset. rewrite Hm, Hi, (files_take_S _ _ _ Hx).
  destruct (truthy (mapped_file x)) as [f|]; simpl.
  - destruct (loadTextureByFile_loads f (cache v) Htr) as (Htr' & Hmod' & Htex').
    destruct (loadTextureByFile net f (cache v)) as [p c]. simpl in *.
    split; [exact Htr'|]. split; [by rewrite Hmod'|].
    intros g. rewrite Htex', elem_of_app, list_elem_of_singleton, Htex. tauto.
  - rewrite app_nil_r. simpl. split; [done|]. split; done.
Qed.

Lemma in_models_resume v i k :
  in_models assets v i -> in_models assets (handleAsset_resume k v).1 i.
Proof.
  unfold in_models. by destruct (handleAsset_resume_spec k v) as (-> & _).
Qed.

Lemma in_images_resume v i k :
  in_images assets v i -> in_images assets (handleAsset_resume k v).1 i.
Proof.
  unfold in_images. by destruct (handleAsset_resume_spec k v) as (-> & _).
Qed.

Lemma in_models_step id st st' :
  step (modelAssets assets) (handleAsset net) handleAsset_resume id st = Some st' ->
  in_models assets (shared st) (index st) -> in_models assets (shared st') (index st').
Proof.
  apply (step_invariant (modelAssets assets) (handleAsset net) handleAsset_resume
           (fun v i _ => in_models assets v i)).
  - auto.
  - intros. by apply in_models_start.
  - intros. by apply in_models_resume.
Qed.

Lemma in_images_step id st st' :
  step (imageAssets assets) (handleAsset net) handleAsset_resume id st = Some st' ->
  in_images assets (shared st) (index st) -> in_images assets (shared st') (index st').
Proof.
  apply (step_invariant (imageAssets assets) (handleAsset net) handleAsset_resume
           (fun v i _ => in_images assets v i)).
  - auto.
  - intros. by apply in_images_start.
  - intros. by apply in_images_resume.
Qed.

Lemma in_models_init r :
  let st := runWithConcurrency (modelAssets assets) (handleAsset net) MODEL_CONCURRENCY
                               (loading assets (fresh r)) in
  in_models assets (shared st) (index st).
Proof.
  apply (batch_invariant (modelAssets assets) (handleAsset net) handleAsset_resume
           (fun v i _ => in_models assets v i)) with (concurrency := MODEL_CONCURRENCY)
           (s0 := loading assets (fresh r)).
  - auto.
  - intros. by apply in_models_start.
  - intros. by apply in_models_resume.
  - unfold loading.
    match goal with |- context [fold_left other_fallback ?o ?v] =>
      destruct (fold_other_fallback o v) as (_ & _ & Hc) end.
    unfold in_models. rewrite Hc. simpl. split; [|split; [done|]].
    + split; intros f [p Hp]; simpl in Hp; by rewrite lookup_empty in Hp.
    + intros f. split; intros H; by apply not_elem_of_nil in H.
  - apply rtc_refl.
Qed.

Lemma in_images_init v :
  in_models assets v (length (modelAssets assets)) ->
  let st := runWithConcurrency (imageAssets assets) (handleAsset net) IMAGE_CONCURRENCY v in
  in_images assets (shared st) (index st).
Proof.
  intros (Htr & Htex & Hmod).
  apply (batch_invariant (imageAssets assets) (handleAsset net) handleAsset_resume
           (fun v i _ => in_images assets v i)) with (concurrency := IMAGE_CONCURRENCY)
           (s0 := v).
  - auto.
  - intros. by apply in_images_start.
  - intros. by apply in_images_resume.
  - split; [exact Htr|]. split.
    + intros f. rewrite Hmod, take_ge by done. reflexivity.
    + intros f. rewrite Htex. simpl. reflexivity.
  - apply rtc_refl.
Qed.

Lemma requests_inv_step m m' :
  requests_inv net assets m -> main_step net assets m m' -> requests_inv net assets m'.
Proof.
  intros [Hm Hr] Hs. split; [by eapply main_inv_step|].
  destruct Hs as [st st' [id Hs]|st Hres|st Hf|st st' [id Hs]|st Hres|st Hf]; simpl in *.
  - by eapply in_models_step.
  - destruct Hm as [r Hm]. apply in_images_init.
    by rewrite <- (resolved_index _ _ _ _ _ Hm Hres).
  - destruct Hm as [r Hm]. by apply batch_never_fails in Hm.
  - by eapply in_images_step.
  - destruct Hm as (v1 & _ & Hrun).
    by rewrite <- (resolved_index _ _ _ _ _ Hrun Hres).
  - destruct Hm as (v1 & _ & Hrun). by apply batch_never_fails in Hrun.
Qed.

Lemma requests_reachable r m :
  rtc (main_step net assets) (main net assets (fresh r)) m -> requests_inv net assets m.
Proof.
  intros H.
  assert (H0 : requests_inv net assets (main net assets (fresh r))).
  { split; [apply main_inv_start|apply in_models_init]. }
  induction H as [|x y z Hs _ IH]; [assumption|].
  apply IH. eapply requests_inv_step; eauto.
Qed.

End RequestFacts.

(** ** Properties of the viewer that every step of the loading keeps *)

Section ViewerInvariant.
Import Runner Inventory.
Variable net : network.
Variable assets : list (option Asset).
Variable P : viewer -> Prop.
Hypothesis P_start : forall x v, P v -> P (handleAsset net x v).1.
Hypothesis P_resume : forall k v, P v -> P (handleAsset_resume k v).1.

Lemma viewer_invariant_batch (items : list Asset) concurrency v :
  P v -> P (shared (runWithConcurrency items (handleAsset net) concurrency v)).
Proof.
  intros Hv.
  apply (batch_invariant items (handleAsset net) handleAsset_resume (fun v _ _ => P v))
    with (concurrency := concurrency) (s0 := v); auto using rtc_refl.
Qed.

Lemma viewer_invariant_step (items : list Asset) st st' :
  batch_step net items st st' -> P (shared st) -> P (shared st').
Proof.
  intros [id Hs]. revert Hs.
  apply (step_invariant items (handleAsset net) handleAsset_resume (fun v _ _ => P v)); auto.
Qed.

Lemma viewer_invariant r m :
  P (loading assets (fresh r)) ->
  rtc (main_step net assets) (main net assets (fresh r)) m ->
  match m with
  | InModels st | InImages st => P (shared st)
  | Finished v => exists v2, v = finish v2 /\ P v2
  | Aborted _ => False
  end.
Proof.
  intros H0 Hm.
  enough (H : main_inv net assets m /\
              match m with
              | InModels st | InImages st => P (shared st)
              | Finished v => exists v2, v = finish v2 /\ P v2
              | Aborted _ => False
              end) by apply H.
  set (inv := fun m => main_inv net assets m /\
              match m with
              | InModels st | InImages st => P (shared st)
              | Finished v => exists v2, v = finish v2 /\ P v2
              | Aborted _ => False
              end).
  assert (Hm0 : inv (main net assets (fresh r))).
  { split; [apply main_inv_start|]. by apply viewer_invariant_batch. }
  assert (Hstep : forall x y, inv x -> main_step net assets x y -> inv y).
  { intros x y [Hi HP] Hs. split; [by eapply main_inv_step|].
    destruct Hs as [st st' Hs|st Hres|st Hf|st st' Hs|st Hres|st Hf]; simpl in *.
    - by eapply viewer_invariant_step.
    - by apply viewer_invariant_batch.
    - destruct Hi as [r' Hi]. by apply batch_never_fails in Hi.
    - by eapply viewer_invariant_step.
    - by exists (shared st).
    - destruct Hi as (v1 & _ & Hrun). by apply batch_never_fails in Hrun. }
  change (inv m). clearbody inv. clear H0.
  induction Hm as [|x y z Hs _ IH]; [exact Hm0|].
  apply IH. by eapply Hstep.
Qed.

End ViewerInvariant.

Section ProgressFacts.
Import Runner Inventory Requests Progress.

Lemma fold_other_fallback_status (others : list (option Asset)) v :
  status (fold_left other_fallback others v) = status v /\
  render (fold_left other_fallback others v) = render v.
Proof.
  revert v. induction others as [|o others IH]; intros v; simpl; [done|].
  destruct (IH (other_fallback v o)) as [-> ->]. done.
Qed.

Lemma handleAsset_counted net n x v : counted n v -> counted n (handleAsset net x v).1.
Proof.
  unfold handleAsset, counted, status_ok. intros H.
  destruct (is_type "model" x).
  - destruct (truthy (mapped_file x)) as [f|]; [|done].
    by destruct (loadModelTemplate net f (cache v)).
  - destruct (is_type "image" x); [|done].
    destruct (truthy (mapped_file x)) as [f|]; [|done].
    by destruct (loadTextureByFile net f (cache v)).
Qed.

Lemma handleAsset_finally_counted n v :
  total (totals v) = n ->
  ok (totals v) + fallback (totals v) = S (loaded (totals v)) ->
  status_ok n v ->
  counted n (handleAsset_finally v).1.
Proof.
  unfold counted, status_ok, handleAsset_finally. intros Ht Hk Hs.
  cbv zeta. cbn [loaded total ok fallback totals world cache render status].
  destruct (Nat.eqb (S (loaded (totals v)) mod STATUS_UPDATE_EVERY) 0
            || Nat.eqb (S (loaded (totals v))) (total (totals v))) eqn:Hup;
    cbn [loaded total ok fallback].
  - assert (Hshown : S (loaded (totals v)) mod STATUS_UPDATE_EVERY = 0 \/
                     S (loaded (totals v)) = total (totals v)).
    { apply orb_true_iff in Hup as [H|H]; apply Nat.eqb_eq in H; auto. }
    destruct (Nat.eqb (S (loaded (totals v)) mod YIELD_TO_UI_EVERY) 0); simpl;
      (split; [done|]; split; [done|]; split; [done|]; split; [lia|]; split; [done|]);
      exact Hshown.
  - destruct (Nat.eqb (S (loaded (totals v)) mod YIELD_TO_UI_EVERY) 0); simpl;
      (split; [done|]; split; [done|]);
      destruct (status v) as [|l t [[o f]|]| |]; try done;
      destruct Hs as (? & ? & ? & ?); repeat split; auto; lia.
Qed.

Lemma handleAsset_resume_counted n k v :
  counted n v -> counted n (handleAsset_resume k v).1.
Proof.
  intros (Ht & Hk & Hs). destruct k as [x f p|x f p|x thrown|x [message|]|]; simpl.
  - by destruct (settles p).
  - by destruct (settles p).
  - done.
  - apply handleAsset_finally_counted; simpl; [done|lia|done].
  - apply handleAsset_finally_counted; simpl; [done|lia|done].
  - done.
Qed.

Lemma loading_counted assets r : counted (length assets) (loading assets (fresh r)).
Proof.
  unfold loading, counted, status_ok.
  match goal with |- context [fold_left other_fallback ?o ?v] =>
    destruct (fold_other_fallback o v) as (Ht & _ & _);
    destruct (fold_other_fallback_status o v) as (Hs & _) end.
  rewrite Ht, Hs. simpl. auto.
Qed.

(** X7.  While the status line reads [Cargando assets], the counts it
    shows are counts that [totals] had: those of ok and of fallback add up
    to the shown number of loaded assets, which is a multiple of
    [STATUS_UPDATE_EVERY] or the total, and never more than are loaded; the
    total is the length of the inventory.  When it reads [Listo], ok and
    fallback add up to the total.  No other text is shown while [main]
    handles the inventory. *)
Theorem status_line_adds_up
  (net : network) (assets : list (option Asset)) (r : RenderLoop.state) (m : main_state) :
  rtc (main_step net assets) (main net assets (fresh r)) m ->
  match status (viewer_of m) with
  | Cargando_inventario | Error_text => False
  | Cargando_assets l t None => l = 0 /\ t = length assets
  | Cargando_assets l t (Some (o, f)) =>
      o + f = l /\ l <= loaded (totals (viewer_of m)) /\ t = length assets /\
      (l mod STATUS_UPDATE_EVERY = 0 \/ l = t)
  | Listo t o f => t = length assets /\ o + f = t
  end.
Proof.
  intros Hm.
  pose proof (viewer_invariant net assets (counted (length assets))
                (handleAsset_counted net _) (handleAsset_resume_counted _) r m
                (loading_counted assets r) Hm) as H.
  destruct m as [st|st|v|v]; simpl in *.
  - destruct H as (_ & _ & H). unfold status_ok in H.
    by destruct (status (shared st)) as [|l t [[o f]|]| |].
  - destruct H as (_ & _ & H). unfold status_ok in H.
    by destruct (status (shared st)) as [|l t [[o f]|]| |].
  - destruct H as (v2 & -> & Ht & Hk & _). simpl. split; [done|].
    destruct (finished_viewer net assets _ (main_reachable net assets r _ Hm)) as (Hl & Ht' & _).
    simpl in *. lia.
  - destruct H.
Qed.

Lemma status_line_adds_up_witness :
  status (finish (shared demo_images_end)) = Listo 3 1 2 /\ 3 = 3 /\ 1 + 2 = 3.
Proof.
  split; [reflexivity|].
  exact (status_line_adds_up demo_net demo_assets _ _ demo_reaches_end).
Defined.

Lemma requestRender_on st :
  RenderLoop.frameRequested (RenderLoop.requestRender st) = true /\
  RenderLoop.renderLoopActive (RenderLoop.requestRender st) = true /\
  RenderLoop.mixers (RenderLoop.requestRender st) = RenderLoop.mixers st /\
  RenderLoop.hasAnimatedModels (RenderLoop.requestRender st) = RenderLoop.hasAnimatedModels st.
Proof. destruct st as [mx [] [] fr ck n]; repeat split; reflexivity. Qed.

(** X8.  When [main] ends, the status line reads [Listo] with the length
    of the inventory, the number of entries that loaded well and the number
    of those that failed; a frame is requested and the render loop is
    installed, so that the next animation frame draws the finished scene. *)
Theorem main_ends_ready
  (net : network) (assets : list (option Asset)) (r : RenderLoop.state) (v : viewer) :
  rtc (main_step net assets) (main net assets (fresh r)) (Finished v) ->
  status v = Listo (length assets) (length assets - failures net assets) (failures net assets) /\
  ok (totals v) = length assets - failures net assets /\
  failures net assets <= length assets /\
  RenderLoop.frameRequested (render v) = true /\
  RenderLoop.renderLoopActive (render v) = true /\
  forall needResize,
    RenderLoop.frames (RenderLoop.apply (RenderLoop.AnimationFrame needResize) (render v))
    = S (RenderLoop.frames (render v)).
Proof.
  intros Hm.
  pose proof (main_reachable net assets r _ Hm) as Hi.
  destruct (finished_viewer net assets _ Hi) as (Hl & Ht & Hf & _).
  pose proof (viewer_invariant net assets (counted (length assets))
                (handleAsset_counted net _) (handleAsset_resume_counted _) r _
                (loading_counted assets r) Hm) as (v2 & -> & _ & Hk & _).
  simpl in *. destruct (requestRender_on (render v2)) as (Hfr & Hact & _).
  assert (Hok : ok (totals v2) = length assets - failures net assets) by lia.
  split; [by rewrite Ht, Hok, Hf|]. split; [done|]. split; [lia|].
  split; [done|]. split; [done|].
  intros needResize. rewrite Hact. unfold RenderLoop.renderFrame.
  destruct (RenderLoop.requestRender (render v2)) as [mx an act fr ck n]. simpl in *. subst.
  destruct needResize, an; reflexivity.
Qed.

Lemma main_ends_ready_witness :
  status (finish (shared demo_images_end)) = Listo 3 (3 - 2) 2 /\
  RenderLoop.frames
    (RenderLoop.apply (RenderLoop.AnimationFrame false) (render (finish (shared demo_images_end))))
  = S (RenderLoop.frames (render (finish (shared demo_images_end)))).
Proof.
  destruct (main_ends_ready demo_net demo_assets _ _ demo_reaches_end) as (H & _ & _ & _ & _ & Hd).
  split; [exact H|apply Hd].
Defined.

Lemma handleAsset_mixers net x v : mixers_match v -> mixers_match (handleAsset net x v).1.
Proof.
  unfold handleAsset, mixers_match. intros H.
  destruct (is_type "model" x).
  - destruct (truthy (mapped_file x)) as [f|]; [|done].
    by destruct (loadModelTemplate net f (cache v)).
  - destruct (is_type "image" x); [|done].
    destruct (truthy (mapped_file x)) as [f|]; [|done].
    by destruct (loadTextureByFile net f (cache v)).
Qed.

Lemma registerModelAnimations_mixers clips st :
  RenderLoop.hasAnimatedModels st = negb (Nat.eqb (RenderLoop.mixers st) 0) ->
  RenderLoop.mixers (RenderLoop.registerModelAnimations clips st)
  = RenderLoop.mixers st + (if Nat.eqb clips 0 then 0 else 1) /\
  RenderLoop.hasAnimatedModels (RenderLoop.registerModelAnimations clips st)
  = negb (Nat.eqb (RenderLoop.mixers (RenderLoop.registerModelAnimations clips st)) 0).
Proof.
  unfold RenderLoop.registerModelAnimations. intros H.
  destruct (Nat.eqb clips 0); [split; [lia|done]|].
  destruct st as [mx an act fr ck n]. simpl in *.
  destruct an; simpl; [split; [lia|done]|].
  unfold RenderLoop.ensureRenderLoopState; simpl.
  destruct act; simpl; split; (lia || done).
Qed.

Lemma handleAsset_finally_mixers v :
  mixers_match v -> mixers_match (handleAsset_finally v).1.
Proof.
  unfold mixers_match, handleAsset_finally. intros [Hm Ha].
  destruct (requestRender_on (render v)) as (_ & _ & Hmx & Han).
  destruct (_ || _); destruct (Nat.eqb (_ mod YIELD_TO_UI_EVERY) 0); simpl;
    rewrite ?Hmx, ?Han; done.
Qed.

Lemma sum_animated_snoc l n :
  sum_list_with animated_node (l ++ [n]) = sum_list_with animated_node l + animated_node n.
Proof. rewrite sum_list_with_app. simpl. lia. Qed.

Lemma handleAsset_resume_mixers k v :
  mixers_match v -> mixers_match (handleAsset_resume k v).1.
Proof.
  intros [Hm Ha].
  destruct k as [x f p|x f p|x thrown|x [message|]|]; cbn [handleAsset_resume].
  - destruct (settles p); [|by split]. unfold mixers_match. cbn [fst world render].
    split; [rewrite sum_animated_snoc, Hm; cbn; lia|exact Ha].
  - destruct (settles p) as [entry|]; [|by split]. unfold mixers_match. cbn [fst world render].
    destruct (registerModelAnimations_mixers (animations entry) (render v) Ha) as [H1 H2].
    split; [|exact H2]. rewrite sum_animated_snoc, H1, Hm. reflexivity.
  - by split.
  - apply handleAsset_finally_mixers. unfold mixers_match, addFallbackPlane.
    cbn [fst world render]. split; [rewrite sum_animated_snoc, Hm; cbn; lia|exact Ha].
  - apply handleAsset_finally_mixers. by split.
  - by split.
Qed.

Lemma sum_animated_fallback (others : list (option Asset)) why :
  sum_list_with animated_node ((fun other => fallback_node other why) <$> others) = 0.
Proof. induction others as [|o l IH]; [done|]. rewrite fmap_cons. simpl. exact IH. Qed.

Lemma loading_mixers assets r :
  RenderLoop.mixers r = 0 -> RenderLoop.hasAnimatedModels r = false ->
  mixers_match (loading assets (fresh r)).
Proof.
  intros Hmx Han. unfold loading, mixers_match.
  match goal with |- context [fold_left other_fallback ?o ?v] =>
    destruct (fold_other_fallback o v) as (_ & Hw & _);
    destruct (fold_other_fallback_status o v) as (_ & Hr) end.
  rewrite Hw, Hr. simpl. rewrite Hmx, Han.
  split; [|done]. symmetry. apply sum_animated_fallback.
Qed.

(** X9.  The viewer has one animation mixer for every instance of a model
    with animation clips that it has added to the world, and
    [hasAnimatedModels] says whether there is one.  When [main] ends these
    are the entries of the inventory whose model loaded with clips, and the
    render loop is left running if there is one. *)
Theorem one_mixer_per_animated_model
  (net : network) (assets : list (option Asset)) (r : RenderLoop.state) (m : main_state) :
  RenderLoop.mixers r = 0 -> RenderLoop.hasAnimatedModels r = false ->
  rtc (main_step net assets) (main net assets (fresh r)) m ->
  RenderLoop.mixers (render (viewer_of m)) = sum_list_with animated_node (world (viewer_of m)) /\
  RenderLoop.hasAnimatedModels (render (viewer_of m))
  = negb (Nat.eqb (RenderLoop.mixers (render (viewer_of m))) 0) /\
  (forall v, m = Finished v ->
     RenderLoop.mixers (render v) = sum_list_with animated_node (final_node net <$> assets)).
Proof.
  intros Hmx Han Hm.
  pose proof (viewer_invariant net assets mixers_match
                (handleAsset_mixers net) handleAsset_resume_mixers r m
                (loading_mixers assets r Hmx Han) Hm) as H.
  assert (Hv : mixers_match (viewer_of m)).
  { destruct m as [st|st|v|v]; simpl in *; try done.
    destruct H as (v2 & -> & H1 & H2). unfold mixers_match. simpl.
    destruct (requestRender_on (render v2)) as (_ & _ & -> & ->). done. }
  destruct Hv as [H1 H2]. split; [done|]. split; [done|].
  intros v ->. simpl in *. rewrite H1.
  destruct (finished_viewer net assets _ (main_reachable net assets r _ Hm)) as (_ & _ & _ & Hw).
  clear -Hw. induction Hw; simpl; lia.
Qed.

Lemma walking_reaches_end :
  rtc (main_step walking_net walking_assets)
      (main walking_net walking_assets (fresh RenderLoop.started))
      (Finished (finish (shared
         (runWithConcurrency (imageAssets walking_assets) (handleAsset walking_net)
            IMAGE_CONCURRENCY (shared walking_end))))).
Proof.
  apply rtc_trans with (InModels walking_end); [apply lift_models, run_reachable|].
  eapply rtc_l; [apply (models_resolved _ _ walking_end); reflexivity|].
  apply rtc_once. apply images_resolved. reflexivity.
Qed.

Lemma one_mixer_per_animated_model_witness :
  RenderLoop.mixers (render (finish (shared
     (runWithConcurrency (imageAssets walking_assets) (handleAsset walking_net)
        IMAGE_CONCURRENCY (shared walking_end))))) = 1.
Proof.
  destruct (one_mixer_per_animated_model walking_net walking_assets RenderLoop.started _
              eq_refl eq_refl
              walking_reaches_end) as (_ & _ & H).
  exact (H _ eq_refl).
Defined.

End ProgressFacts.

(** ** Which loader is called when, and for which files *)

Section RequestOrder.
Import Runner Inventory Requests.

(** X10.  The models come first: as long as [main] is in the batch of the
    models, no texture was requested and the texture cache is empty. *)
Theorem no_texture_is_requested_before_the_models_are_done
  (net : network) (assets : list (option Asset)) (r : RenderLoop.state)
  (st : state viewer suspended) :
  rtc (main_step net assets) (main net assets (fresh r)) (InModels st) ->
  textureLoads (cache (shared st)) = [] /\
  forall f, texturePromiseCache (cache (shared st)) !! f = None.
Proof.
  intros Hm. destruct (requests_reachable net assets r _ Hm) as (_ & (Ht & _) & Htex & _).
  split; [exact Htex|]. intros f.
  destruct (texturePromiseCache (cache (shared st)) !! f) as [p|] eqn:Hf; [|done].
  assert (Hin : f ∈ textureLoads (cache (shared st))) by (apply Ht; eauto).
  rewrite Htex in Hin. by apply not_elem_of_nil in Hin.
Qed.

Lemma no_texture_is_requested_before_the_models_are_done_witness :
  textureLoads (cache (shared
    (run (modelAssets demo_assets) (handleAsset demo_net) handleAsset_resume [0; 0]
       (runWithConcurrency (modelAssets demo_assets) (handleAsset demo_net) MODEL_CONCURRENCY
          (loading demo_assets (fresh RenderLoop.started)))))) = [].
Proof.
  refine (proj1 (no_texture_is_requested_before_the_models_are_done
                   demo_net demo_assets RenderLoop.started _ _)).
  apply lift_models, run_reachable.
Defined.

Lemma images_step_modelLoads net assets id st st' :
  step (imageAssets assets) (handleAsset net) handleAsset_resume id st = Some st' ->
  modelLoads (cache (shared st')) = modelLoads (cache (shared st)).
Proof.
  intros Hs.
  apply (step_invariant (imageAssets assets) (handleAsset net) handleAsset_resume
           (fun v _ _ => modelLoads (cache v) = modelLoads (cache (shared st)))
           ltac:(auto)) with (id := id) (st := st); [| |exact Hs|reflexivity].
  - intros v i ks x Hv Hx.
    assert (Hi : is_type "model" x = false /\ is_type "image" x = true).
    { apply (imageAssets_image assets), list_elem_of_lookup. eauto. }
    destruct Hi as [Hmod Himg]. unfold handleAsset. rewrite Hmod, Himg.
    destruct (truthy (mapped_file x)) as [f|]; [|done].
    unfold loadTextureByFile. by destruct (texturePromiseCache (cache v) !! f).
  - intros v i ks k Hv. by destruct (handleAsset_resume_spec k v) as (-> & _).
Qed.

(** X11.  Once the batch of the images has begun, no model file is requested
    any more: the calls of [gltfLoader.load] stay what they were. *)
Theorem no_model_is_requested_after_the_models_are_done
  (net : network) (assets : list (option Asset)) (r : RenderLoop.state)
  (st : state viewer suspended) (m : main_state) :
  rtc (main_step net assets) (main net assets (fresh r)) (InImages st) ->
  rtc (main_step net assets) (InImages st) m ->
  modelLoads (cache (viewer_of m)) = modelLoads (cache (shared st)).
Proof.
  intros Hst Hm.
  set (inv := fun m : main_state =>
                main_inv net assets m /\
                match m with
                | InModels _ => False
                | _ => modelLoads (cache (viewer_of m)) = modelLoads (cache (shared st))
                end).
  assert (H0 : inv (InImages st)).
  { split; [by eapply main_reachable|done]. }
  assert (Hstep : forall x y, inv x -> main_step net assets x y -> inv y).
  { intros x y [Hi Hx] Hs. split; [by eapply main_inv_step|].
    destruct Hs as [s s' Hs|s Hres|s Hf|s s' [id Hs]|s Hres|s Hf]; simpl in *; try done.
    by rewrite (images_step_modelLoads _ _ _ _ _ Hs). }
  assert (Hinv : inv m).
  { clearbody inv. clear Hst.
    induction Hm as [|x y z Hs _ IH]; [exact H0|]. apply IH. by eapply Hstep. }
  destruct Hinv as [_ Hinv]. by destruct m.
Qed.

Lemma no_model_is_requested_after_the_models_are_done_witness :
  modelLoads (cache (finish (shared demo_images_end))) = [("a.glb")%string].
Proof.
  refine (no_model_is_requested_after_the_models_are_done demo_net demo_assets
            RenderLoop.started
            (runWithConcurrency (imageAssets demo_assets) (handleAsset demo_net)
               IMAGE_CONCURRENCY (shared demo_models_end))
            (Finished (finish (shared demo_images_end))) _ _).
  - apply rtc_trans with (InModels demo_models_end); [apply lift_models, run_reachable|].
    apply rtc_once. apply (models_resolved _ _ demo_models_end). reflexivity.
  - apply rtc_trans with (InImages demo_images_end); [apply lift_images, run_reachable|].
    apply rtc_once. apply (images_resolved _ _ demo_images_end). reflexivity.
Defined.

Lemma files_elem_of (items : list Asset) f :
  f ∈ files items <-> exists asset, asset ∈ items /\ truthy (mapped_file asset) = Some f.
Proof. unfold files. apply list_elem_of_omap. Qed.

Lemma modelAssets_elem_of assets asset :
  asset ∈ modelAssets assets <-> Some asset ∈ assets /\ is_type "model" asset = true.
Proof.
  unfold modelAssets. rewrite list_elem_of_omap. split.
  - intros ([x|] & Hin & Hx); simpl in Hx; [|discriminate].
    destruct (is_type "model" x) eqn:Hm; [|discriminate]. by inversion Hx; subst.
  - intros [Hin Hm]. exists (Some asset). split; [done|]. simpl. by rewrite Hm.
Qed.

Lemma imageAssets_elem_of assets asset :
  asset ∈ imageAssets assets <-> Some asset ∈ assets /\ is_type "image" asset = true.
Proof.
  unfold imageAssets. rewrite list_elem_of_omap. split.
  - intros ([x|] & Hin & Hx); simpl in Hx; [|discriminate].
    destruct (is_type "image" x) eqn:Hm; [|discriminate]. by inversion Hx; subst.
  - intros [Hin Hm]. exists (Some asset). split; [done|]. simpl. by rewrite Hm.
Qed.

(** X12.  When [main] ends, [gltfLoader.load] was called once for every file
    that an entry of type model names and for no other file, and
    [textureLoader.load] once for every file that an entry of type image
    names and for no other; entries that name the same file share one
    call. *)
Theorem each_named_file_is_requested_once
  (net : network) (assets : list (option Asset)) (r : RenderLoop.state) (v : viewer) :
  rtc (main_step net assets) (main net assets (fresh r)) (Finished v) ->
  NoDup (modelLoads (cache v)) /\
  NoDup (textureLoads (cache v)) /\
  (forall f, f ∈ modelLoads (cache v) <->
     exists asset, Some asset ∈ assets /\ is_type "model" asset = true /\
                   truthy (mapped_file asset) = Some f) /\
  (forall f, f ∈ textureLoads (cache v) <->
     exists asset, Some asset ∈ assets /\ is_type "image" asset = true /\
                   truthy (mapped_file asset) = Some f).
Proof.
  intros Hm. destruct (requests_reachable net assets r _ Hm) as (Hi & _ & Hmod & Htex).
  rewrite take_ge in Htex by done.
  destruct Hi as (v2 & -> & (_ & _ & _ & _ & Hnt & Hnm) & _). simpl in *.
  split; [exact Hnm|]. split; [exact Hnt|]. split; intros f.
  - rewrite Hmod, files_elem_of. split.
    + intros (a & Ha & Hf). apply modelAssets_elem_of in Ha as [H1 H2]. eauto.
    + intros (a & H1 & H2 & Hf). exists a. split; [|done]. by apply modelAssets_elem_of.
  - rewrite Htex, files_elem_of. split.
    + intros (a & Ha & Hf). apply imageAssets_elem_of in Ha as [H1 H2]. eauto.
    + intros (a & H1 & H2 & Hf). exists a. split; [|done]. by apply imageAssets_elem_of.
Qed.

Lemma each_named_file_is_requested_once_witness :
  ("b.png")%string ∈ textureLoads (cache (finish (shared demo_images_end))).
Proof.
  destruct (each_named_file_is_requested_once demo_net demo_assets _ _ demo_reaches_end)
    as (_ & _ & _ & H).
  apply H. exists (mkAsset (Some "image") (Some "b.png") None).
  split; [|split; reflexivity]. apply list_elem_of_further, list_elem_of_here.
Defined.

End RequestOrder.

(** ** The stage of the inventory viewer *)

Section StageFacts.
Import Js Transform Camera Stage.
#[local] Open Scope R_scope.

(** A box that is neither empty nor infinite has real corners, the lower
    one below the upper one. *)
Lemma box_corners (box : Box3) :
  isEmpty box = false -> isFiniteBox box = true ->
  exists x0 y0 z0 x1 y1 z1,
    box = mkBox3 (mkNVector3 (Fin x0) (Fin y0) (Fin z0)) (mkNVector3 (Fin x1) (Fin y1) (Fin z1)) /\
    x0 <= x1 /\ y0 <= y1 /\ z0 <= z1.
Proof.
  destruct box as [[a0 b0 c0] [a1 b1 c1]]. unfold isEmpty, isFiniteBox, isFiniteVec3. simpl.
  intros He Hf.
  destruct a0 as [x0| | |], b0 as [y0| | |], c0 as [z0| | |]; try discriminate;
  destruct a1 as [x1| | |], b1 as [y1| | |], c1 as [z1| | |]; try discriminate.
  exists x0, y0, z0, x1, y1, z1. split; [reflexivity|]. simpl in He.
  destruct (Rlt_dec x1 x0); [discriminate|].
  destruct (Rlt_dec y1 y0); [discriminate|].
  destruct (Rlt_dec z1 z0); [discriminate|]. lra.
Qed.

Lemma fit_inversion fov box offset fit :
  fitCameraToObject fov box offset = Some fit ->
  isEmpty box = false /\ isFiniteBox box = true /\
  fit = mkFit (cameraZ fit)
          (mkVector3 (vx (getCenter box))
                     (vy (getCenter box) + Rmax (maxDim (getSize box)) 1 * (8 / 100))
                     (vz (getCenter box) + cameraZ fit))
          (Rmax (Rmin (Rmax (maxDim (getSize box)) 1 / 1000) (2 / 10)) (1 / 100))
          (Rmax (Rmax (Rmax (maxDim (getSize box)) 1 * 20) (cameraZ fit * 8)) 1200)
          (Some (clamp ((45 / 100) / Rmax (cameraZ fit) 1) (18 / 100000) (12 / 10000)))
          (getCenter box) /\
  cameraZ fit =
    clamp (Rabs ((Rmax (maxDim (getSize box)) 1 / 2) / tan (fov * (PI / 180) / 2))
           * asNumber offset (13 / 10)) 10 280.
Proof.
  unfold fitCameraToObject. intros H.
  destruct (isEmpty box) eqn:He; [discriminate|].
  destruct (isFiniteBox box) eqn:Hf; [|discriminate].
  simpl in H. inversion H; subst; clear H. simpl. by repeat split.
Qed.

(** X13.  Every fit of the inventory viewer leaves the near plane between 0.01
    and 0.2, in front of the centre of the content, and the far plane at
    least 1200 away, at least 8 times as far as the centre and 20 times the
    size of the content.  The camera looks at the centre from above: the
    controls' target is the centre, the camera has its x and is not lower.
    The density of the fog after a fit is always 0.0012: the distance is at
    most 280, so that [0.45 / cameraZ] is above the upper limit. *)
Theorem fit_sets_planes_and_fog (fov : R) (box : Box3) (offset : value) (fit : Fit) :
  fitCameraToObject fov box offset = Some fit ->
  1 / 100 <= cam_near fit <= 2 / 10 /\
  cam_near fit < cameraZ fit < cam_far fit /\
  1200 <= cam_far fit /\
  8 * cameraZ fit <= cam_far fit /\
  20 * maxDim (getSize box) <= cam_far fit /\
  fog_density fit = Some (12 / 10000) /\
  controls_target fit = getCenter box /\
  vx (cam_position fit) = vx (getCenter box) /\
  vy (getCenter box) < vy (cam_position fit).
Proof.
  intros H. destruct (fit_inversion _ _ _ _ H) as (_ & _ & Hfit & Hz).
  assert (Hrange : 10 <= cameraZ fit <= 280) by (rewrite Hz; apply clamp_range; lra).
  rewrite Hfit. simpl. clear Hfit Hz H.
  set (m := maxDim (getSize box)) in *.
  set (z := cameraZ fit) in *.
  assert (Hfog : clamp ((45 / 100) / Rmax z 1) (18 / 100000) (12 / 10000) = 12 / 10000).
  { assert (Hmax : Rmax z 1 = z) by (apply Rmax_left; lra). rewrite Hmax.
    assert (Hd : 12 / 10000 <= 45 / 100 / z).
    { apply Rmult_le_reg_r with z; [lra|]. unfold Rdiv at 2. unfold Rdiv at 2.
      rewrite !Rmult_assoc, Rinv_l by lra. lra. }
    unfold clamp. rewrite Rmax_right by lra. apply Rmin_left. exact Hd. }
  rewrite Hfog.
  unfold Rmax, Rmin.
  repeat match goal with
         | |- context [Rle_dec ?a ?b] => destruct (Rle_dec a b)
         | H : context [Rle_dec ?a ?b] |- _ => destruct (Rle_dec a b)
         end;
    repeat split; try reflexivity; lra.
Qed.

Lemma fit_sets_planes_and_fog_witness :
  exists fit,
    fitCameraToObject camera_fov
      (mkBox3 (mkNVector3 (Fin (-1)) (Fin (-1)) (Fin 0)) (mkNVector3 (Fin 1) (Fin 1) (Fin 0)))
      (Num (Fin (14 / 10))) = Some fit /\
    fog_density fit = Some (12 / 10000).
Proof.
  assert (He : isEmpty (mkBox3 (mkNVector3 (Fin (-1)) (Fin (-1)) (Fin 0))
                               (mkNVector3 (Fin 1) (Fin 1) (Fin 0))) = false).
  { unfold isEmpty. simpl.
    destruct (Rlt_dec 1 (-1)) as [H|_]; [lra|].
    destruct (Rlt_dec 0 0) as [H|_]; [lra|]. reflexivity. }
  unfold fitCameraToObject. rewrite He. simpl.
  eexists. split; [reflexivity|].
  refine (proj1 (proj2 (proj2 (proj2 (proj2 (proj2
            (fit_sets_planes_and_fog camera_fov
               (mkBox3 (mkNVector3 (Fin (-1)) (Fin (-1)) (Fin 0))
                       (mkNVector3 (Fin 1) (Fin 1) (Fin 0)))
               (Num (Fin (14 / 10))) _ _))))))).
  unfold fitCameraToObject. rewrite He. reflexivity.
Defined.

Lemma maxDim_nonneg_box (box : Box3) :
  isEmpty box = false -> isFiniteBox box = true -> 0 <= maxDim (getSize box).
Proof.
  intros He Hf. destruct (box_corners box He Hf) as (x0 & y0 & z0 & x1 & y1 & z1 & Hb & ? & ? & ?).
  unfold getSize. rewrite He. subst box. simpl. unfold maxDim. simpl.
  unfold Rmax. repeat match goal with |- context [Rle_dec ?a ?b] => destruct (Rle_dec a b) end; lra.
Qed.

(** X14.  With an offset of at least 1 the content fits the view: at the depth
    of its centre, half the height of the view is at least half the largest
    dimension of the content.  For the inventory viewer this holds unless
    the distance was cut at 280; for the sculpture viewer, whose fit has no
    limits, always. *)
Theorem content_fits_the_view :
  (forall box k fit,
     fitCameraToObject camera_fov box (Num (Fin k)) = Some fit ->
     1 <= k -> cameraZ fit < 280 ->
     maxDim (getSize box) / 2 <= cameraZ fit * tan (camera_fov * (PI / 180) / 2)) /\
  (forall size center k,
     1 <= k -> 0 <= maxDim size ->
     maxDim size / 2 <=
     cameraZ (Sculpture.fitCameraToObject camera_fov size center k)
     * tan (camera_fov * (PI / 180) / 2)).
Proof.
  pose proof tan_half_camera_fov as Ht.
  set (t := tan (camera_fov * (PI / 180) / 2)) in *.
  assert (Habs : forall a, 0 <= a -> Rabs (a / t) * t = a).
  { intros a Ha. rewrite Rabs_right.
    - field. lra.
    - apply Rle_ge. apply Rmult_le_pos; [exact Ha|]. left. apply Rinv_0_lt_compat. lra. }
  split.
  - intros box k fit H Hk Hlt.
    destruct (fit_inversion _ _ _ _ H) as (He & Hf & _ & Hz).
    pose proof (maxDim_nonneg_box box He Hf) as Hm.
    fold t in Hz. unfold asNumber in Hz. simpl in Hz.
    set (m := maxDim (getSize box)) in *.
    assert (Hs : m <= Rmax m 1) by apply Rmax_l.
    assert (Hs1 : 1 <= Rmax m 1) by apply Rmax_r.
    pose proof (Habs (Rmax m 1 / 2) ltac:(lra)) as Ha.
    set (z0 := Rabs (Rmax m 1 / 2 / t)) in *.
    assert (Hz0 : 0 <= z0) by apply Rabs_pos.
    assert (Hge : z0 * k <= cameraZ fit).
    { rewrite Hz in *. unfold clamp, Rmin, Rmax in *.
      repeat match goal with
             | H : context [Rle_dec ?a ?b] |- _ => destruct (Rle_dec a b)
             | |- context [Rle_dec ?a ?b] => destruct (Rle_dec a b)
             end; lra. }
    assert (Hzk : z0 <= z0 * k) by nra. nra.
  - intros size center k Hk Hm. unfold Sculpture.fitCameraToObject. simpl. fold t.
    pose proof (Habs (maxDim size / 2) ltac:(lra)) as Ha.
    assert (Hz0 : 0 <= Rabs (maxDim size / 2 / t)) by apply Rabs_pos. nra.
Qed.

(** X14 at the box from (-1,-1,0) to (1,1,0) with the offset 1.4 of the
    inventory viewer: the camera is 10 away, and the view is wide enough. *)
Lemma content_fits_the_view_witness :
  exists fit,
    fitCameraToObject camera_fov
      (mkBox3 (mkNVector3 (Fin (-1)) (Fin (-1)) (Fin 0)) (mkNVector3 (Fin 1) (Fin 1) (Fin 0)))
      (Num (Fin (14 / 10))) = Some fit /\
    cameraZ fit = 10 /\
    maxDim (getSize (mkBox3 (mkNVector3 (Fin (-1)) (Fin (-1)) (Fin 0))
                            (mkNVector3 (Fin 1) (Fin 1) (Fin 0)))) / 2
    <= cameraZ fit * tan (camera_fov * (PI / 180) / 2).
Proof.
  set (box := mkBox3 (mkNVector3 (Fin (-1)) (Fin (-1)) (Fin 0)) (mkNVector3 (Fin 1) (Fin 1) (Fin 0))).
  assert (He : isEmpty box = false).
  { unfold isEmpty, box. simpl.
    destruct (Rlt_dec 1 (-1)) as [H|_]; [lra|].
    destruct (Rlt_dec 0 0) as [H|_]; [lra|]. reflexivity. }
  assert (Hex : exists fit, fitCameraToObject camera_fov box (Num (Fin (14 / 10))) = Some fit).
  { unfold fitCameraToObject. rewrite He. simpl. eauto. }
  destruct Hex as [fit Hfit].
  assert (Hz : cameraZ fit = 10).
  { destruct (fit_inversion _ _ _ _ Hfit) as (_ & _ & _ & Hz). rewrite Hz.
    assert (Hm : maxDim (getSize box) = 2).
    { unfold getSize. rewrite He. unfold box, maxDim. simpl.
      replace (1 - -1) with 2 by lra. replace (0 - 0) with 0 by lra.
      rewrite (Rmax_left 2 2) by lra. apply Rmax_left. lra. }
    rewrite Hm, (Rmax_left 2 1) by lra. unfold asNumber. simpl.
    pose proof tan_half_camera_fov as [Ht0 Ht1].
    assert (Hlow : 1 / 4 <= tan (camera_fov * (PI / 180) / 2)).
    { unfold camera_fov. pose proof PI_RGT_0 as Hpi.
      set (x := 50 * (PI / 180) / 2).
      assert (Hx : 0 < x < PI / 2) by (unfold x; lra).
      assert (Hs2 : 1 / 2 <= sin (2 * x)).
      { rewrite <- sin_PI6. apply sin_incr_1; unfold x; lra. }
      rewrite sin_2a in Hs2.
      assert (Hc : 0 < cos x) by (apply cos_gt_0; lra).
      pose proof (COS_bound x) as [_ Hc1].
      assert (Hs : 0 <= sin x) by (apply sin_ge_0; lra).
      assert (Hsx : 1 / 4 <= sin x) by nra.
      unfold tan. apply Rmult_le_reg_r with (cos x); [exact Hc|].
      unfold Rdiv at 2. rewrite Rmult_assoc, Rinv_l by lra. nra. }
    set (t := tan (camera_fov * (PI / 180) / 2)) in *.
    assert (Hq : 0 <= 2 / 2 / t <= 4).
    { replace (2 / 2 / t) with (/ t) by (field; lra).
      assert (Hi : 0 < / t) by (by apply Rinv_0_lt_compat).
      assert (Hu : / t * t = 1) by (field; lra). split; nra. }
    rewrite Rabs_right by lra.
    unfold clamp. rewrite Rmax_left by lra. apply Rmin_right. lra. }
  exists fit. split; [exact Hfit|]. split; [exact Hz|].
  apply (proj1 content_fits_the_view box (14 / 10) fit Hfit); lra.
Defined.






#[local] Close Scope R_scope.

Lemma configureModelForScene_spec (root : list bool) (budget : nat) :
  let '(flags, remaining) := configureModelForScene root budget in
  length flags = length root /\
  casters flags = Nat.min budget (meshes root) /\
  remaining = budget - meshes root /\
  (forall i, (flags !! i = Some (Some true) <->
              root !! i = Some true /\ meshes (take i root) < budget) /\
             (flags !! i = Some None <-> root !! i = Some false)).
Proof.
  unfold configureModelForScene. revert budget.
  induction root as [|isMesh nodes IH]; intros budget.
  - simpl. split; [done|]. split; [unfold casters, meshes; simpl; lia|].
    split; [unfold meshes; simpl; lia|].
    intros i. rewrite !lookup_nil.
    split; split; [discriminate|intros [? _]; discriminate|discriminate|discriminate].
  - simpl. destruct isMesh.
    + cbn [enableShadows VIEWER_CONFIG].
      specialize (IH (if Nat.ltb 0 budget then budget - 1 else budget)).
      destruct (configureModelWith VIEWER_CONFIG nodes
                  (if Nat.ltb 0 budget then budget - 1 else budget)) as [flags remaining].
      destruct IH as (Hlen & Hc & Hl & Hi).
      unfold casters, meshes in *. simpl.
      destruct (Nat.ltb_spec 0 budget) as [Hpos|Hzero]; simpl.
      * split; [lia|]. split; [lia|]. split; [lia|].
        intros [|i]; simpl.
        -- split; [split; [intros _; split; [done|lia]|done]|]. split; discriminate.
        -- destruct (Hi i) as [H1 H2]. split; [|exact H2].
           rewrite H1. split; intros [? ?]; (split; [done|lia]).
      * assert (budget = 0) by lia. subst budget.
        split; [lia|]. split; [lia|]. split; [lia|].
        intros [|i]; simpl.
        -- split; [split; [discriminate|intros [_ ?]; lia]|]. split; discriminate.
        -- destruct (Hi i) as [H1 H2]. split; [|exact H2].
           rewrite H1. split; intros [? ?]; (split; [done|lia]).
    + specialize (IH budget).
      destruct (configureModelWith VIEWER_CONFIG nodes budget) as [flags remaining].
      destruct IH as (Hlen & Hc & Hl & Hi).
      unfold casters, meshes in *. simpl.
      split; [lia|]. split; [lia|]. split; [lia|].
      intros [|i]; simpl.
      * split; [split; [discriminate|intros [? _]; discriminate]|]. done.
      * apply Hi.
Qed.

(** X17.  However many models are configured, the meshes that cast a shadow are
    the first of all meshes, in the order in which the models are added and
    traversed, up to the budget: their number is the smaller of the budget
    and the number of all meshes, never more than the limit of 80 that the
    viewer starts with, and the budget that is left is the rest. *)
Theorem shadow_casters_stay_within_the_budget (models : list (list bool)) (budget : nat) :
  let '(flags, remaining) := configureModels models budget in
  sum_list_with casters flags = Nat.min budget (sum_list_with meshes models) /\
  remaining = budget - sum_list_with meshes models /\
  sum_list_with casters flags + remaining = budget /\
  length flags = length models /\
  (budget = shadowCasterLimit VIEWER_CONFIG -> sum_list_with casters flags <= 80).
Proof.
  revert budget. induction models as [|root rest IH]; intros budget; simpl.
  - repeat split; lia.
  - pose proof (configureModelForScene_spec root budget) as Hroot.
    destruct (configureModelForScene root budget) as [flags mid].
    destruct Hroot as (_ & Hc & Hmid & _).
    specialize (IH mid). destruct (configureModels rest mid) as [others remaining].
    destruct IH as (Hcs & Hleft & _ & Hlen & _). simpl.
    split; [lia|]. split; [lia|]. split; [lia|]. split; [lia|].
    intros Hb. lia.
Qed.

(** X18.  On every model, the meshes that cast a shadow are the first ones of
    the traversal, as many as the budget allows; every mesh gets the flag
    and no other node does. *)
Theorem shadows_go_to_the_first_meshes (root : list bool) (budget : nat) (i : nat) :
  let flags := (configureModelForScene root budget).1 in
  (flags !! i = Some (Some true) <-> root !! i = Some true /\ meshes (take i root) < budget) /\
  (flags !! i = Some (Some false) <-> root !! i = Some true /\ budget <= meshes (take i root)) /\
  (flags !! i = Some None <-> root !! i = Some false) /\
  length flags = length root.
Proof.
  pose proof (configureModelForScene_spec root budget) as H.
  destruct (configureModelForScene root budget) as [flags remaining]. simpl.
  destruct H as (Hlen & _ & _ & Hi). destruct (Hi i) as [H1 H2].
  split; [exact H1|]. split; [|split; [exact H2|exact Hlen]].
  destruct (flags !! i) as [[[|]|]|] eqn:Hf.
  - split; [discriminate|]. intros [Hr Hb].
    destruct (proj1 H1 eq_refl) as [_ ?]. lia.
  - split; [|done]. intros _.
    destruct (root !! i) as [[|]|] eqn:Hr.
    + split; [done|]. destruct (Nat.le_gt_cases budget (meshes (take i root))); [done|].
      assert (Some (Some false) = Some (Some true)) by (apply H1; done). discriminate.
    + assert (Some (Some false) = Some (@None bool)) by (apply H2; done). discriminate.
    + apply lookup_ge_None in Hr. apply lookup_lt_Some in Hf. lia.
  - split; [discriminate|]. intros [Hr _].
    assert (Hr' : root !! i = Some false) by (apply H2; done). congruence.
  - split; [discriminate|]. intros [Hr _].
    apply lookup_ge_None in Hf. apply lookup_lt_Some in Hr. lia.
Qed.

End StageFacts.

(** ** The size of an image plane *)

Section PlaneSizeFacts.
Import Js PlaneSize.
#[local] Open Scope R_scope.

Lemma unit_size (w h : R) :
  0 < w -> 0 < h ->
  0 < w / Rmax w h <= 1 /\ 0 < h / Rmax w h <= 1 /\
  Rmax (w / Rmax w h) (h / Rmax w h) = 1 /\
  w / Rmax w h * h = h / Rmax w h * w.
Proof.
  intros Hw Hh.
  assert (Hm : 0 < Rmax w h) by (pose proof (Rmax_l w h); lra).
  assert (Hi : 0 < / Rmax w h) by (by apply Rinv_0_lt_compat).
  assert (H1 : Rmax w h * / Rmax w h = 1) by (apply Rinv_r; lra).
  pose proof (Rmax_l w h) as Hl. pose proof (Rmax_r w h) as Hr.
  unfold Rdiv. split; [split; nra|]. split; [split; nra|]. split.
  - rewrite !(Rmult_comm _ (/ Rmax w h)), RmaxRmult by lra. lra.
  - ring.
Qed.

Lemma plane_size_positive (t : option texture) :
  0 < (getPlaneSizeFromTexture t).1 /\ 0 < (getPlaneSizeFromTexture t).2.
Proof.
  unfold getPlaneSizeFromTexture.
  destruct (Rle_dec (read_width t) 0) as [Hw|Hw]; [simpl; lra|].
  destruct (Rle_dec (read_height t) 0) as [Hh|Hh]; [simpl; lra|].
  destruct (unit_size (read_width t) (read_height t) ltac:(lra) ltac:(lra))
    as ([H1 _] & [H2 _] & _).
  by split.
Qed.

(** X19.  In both viewers the size of an image plane has 1 as its larger side
    and a positive smaller side, and it has the proportions of the image
    whenever the width and the height that the viewer reads are positive;
    otherwise it is the fallback size of 1 by 1. *)
Theorem plane_size_is_normalised (t : option texture) :
  (let '(w, h) := getPlaneSizeFromTexture t in
   0 < w <= 1 /\ 0 < h <= 1 /\ Rmax w h = 1 /\
   (0 < read_width t -> 0 < read_height t -> w * read_height t = h * read_width t) /\
   (read_width t <= 0 \/ read_height t <= 0 -> (w, h) = FALLBACK_SIZE)) /\
  (let '(w, h) := sculpture_getPlaneSizeFromTexture t in
   0 < w <= 1 /\ 0 < h <= 1 /\ Rmax w h = 1 /\
   (forall width height,
      sculpture_width t = Fin width -> sculpture_height t = Fin height ->
      0 < width -> 0 < height -> w * height = h * width) /\
   (forall width height,
      sculpture_width t = Fin width -> sculpture_height t = Fin height ->
      width <= 0 \/ height <= 0 -> (w, h) = FALLBACK_SIZE) /\
   (isFinite (sculpture_width t) = false \/ isFinite (sculpture_height t) = false ->
    (w, h) = FALLBACK_SIZE)).
Proof.
  assert (Hfb : 0 < 1 <= 1 /\ 0 < 1 <= 1 /\ Rmax 1 1 = 1).
  { split; [lra|]. split; [lra|]. apply Rmax_left. lra. }
  split.
  - unfold getPlaneSizeFromTexture.
    destruct (Rle_dec (read_width t) 0) as [Hw|Hw].
    { simpl. destruct Hfb as (? & ? & ?). repeat split; try lra; try done. }
    destruct (Rle_dec (read_height t) 0) as [Hh|Hh].
    { simpl. destruct Hfb as (? & ? & ?). repeat split; try lra; try done. }
    destruct (unit_size (read_width t) (read_height t) ltac:(lra) ltac:(lra))
      as (H1 & H2 & H3 & H4).
    split; [exact H1|]. split; [exact H2|]. split; [exact H3|]. split; [done|].
    intros [H|H]; lra.
  - unfold sculpture_getPlaneSizeFromTexture.
    destruct (sculpture_width t) as [width| | |] eqn:Ew;
      destruct (sculpture_height t) as [height| | |] eqn:Eh;
      try (simpl; destruct Hfb as (? & ? & ?); repeat split; try lra; try done;
           intros; discriminate).
    destruct (Rle_dec width 0) as [Hw|Hw].
    { simpl. destruct Hfb as (? & ? & ?). repeat split; try lra; try done.
      intros w' h' Hw' Hh'. inversion Hw'; inversion Hh'; subst. lra. }
    destruct (Rle_dec height 0) as [Hh|Hh].
    { simpl. destruct Hfb as (? & ? & ?). repeat split; try lra; try done.
      intros w' h' Hw' Hh'. inversion Hw'; inversion Hh'; subst. lra. }
    destruct (unit_size width height ltac:(lra) ltac:(lra)) as (H1 & H2 & H3 & H4).
    split; [exact H1|]. split; [exact H2|]. split; [exact H3|]. split; [|split].
    + intros w' h' Hw' Hh'. inversion Hw'; inversion Hh'; subst. done.
    + intros w' h' Hw' Hh'. inversion Hw'; inversion Hh'; subst. intros [H|H]; lra.
    + simpl. intros [H|H]; discriminate.
Qed.

Lemma read_agrees (a b c : option num) :
  masked a b c = false ->
  match Number (to_value (coalesce (coalesce (coalesce a b) c) (Some (Fin 0)))) with
  | Fin r => asNumber (to_value (or_else (or_else a b) c)) 0 = r \/
             (r <= 0 /\ asNumber (to_value (or_else (or_else a b) c)) 0 <= 0)
  | _ => asNumber (to_value (or_else (or_else a b) c)) 0 <= 0
  end.
Proof.
  unfold masked, or_else, coalesce, truthy, truthy_num, asNumber.
  destruct a as [[ra| | |]|], b as [[rb| | |]|], c as [[rc| | |]|]; simpl;
    repeat match goal with
           | |- context [Req_dec_T ?x 0] => destruct (Req_dec_T x 0); simpl
           end;
    intros H; try discriminate; try lra; auto; try (right; lra).
Qed.

(** X20.  The two viewers give an image plane the same size, unless for the
    width or for the height the first property that the image has is 0 or
    [NaN] while a later one is truthy: an image element that has not loaded
    has [naturalWidth] 0 and gets the size of its attributes in the inventory
    viewer, and the fallback size in the sculpture viewer. *)
Theorem plane_sizes_agree_unless_masked :
  (forall img,
     masked (naturalWidth img) (videoWidth img) (width img) = false ->
     masked (naturalHeight img) (videoHeight img) (height img) = false ->
     sculpture_getPlaneSizeFromTexture (Some (mkTexture (Some img))) =
     getPlaneSizeFromTexture (Some (mkTexture (Some img)))) /\
  sculpture_getPlaneSizeFromTexture None = getPlaneSizeFromTexture None /\
  sculpture_getPlaneSizeFromTexture (Some (mkTexture None)) =
    getPlaneSizeFromTexture (Some (mkTexture None)) /\
  getPlaneSizeFromTexture (Some unloaded) = (1, 1 / 2) /\
  sculpture_getPlaneSizeFromTexture (Some unloaded) = (1, 1).
Proof.
  assert (Hnull : forall t, t ≫= image = None ->
            sculpture_getPlaneSizeFromTexture t = getPlaneSizeFromTexture t).
  { intros t Ht.
    unfold sculpture_getPlaneSizeFromTexture, getPlaneSizeFromTexture,
      sculpture_width, sculpture_height, read_width, read_height.
    rewrite Ht. simpl. unfold asNumber. simpl.
    destruct (Rle_dec 0 0); [reflexivity|lra]. }
  split; [|split; [by apply Hnull|split; [by apply Hnull|]]].
  - intros img Hw Hh.
    pose proof (read_agrees _ _ _ Hw) as Aw. pose proof (read_agrees _ _ _ Hh) as Ah.
    unfold sculpture_getPlaneSizeFromTexture, getPlaneSizeFromTexture,
      sculpture_width, sculpture_height, read_width, read_height. simpl.
    set (mw := asNumber (to_value (or_else (or_else (naturalWidth img) (videoWidth img))
                                           (width img))) 0) in *.
    set (mh := asNumber (to_value (or_else (or_else (naturalHeight img) (videoHeight img))
                                           (height img))) 0) in *.
    destruct (Number (to_value (coalesce (coalesce (coalesce (naturalWidth img) (videoWidth img))
                                                   (width img)) (Some (Fin 0))))) as [sw| | |];
    destruct (Number (to_value (coalesce (coalesce (coalesce (naturalHeight img) (videoHeight img))
                                                   (height img)) (Some (Fin 0))))) as [sh| | |];
      repeat match goal with
             | |- context [Rle_dec ?a ?b] => destruct (Rle_dec a b)
             end;
      try reflexivity; try lra;
      try (destruct Aw as [Aw|[? ?]]; destruct Ah as [Ah|[? ?]]; subst; try lra; reflexivity);
      try (destruct Aw as [Aw|[? ?]]; subst; lra);
      try (destruct Ah as [Ah|[? ?]]; subst; lra).
  - unfold sculpture_getPlaneSizeFromTexture, getPlaneSizeFromTexture,
      sculpture_width, sculpture_height, read_width, read_height, unloaded.
    simpl. unfold or_else, truthy, truthy_num, asNumber. simpl.
    destruct (Req_dec_T 0 0) as [_|H]; [|lra]. simpl.
    destruct (Req_dec_T 300 0) as [H|_]; [lra|]. simpl.
    destruct (Req_dec_T 150 0) as [H|_]; [lra|]. simpl.
    destruct (Rle_dec 300 0) as [H|_]; [lra|].
    destruct (Rle_dec 150 0) as [H|_]; [lra|].
    destruct (Rle_dec 0 0) as [_|H]; [|lra].
    split; [|reflexivity].
    rewrite Rmax_left by lra. f_equal; field.
Qed.

End PlaneSizeFacts.

(** ** The planes of the sculpture viewer and their textures *)

Section LayerFacts.
Import Sculpture Layers.

Lemma building_empty : building empty_scene.
Proof.
  unfold building, empty_scene, waits_for, front_of. simpl.
  split; [done|]. split; [done|].
  split.
  { intros key. split; intros [x Hx]; by rewrite lookup_empty in Hx. }
  split.
  { intros key i. split.
    - intros (cbs & Hc & _). by rewrite lookup_empty in Hc.
    - intros (m & Hm & _). by rewrite lookup_nil in Hm. }
  split; [done|]. split; [done|]. split; [apply NoDup_nil_2|].
  split.
  { intros key. split.
    - intros H. by apply not_elem_of_nil in H.
    - intros [x Hx]. by rewrite lookup_empty in Hx. }
  split; [intros i m H; by rewrite lookup_nil in H|].
  split; [intros key mat H; by rewrite lookup_empty in H|].
  split; [intros k1 k2 mat H; by rewrite lookup_empty in H|].
  intros key [x Hx]. by rewrite lookup_empty in Hx.
Qed.

Lemma front_of_lt key st i : front_of key st i -> i < length (group st).
Proof. intros (m & Hm & _). by apply lookup_lt_Some in Hm. Qed.

(** The front planes after the two meshes of a layer were added. *)
Lemma front_of_added key (g : list Mesh) mat layer i st st' :
  group st = g -> group st' = g ++ [mkMesh mat false layer; mkMesh mat true layer] ->
  front_of key st' i <-> front_of key st i \/ (i = length g /\ id layer = key).
Proof.
  intros Hg Hg'. unfold front_of. rewrite Hg, Hg'. split.
  - intros (m & Hm & Hmir & Hid).
    destruct (Nat.lt_ge_cases i (length g)) as [Hlt|Hge].
    + rewrite lookup_app_l in Hm by done. left. eauto.
    + rewrite lookup_app_r in Hm by done.
      destruct (i - length g) as [|[|n]] eqn:Hi; simpl in Hm.
      * inversion Hm; subst. simpl in *. right. split; [lia|done].
      * inversion Hm; subst. discriminate.
      * discriminate.
  - intros [(m & Hm & Hmir & Hid)|[-> Hid]].
    + exists m. split; [|done]. rewrite lookup_app_l; [done|]. by apply lookup_lt_Some in Hm.
    + exists (mkMesh mat false layer). split; [|done].
      rewrite lookup_app_r by done. by rewrite Nat.sub_diag.
Qed.

Lemma lookup_added (g : list Mesh) mat layer i m :
  (g ++ [mkMesh mat false layer; mkMesh mat true layer]) !! i = Some m ->
  g !! i = Some m \/ (material m = mat /\ of_layer m = layer).
Proof.
  intros Hi. destruct (Nat.lt_ge_cases i (length g)) as [Hlt|Hge].
  - rewrite lookup_app_l in Hi by done. by left.
  - rewrite lookup_app_r in Hi by done. right.
    destruct (i - length g) as [|[|n]]; simpl in Hi; inversion Hi; subst; done.
Qed.

Lemma makePlane_building layer st : building st -> building (makePlane layer st).
Proof.
  intros Hb. unfold makePlane. destruct (is_sample layer) eqn:Hsample; [exact Hb|].
  destruct Hb as (Hco & Hsz & Hcb & Hw & Hp & Hm & Hnd & Hl & Hg & Hlt & Hinj & Hfr).
  unfold getMaterial.
  destruct (matCache st !! id layer) as [cached|] eqn:Hk.
  - destruct (proj1 (Hcb (id layer)) ltac:(eauto)) as [cbs Hcbs]. rewrite Hcbs.
    unfold building. cbn [group matCache textureReadyCallbacks pendingTextures
                          textureWarningShown materials loads called_at_once sized].
    split; [done|]. split; [done|].
    split.
    { intros key. destruct (decide (key = id layer)) as [->|Hne].
      - rewrite lookup_insert_eq, Hk. split; eauto.
      - rewrite lookup_insert_ne by done. by apply Hcb. }
    split.
    { intros key i.
      rewrite (front_of_added key (group st) cached layer i st
                 (mkScene (group st ++ [mkMesh cached false layer; mkMesh cached true layer])
                    (matCache st) (<[id layer := cbs ++ [length (group st)]]> (textureReadyCallbacks st))
                    (pendingTextures st) (textureWarningShown st) (materials st)
                    (loads st) (called_at_once st) (sized st) (renderRequested st))
                 eq_refl eq_refl).
      rewrite <- Hw. unfold waits_for. cbn [textureReadyCallbacks].
      destruct (decide (key = id layer)) as [->|Hne].
      - rewrite lookup_insert_eq, Hcbs. split.
        + intros (c & Hc & Hi). inversion Hc; subst.
          apply elem_of_app in Hi as [Hi|Hi]; [left; eauto|].
          apply list_elem_of_singleton in Hi. right. done.
        + intros [(c & Hc & Hi)|[-> _]].
          * inversion Hc; subst. eexists. split; [done|]. apply elem_of_app. by left.
          * eexists. split; [done|]. apply elem_of_app. right. by apply list_elem_of_singleton.
      - rewrite lookup_insert_ne by done. split.
        + intros H. by left.
        + intros [H|[_ H]]; [done|]. congruence. }
    split; [done|]. split; [done|]. split; [done|]. split; [done|].
    split.
    { intros i m Hi. apply lookup_added in Hi as [Hi|[Hmat Hlay]]; [by apply (Hg i)|].
      by rewrite Hlay, Hmat. }
    split; [done|]. split; [done|].
    intros key Hkey. destruct (Hfr key Hkey) as [i Hi]. exists i.
    eapply front_of_added; [reflexivity|reflexivity|]. by left.
  - assert (Hfresh : textureReadyCallbacks st !! id layer = None).
    { destruct (textureReadyCallbacks st !! id layer) as [cbs|] eqn:Hc; [|done].
      destruct (proj2 (Hcb (id layer)) ltac:(eauto)) as [x Hx]. congruence. }
    assert (Hnew : ~ id layer ∈ loads st).
    { intros Hin. apply Hl in Hin as [x Hx]. congruence. }
    unfold building. cbn [group matCache textureReadyCallbacks pendingTextures
                          textureWarningShown materials loads called_at_once sized].
    split; [done|]. split; [done|].
    split.
    { intros key. destruct (decide (key = id layer)) as [->|Hne].
      - rewrite !lookup_insert_eq. split; eauto.
      - rewrite !lookup_insert_ne by done. by apply Hcb. }
    split.
    { intros key i.
      rewrite (front_of_added key (group st) (materials st) layer i st
                 (mkScene (group st ++ [mkMesh (materials st) false layer;
                                        mkMesh (materials st) true layer])
                    (<[id layer := materials st]> (matCache st))
                    (<[id layer := [length (group st)]]> (textureReadyCallbacks st))
                    (S (pendingTextures st)) (textureWarningShown st) (S (materials st))
                    (loads st ++ [id layer]) (called_at_once st) (sized st) (renderRequested st))
                 eq_refl eq_refl).
      rewrite <- Hw. unfold waits_for. cbn [textureReadyCallbacks].
      destruct (decide (key = id layer)) as [->|Hne].
      - rewrite lookup_insert_eq, Hfresh. split.
        + intros (c & Hc & Hi). inversion Hc; subst.
          apply list_elem_of_singleton in Hi. right. done.
        + intros [(c & Hc & Hi)|[-> _]]; [discriminate|].
          eexists. split; [done|]. by apply list_elem_of_singleton.
      - rewrite lookup_insert_ne by done. split.
        + intros H. by left.
        + intros [H|[_ H]]; [done|]. congruence. }
    split; [rewrite length_app; simpl; lia|].
    split; [rewrite length_app; simpl; lia|].
    split.
    { apply NoDup_app. split; [done|]. split; [|apply NoDup_singleton].
      intros x Hx Hx'. apply list_elem_of_singleton in Hx'. by subst. }
    split.
    { intros key. rewrite elem_of_app, list_elem_of_singleton.
      destruct (decide (key = id layer)) as [->|Hne].
      - rewrite lookup_insert_eq. split; eauto.
      - rewrite lookup_insert_ne by done. rewrite Hl. split; [intros [H|H]; done|by left]. }
    split.
    { intros i m Hi. apply lookup_added in Hi as [Hi|[Hmat Hlay]].
      - pose proof (Hg i m Hi) as Hc.
        destruct (decide (id (of_layer m) = id layer)) as [He|Hne].
        + rewrite He in Hc. congruence.
        + by rewrite lookup_insert_ne.
      - rewrite Hlay, Hmat. apply lookup_insert_eq. }
    split.
    { intros key mat. destruct (decide (key = id layer)) as [->|Hne].
      - rewrite lookup_insert_eq. intros H. inversion H. lia.
      - rewrite lookup_insert_ne by done. intros H. apply Hlt in H. lia. }
    split.
    { intros k1 k2 mat.
      destruct (decide (k1 = id layer)) as [->|H1]; destruct (decide (k2 = id layer)) as [->|H2];
        rewrite ?lookup_insert_eq, ?lookup_insert_ne by done; try done.
      - intros Ha Hb. inversion Ha; subst. apply Hlt in Hb. lia.
      - intros Ha Hb. inversion Hb; subst. apply Hlt in Ha. lia.
      - apply Hinj. }
    intros key Hkey. destruct (decide (key = id layer)) as [->|Hne].
    + exists (length (group st)). eapply front_of_added; [reflexivity|reflexivity|]. by right.
    + rewrite lookup_insert_ne in Hkey by done. destruct (Hfr key Hkey) as [i Hi]. exists i.
      eapply front_of_added; [reflexivity|reflexivity|]. by left.
Qed.

Lemma makePlanes_building layers st : building st -> building (makePlanes layers st).
Proof.
  unfold makePlanes. revert st. induction layers as [|layer layers IH]; intros st Hb; [done|].
  simpl. by apply IH, makePlane_building.
Qed.

Lemma makePlanes_prefix layers st :
  exists rest, group (makePlanes layers st) = group st ++ rest.
Proof.
  unfold makePlanes. revert st. induction layers as [|layer layers IH]; intros st; simpl.
  - exists []. by rewrite app_nil_r.
  - destruct (IH (makePlane layer st)) as [rest ->].
    destruct (is_sample layer) eqn:Hs.
    + rewrite makePlane_sample by done. eauto.
    + destruct (makePlane_group layer st Hs) as [mat ->]. rewrite <- app_assoc. eauto.
Qed.

(** The meshes of the group are those of the layers that are no samples. *)
Lemma makePlanes_meshes layers st m :
  m ∈ group (makePlanes layers st) ->
  m ∈ group st \/ (of_layer m ∈ layers /\ is_sample (of_layer m) = false).
Proof.
  unfold makePlanes. revert st. induction layers as [|layer layers IH]; intros st; simpl.
  - by left.
  - intros H. apply IH in H as [H|[H1 H2]].
    + destruct (is_sample layer) eqn:Hs.
      * rewrite makePlane_sample in H by done. by left.
      * destruct (makePlane_group layer st Hs) as [mat Hg]. rewrite Hg in H.
        apply elem_of_app in H as [H|H]; [by left|]. right.
        apply elem_of_cons in H as [->|H]; [simpl; split; [by left|done]|].
        apply list_elem_of_singleton in H as ->. simpl. split; [by left|done].
    + right. split; [by right|done].
Qed.

Lemma makePlanes_front layers st layer :
  layer ∈ layers -> is_sample layer = false ->
  exists i mat, group (makePlanes layers st) !! i = Some (mkMesh mat false layer).
Proof.
  unfold makePlanes. revert st. induction layers as [|l layers IH]; intros st Hin Hs.
  - by apply not_elem_of_nil in Hin.
  - simpl. apply elem_of_cons in Hin as [->|Hin]; [|by apply IH].
    destruct (makePlane_group l st Hs) as [mat Hg].
    destruct (makePlanes_prefix layers (makePlane l st)) as [rest Hp].
    unfold makePlanes in Hp. rewrite Hp, Hg.
    exists (length (group st)), mat.
    rewrite <- app_assoc, lookup_app_r by done. by rewrite Nat.sub_diag.
Qed.

(** X21.  [main] makes the planes before any texture can arrive: no callback
    is called at once, and the callbacks that wait for the texture of a
    layer id are those of the front planes of the layers with this id.
    When the texture arrives, all of them are called, so that every plane
    of these layers is resized, and no other; when it fails, none is. *)
Theorem a_texture_resizes_the_planes_of_its_layers
  (layers : list Layer) (key : option string) (i : nat) :
  let st := makePlanes layers empty_scene in
  called_at_once st = [] /\
  sized st = [] /\
  (waits_for key st i <-> front_of key st i) /\
  (i ∈ sized (texture_loaded key st) <-> front_of key st i) /\
  sized (texture_failed key st) = [] /\
  textureReadyCallbacks (texture_loaded key st) !! key = None /\
  textureReadyCallbacks (texture_failed key st) !! key = None.
Proof.
  intros st.
  pose proof (makePlanes_building layers empty_scene building_empty) as Hb. fold st in Hb.
  destruct Hb as (Hco & Hsz & Hcb & Hw & _).
  split; [done|]. split; [done|]. split; [apply Hw|]. split; [|split; [done|]].
  - unfold texture_loaded. cbn [sized]. rewrite Hsz, app_nil_l, <- Hw. unfold waits_for.
    destruct (textureReadyCallbacks st !! key) as [cbs|]; simpl.
    + split; [eauto|]. by intros (c & Hc & Hi); inversion Hc; subst.
    + split; [intros H; by apply not_elem_of_nil in H|]. by intros (c & Hc & _).
  - split; apply lookup_delete_eq.
Qed.

(** X22.  Making the planes starts one texture load and creates one material
    for every id that a layer other than a sample has, however many layers
    share it: the ids loaded are those of these layers, each once; two
    meshes have the same material exactly if their layers have the same
    id; and every one of these loads is pending. *)
Theorem one_texture_and_one_material_per_layer_id (layers : list Layer) :
  let st := makePlanes layers empty_scene in
  NoDup (loads st) /\
  (forall key, key ∈ loads st <->
     exists layer, layer ∈ layers /\ is_sample layer = false /\ id layer = key) /\
  materials st = length (loads st) /\
  pendingTextures st = length (loads st) /\
  length (loads st) <= length (List.filter (fun l => negb (is_sample l)) layers) /\
  (forall i j m n, group st !! i = Some m -> group st !! j = Some n ->
     (material m = material n <-> id (of_layer m) = id (of_layer n))).
Proof.
  intros st.
  pose proof (makePlanes_building layers empty_scene building_empty) as Hb. fold st in Hb.
  destruct Hb as (_ & _ & _ & _ & Hp & Hm & Hnd & Hl & Hg & _ & Hinj & Hfr).
  assert (Hkeys : forall key, key ∈ loads st <->
     exists layer, layer ∈ layers /\ is_sample layer = false /\ id layer = key).
  { intros key. split.
    - intros Hin. apply Hl, Hfr in Hin as (i & m & Hi & _ & Hid).
      apply list_elem_of_lookup_2 in Hi.
      apply makePlanes_meshes in Hi as [Hi|[H1 H2]]; [by apply not_elem_of_nil in Hi|].
      eauto.
    - intros (layer & Hin & Hs & <-).
      destruct (makePlanes_front layers empty_scene layer Hin Hs) as (i & mat & Hi).
      apply Hl. apply Hg in Hi. simpl in Hi. eauto. }
  split; [done|]. split; [exact Hkeys|]. split; [done|]. split; [done|]. split.
  - assert (Hsub : loads st ⊆ id <$> List.filter (fun l => negb (is_sample l)) layers).
    { intros key Hk. apply Hkeys in Hk as (layer & Hin & Hs & <-).
      apply list_elem_of_fmap. exists layer. split; [done|].
      apply list_elem_of_In, filter_In. split; [by apply list_elem_of_In|by rewrite Hs]. }
    pose proof (submseteq_length _ _ (NoDup_submseteq _ _ Hnd Hsub)) as Hlen.
    by rewrite length_fmap in Hlen.
  - intros i j m n Hi Hj. apply Hg in Hi, Hj. split.
    + intros He. rewrite He in Hi. by eapply Hinj.
    + intros He. rewrite He in Hi. congruence.
Qed.

End LayerFacts.

(** ** The textures in flight *)

Section InFlightFacts.
Import Sculpture Layers.

Lemma in_flight_empty : in_flight empty_scene.
Proof.
  unfold in_flight, empty_scene. simpl. split; [by rewrite map_size_empty|].
  intros key [x Hx]. by rewrite lookup_empty in Hx.
Qed.

Lemma getMaterial_in_flight key callback st :
  in_flight st -> in_flight (getMaterial key callback st).2.
Proof.
  intros [Hp Hd]. unfold getMaterial, in_flight.
  destruct (matCache st !! key) as [cached|] eqn:Hk.
  - destruct callback as [cb|]; [|done].
    destruct (textureReadyCallbacks st !! key) as [cbs|] eqn:Hc; [|done].
    cbn [snd pendingTextures textureReadyCallbacks matCache]. split.
    + by rewrite map_size_insert_Some.
    + intros key'. destruct (decide (key' = key)) as [->|Hne].
      * intros _. by rewrite Hk.
      * rewrite lookup_insert_ne by done. apply Hd.
  - assert (Hc : textureReadyCallbacks st !! key = None).
    { destruct (textureReadyCallbacks st !! key) as [cbs|] eqn:Hc; [|done].
      destruct (Hd key ltac:(eauto)) as [x Hx]. congruence. }
    cbn [snd pendingTextures textureReadyCallbacks matCache]. split.
    + rewrite map_size_insert_None by done. by rewrite Hp.
    + intros key'. destruct (decide (key' = key)) as [->|Hne].
      * rewrite !lookup_insert_eq. eauto.
      * rewrite !lookup_insert_ne by done. apply Hd.
Qed.

Lemma makePlane_in_flight layer st : in_flight st -> in_flight (makePlane layer st).
Proof.
  intros H. unfold makePlane. destruct (is_sample layer); [done|].
  pose proof (getMaterial_in_flight (id layer) (Some (length (group st))) st H) as H'.
  by destruct (getMaterial (id layer) (Some (length (group st))) st).
Qed.

Lemma settled_in_flight key st warned rendered sz :
  in_flight st -> is_Some (textureReadyCallbacks st !! key) ->
  in_flight (mkScene (group st) (matCache st) (delete key (textureReadyCallbacks st))
                     (Nat.max 0 (pendingTextures st - 1)) warned (materials st)
                     (loads st) (called_at_once st) sz rendered).
Proof.
  intros [Hp Hd] Hk. unfold in_flight. cbn [pendingTextures textureReadyCallbacks matCache].
  split.
  - rewrite map_size_delete_Some by done. lia.
  - intros key'. destruct (decide (key' = key)) as [->|Hne].
    + rewrite lookup_delete_eq. by intros [x Hx].
    + rewrite lookup_delete_ne by done. apply Hd.
Qed.

Lemma run_in_flight events st :
  settles_in_flight events st = true -> in_flight st -> in_flight (run events st).
Proof.
  unfold run. revert st. induction events as [|e events IH]; intros st Hwf Hst; [done|].
  simpl in *. apply andb_true_iff in Hwf as [He Hwf]. apply IH; [done|].
  destruct e as [key cb|layer|key|key]; simpl.
  - by apply getMaterial_in_flight.
  - by apply makePlane_in_flight.
  - apply settled_in_flight; [done|]. by destruct (textureReadyCallbacks st !! key).
  - apply settled_in_flight; [done|]. by destruct (textureReadyCallbacks st !! key).
Qed.

(** Without the assumption on the events the counter is at most the
    number of textures in flight. *)
Lemma run_pending_le events st :
  pendingTextures st <= size (textureReadyCallbacks st) ->
  (forall key, is_Some (textureReadyCallbacks st !! key) -> is_Some (matCache st !! key)) ->
  pendingTextures (run events st) <= size (textureReadyCallbacks (run events st)).
Proof.
  unfold run. revert st. induction events as [|e events IH]; intros st Hp Hd; [done|].
  simpl.
  assert (Hget : forall key cb,
    pendingTextures (getMaterial key cb st).2 <= size (textureReadyCallbacks (getMaterial key cb st).2) /\
    (forall k, is_Some (textureReadyCallbacks (getMaterial key cb st).2 !! k) ->
               is_Some (matCache (getMaterial key cb st).2 !! k))).
  { intros key cb. unfold getMaterial.
    destruct (matCache st !! key) as [cached|] eqn:Hk.
    - destruct cb as [cb|]; [|done].
      destruct (textureReadyCallbacks st !! key) as [cbs|] eqn:Hc; [|done].
      cbn [snd pendingTextures textureReadyCallbacks matCache]. split.
      + by rewrite map_size_insert_Some.
      + intros k. destruct (decide (k = key)) as [->|Hne].
        * intros _. by rewrite Hk.
        * rewrite lookup_insert_ne by done. apply Hd.
    - assert (Hc : textureReadyCallbacks st !! key = None).
      { destruct (textureReadyCallbacks st !! key) as [cbs|] eqn:Hc; [|done].
        destruct (Hd key ltac:(eauto)) as [x Hx]. congruence. }
      cbn [snd pendingTextures textureReadyCallbacks matCache]. split.
      + rewrite map_size_insert_None by done. lia.
      + intros k. destruct (decide (k = key)) as [->|Hne].
        * rewrite !lookup_insert_eq. eauto.
        * rewrite !lookup_insert_ne by done. apply Hd. }
  assert (Hset : forall key,
    Nat.max 0 (pendingTextures st - 1) <= size (delete key (textureReadyCallbacks st)) /\
    (forall k, is_Some (delete key (textureReadyCallbacks st) !! k) -> is_Some (matCache st !! k))).
  { intros key. split.
    - pose proof (map_size_delete key (textureReadyCallbacks st)) as Hs.
      destruct (textureReadyCallbacks st !! key); simpl in Hs; lia.
    - intros k. destruct (decide (k = key)) as [->|Hne].
      + rewrite lookup_delete_eq. by intros [x Hx].
      + rewrite lookup_delete_ne by done. apply Hd. }
  destruct e as [key cb|layer|key|key]; simpl.
  - apply IH; apply Hget.
  - unfold makePlane. destruct (is_sample layer); [by apply IH|].
    destruct (Hget (id layer) (Some (length (group st)))) as [H1 H2].
    destruct (getMaterial (id layer) (Some (length (group st))) st) as [mat st1].
    by apply IH.
  - apply IH; apply Hset.
  - apply IH; apply Hset.
Qed.

(** X23.  As long as a texture arrives or fails only while it is loading,
    [pendingTextures] is the number of textures in flight, whatever planes
    are made and materials asked for in between: the loading indicator
    shows that number and is hidden exactly when no texture is in flight.
    Without the assumption the counter is never more than that number. *)
Theorem loading_indicator_counts_textures_in_flight (events : list event) :
  settles_in_flight events empty_scene = true ->
  let st := run events empty_scene in
  pendingTextures st = size (textureReadyCallbacks st) /\
  (updateTextureLoading st = None <-> textureReadyCallbacks st = ∅) /\
  (forall n, updateTextureLoading st = Some n -> n = size (textureReadyCallbacks st) /\ 0 < n) /\
  (forall events', pendingTextures (run events' empty_scene)
                   <= size (textureReadyCallbacks (run events' empty_scene))).
Proof.
  intros Hwf st.
  destruct (run_in_flight events empty_scene Hwf in_flight_empty) as [Hp _]. fold st in Hp.
  split; [exact Hp|]. unfold updateTextureLoading. rewrite Hp. split; [|split].
  - rewrite <- map_size_empty_iff.
    destruct (Nat.ltb_spec 0 (size (textureReadyCallbacks st))); split; try done; lia.
  - intros n. destruct (Nat.ltb_spec 0 (size (textureReadyCallbacks st))); [|done].
    intros Hn. inversion Hn; subst. done.
  - intros events'. apply run_pending_le.
    + simpl. lia.
    + intros key [x Hx]. simpl in Hx. by rewrite lookup_empty in Hx.
Qed.

Lemma loading_indicator_counts_textures_in_flight_witness :
  pendingTextures
    (run [MakePlane (mkLayer (Some "a") None None None None);
          MakePlane (mkLayer (Some "b") None None None None);
          TextureLoaded (Some "a")] empty_scene) = 1.
Proof.
  refine (eq_trans (proj1 (loading_indicator_counts_textures_in_flight
     [MakePlane (mkLayer (Some "a") None None None None);
      MakePlane (mkLayer (Some "b") None None None None);
      TextureLoaded (Some "a")] _)) _).
  - vm_compute. reflexivity.
  - vm_compute. reflexivity.
Defined.

End InFlightFacts.

(** ** The sculpture viewer: frames on demand *)

Section RedrawFacts.
Import Redraw.

Lemma apply_scheduled e st :
  scheduled st = (if renderRequested st then 1 else 0) ->
  scheduled (apply e st) = (if renderRequested (apply e st) then 1 else 0) /\
  drawn (apply e st) + scheduled (apply e st) <= drawn st + scheduled st + requests e.
Proof.
  destruct st as [[|] s d]; simpl; intros ->; destruct e; simpl; lia.
Qed.

(** X24.  However often a frame is asked for, at most one callback is scheduled
    with [requestAnimationFrame] at a time; [renderRequested] tells whether
    one is.  The frames drawn, with the one that is scheduled, are at most
    one more than the requests, and one animation frame serves all the
    requests made before it. *)
Theorem requests_share_one_animation_frame (events : list event) :
  let st := run events started in
  scheduled st = (if renderRequested st then 1 else 0) /\
  drawn st + scheduled st <= 1 + sum_list_with requests events /\
  renderRequested (apply AnimationFrame st) = false /\
  scheduled (apply AnimationFrame st) = 0 /\
  drawn (apply AnimationFrame st) = drawn st + scheduled st /\
  apply AnimationFrame (apply AnimationFrame st) = apply AnimationFrame st.
Proof.
  intros st.
  assert (H : scheduled st = (if renderRequested st then 1 else 0) /\
              drawn st + scheduled st <= 1 + sum_list_with requests events).
  { subst st. unfold run.
    assert (Hgen : forall s0 n,
      scheduled s0 = (if renderRequested s0 then 1 else 0) ->
      drawn s0 + scheduled s0 <= n ->
      let s := fold_left (fun st e => apply e st) events s0 in
      scheduled s = (if renderRequested s then 1 else 0) /\
      drawn s + scheduled s <= n + sum_list_with requests events).
    { induction events as [|e events IH]; intros s0 n H1 H2; simpl; [split; [done|lia]|].
      destruct (apply_scheduled e s0 H1) as (Ha & Hb).
      destruct (IH (apply e s0) (n + requests e) Ha ltac:(lia)) as [H3 H4].
      split; [exact H3|]. simpl in H4. lia. }
    apply (Hgen started 1); simpl; [done|lia]. }
  destruct H as [Hs Hd]. split; [exact Hs|]. split; [exact Hd|].
  destruct st as [[|] s d]; simpl in *; subst s; simpl; repeat split; try lia; reflexivity.
Qed.

End RedrawFacts.

(** ** The sculpture viewer: texts and theme *)

Section PageFacts.
Import Page.

Lemma length_substring_0 n s :
  n <= String.length s -> String.length (String.substring 0 n s) = n.
Proof.
  revert s. induction n as [|n IH]; intros s Hn.
  - by destruct s.
  - destruct s as [|c s]; simpl in *; [lia|]. rewrite IH; [done|lia].
Qed.

Lemma length_append s1 s2 :
  String.length (s1 +:+ s2) = String.length s1 + String.length s2.
Proof. induction s1 as [|c s1 IH]; simpl; [done|]. by rewrite IH. Qed.

Lemma substring_prefix n s : String.prefix (String.substring 0 n s) s = true.
Proof.
  revert s. induction n as [|n IH]; intros s.
  - by destruct s.
  - destruct s as [|c s]; simpl; [done|].
    destruct (Ascii.ascii_dec c c) as [_|Hne]; [apply IH|congruence].
Qed.

(** X25.  A text that is longer than [max] is cut to its first [max - 1]
    characters, followed by three dots: the result is [max + 2] long, longer
    than [max], and a text of [max + 1] characters grows by one.  A text of
    up to [max] characters is kept, and a missing or empty text reads
    "n/a"; the result is never empty. *)
Theorem shortenText_lengths (value : option string) (max : Z) :
  (1 <= max)%Z ->
  let text := shortenText value max in
  text <> EmptyString /\
  (Z.of_nat (String.length text) <= Z.max 3 (max + 2))%Z /\
  (forall s, value = Some s -> s <> EmptyString ->
     (Z.of_nat (String.length s) <= max)%Z -> text = s) /\
  (forall s, value = Some s -> (max < Z.of_nat (String.length s))%Z ->
     text = String.substring 0 (Z.to_nat (max - 1)) s +:+ "..." /\
     Z.of_nat (String.length text) = (max + 2)%Z /\
     String.prefix (String.substring 0 (Z.to_nat (max - 1)) s) s = true) /\
  (value = None \/ value = Some EmptyString -> text = "n/a").
Proof.
  intros Hmax text. subst text. unfold shortenText.
  destruct value as [s|].
  2:{ simpl. split; [done|]. split; [lia|]. split; [done|]. split; [done|]. done. }
  destruct (String.eqb s EmptyString) eqn:He.
  { apply String.eqb_eq in He. subst s. simpl.
    split; [done|]. split; [lia|]. split; [intros s H; inversion H; subst; done|].
    split; [intros s H; inversion H; subst; simpl; lia|]. done. }
  apply String.eqb_neq in He.
  destruct (Z.leb_spec (Z.of_nat (String.length s)) max) as [Hle|Hgt].
  { split; [done|]. split; [lia|]. split; [intros s' H; by inversion H|].
    split; [intros s' H; inversion H; subst; lia|].
    intros [H|H]; [discriminate|]. inversion H. congruence. }
  assert (Hcut : slice0 s (max - 1) = String.substring 0 (Z.to_nat (max - 1)) s).
  { unfold slice0. destruct (Z.ltb_spec (max - 1) 0); [lia|].
    by rewrite Z.min_l by lia. }
  rewrite Hcut.
  assert (Hlen : String.length (String.substring 0 (Z.to_nat (max - 1)) s +:+ "...")
                 = Z.to_nat (max - 1) + 3).
  { rewrite length_append, length_substring_0 by lia. reflexivity. }
  split.
  { intros H. rewrite H in Hlen. simpl in Hlen. lia. }
  split; [rewrite Hlen; lia|].
  split; [intros s' H; inversion H; subst; lia|].
  split.
  { intros s' H _. inversion H; subst. split; [done|]. split; [rewrite Hlen; lia|].
    apply substring_prefix. }
  intros [H|H]; [discriminate|]. inversion H. congruence.
Qed.

Lemma shortenText_lengths_witness :
  shortenText (Some "https://github.oblokos.com/art/sculptures/x") 42
  = "https://github.oblokos.com/art/sculptures..." /\
  String.length "https://github.oblokos.com/art/sculptures/x" = 43 /\
  Z.of_nat (String.length (shortenText (Some "https://github.oblokos.com/art/sculptures/x") 42))
  = 44%Z.
Proof.
  destruct (shortenText_lengths (Some "https://github.oblokos.com/art/sculptures/x") 42
              ltac:(lia)) as (_ & _ & _ & H & _).
  destruct (H _ eq_refl ltac:(simpl; lia)) as (H1 & H2 & _).
  split; [exact H1|]. split; [reflexivity|exact H2].
Defined.

Lemma resolved_cases theme :
  (if String.eqb theme "dark" then "dark" else "light") = "dark" /\ theme = "dark" \/
  (if String.eqb theme "dark" then "dark" else "light") = "light" /\ theme <> "dark".
Proof.
  destruct (String.eqb_spec theme "dark") as [->|Hne]; [by left|by right].
Qed.

(** X26.  The theme that [applyTheme] sets is dark or light, and it is the one
    that [readTheme] reads back, unless the storage is blocked: then the
    page still changes its theme, the storage is left alone and
    [readTheme] says light.  A click on the toggle sets the other theme:
    the attribute, the label of the button (which names the theme that the
    next click sets) and the background of the scene change together, and
    two clicks bring back the theme that the page had. *)
Theorem theme_round_trip (p : page) (theme : string) (scene : bool) :
  let p1 := applyTheme theme scene p in
  (data_theme p1 = Some "dark" \/ data_theme p1 = Some "light") /\
  (data_theme p1 = Some "dark" <-> theme = "dark") /\
  (blocked (local_storage p) = false ->
   Some (readTheme (local_storage p1)) = data_theme p1 /\
   item (local_storage p1) = data_theme p1) /\
  (blocked (local_storage p) = true ->
   local_storage p1 = local_storage p /\ readTheme (local_storage p1) = "light") /\
  data_theme (toggle p1) <> data_theme p1 /\
  (data_theme (toggle p1) = Some "dark" <-> data_theme p1 = Some "light") /\
  data_theme (toggle (toggle p1)) = data_theme p1 /\
  background (toggle (toggle p1)) = background (toggle (toggle (toggle (toggle p1)))) /\
  (forall b, theme_toggle (toggle p1) = Some b ->
     (textContent b = "Light" <-> data_theme (toggle p1) = Some "dark") /\
     (textContent b = "Dark" <-> data_theme (toggle p1) = Some "light") /\
     (aria_pressed b = "true" <-> data_theme (toggle p1) = Some "dark")) /\
  (is_Some (theme_toggle p1) <-> is_Some (theme_toggle p)).
Proof.
  cbv zeta. unfold toggle, applyTheme, writeTheme, readTheme.
  destruct p as [dt [blk it] btn bg]. cbn [data_theme local_storage theme_toggle background
                                            blocked item].
  destruct (String.eqb_spec theme "dark") as [->|Hne]; simpl.
  - split; [by left|]. split; [done|].
    split; [intros ->; done|]. split; [intros ->; done|].
    split; [done|]. split; [done|]. split; [done|]. split; [done|].
    split.
    { destruct btn as [b0|]; [|done]. intros b' H; inversion H; subst; simpl.
      repeat split; done. }
    destruct btn; split; intros [x Hx]; eauto; discriminate.
  - split; [by right|]. split; [split; [discriminate|done]|].
    split; [intros ->; done|]. split; [intros ->; done|].
    split; [done|]. split; [done|]. split; [done|]. split; [done|].
    split.
    { destruct btn as [b0|]; [|done]. intros b' H; inversion H; subst; simpl.
      repeat split; done. }
    destruct btn; split; intros [x Hx]; eauto; discriminate.
Qed.

End PageFacts.

(** ** The sculpture viewer: the search over the layer list *)

Section FilterFacts.
Import Filter.

Lemma prefix_refl s : String.prefix s s = true.
Proof.
  induction s as [|c s IH]; [done|]. simpl.
  destruct (Ascii.ascii_dec c c); [exact IH|congruence].
Qed.

Lemma prefix_empty s : String.prefix EmptyString s = true.
Proof. by destruct s. Qed.

Lemma includes_refl s : includes s s = true.
Proof. destruct s; [done|]. cbn [includes]. by rewrite prefix_refl. Qed.

Lemma includes_empty s : includes s EmptyString = true.
Proof. destruct s; simpl; [done|]. done. Qed.

Lemma filter_all_true (l : list bool) :
  Forall (fun m => m = true) l -> List.filter (fun m => m) l = l.
Proof. induction 1 as [|m l Hm _ IH]; [done|]. simpl. by rewrite Hm, IH. Qed.

Lemma length_filter_le (l : list bool) : length (List.filter (fun m => m) l) <= length l.
Proof. induction l as [|[|] l IH]; simpl; lia. Qed.

Lemma filter_pos (l : list bool) :
  0 < length (List.filter (fun m => m) l) <-> true ∈ l.
Proof.
  induction l as [|[|] l IH]; simpl.
  - split; [lia|]. intros H. by apply not_elem_of_nil in H.
  - split; [intros _; apply list_elem_of_here|lia].
  - rewrite IH. split; [by right|]. intros H. apply elem_of_cons in H as [H|H]; done.
Qed.

(** X27.  On a page that has the list, the search box and the hint: the badge
    shows how many items match and how many there are; an item is shown
    exactly if its id contains the query, both in lower case and the query
    without the blanks around it.  So a query of blanks shows every item,
    and the id of an item, typed in any case, shows that item.  The hint
    reads "No layers available." exactly if the list is empty, "No layers
    match your search." exactly if it is not and nothing matches, and is
    hidden otherwise. *)
Theorem layer_search_shows_the_matches (items : list (option string)) (value : string) :
  exists v,
    applyLayerFilter true items value = Some v /\
    total v = length items /\
    length (shown v) = length items /\
    visible v = length (List.filter (fun m => m) (shown v)) /\
    visible v <= total v /\
    (forall i item, items !! i = Some item ->
       shown v !! i = Some (includes (toLowerCase (layerId item)) (toLowerCase (trim value)))) /\
    (trim value = EmptyString -> visible v = total v /\ Forall (fun m => m = true) (shown v)) /\
    (forall i item, items !! i = Some item ->
       toLowerCase (trim value) = toLowerCase (layerId item) ->
       shown v !! i = Some true /\ 0 < visible v /\ empty_message v = None) /\
    (empty_message v = Some "No layers available." <-> items = []) /\
    (empty_message v = Some "No layers match your search." <-> items <> [] /\ visible v = 0) /\
    (empty_message v = None <-> 0 < visible v).
Proof.
  unfold applyLayerFilter. simpl. eexists. split; [reflexivity|]. simpl.
  set (query := toLowerCase (trim value)).
  set (matches := (fun item => includes (toLowerCase (layerId item)) query) <$> items).
  assert (Hlen : length matches = length items) by apply length_fmap.
  assert (Hlook : forall i item, items !! i = Some item ->
            matches !! i = Some (includes (toLowerCase (layerId item)) query)).
  { intros i item Hi. unfold matches. by rewrite list_lookup_fmap, Hi. }
  pose proof (length_filter_le matches) as Hle.
  split; [done|]. split; [done|]. split; [done|]. split; [lia|]. split; [exact Hlook|].
  split.
  { intros Hblank.
    assert (Hall : Forall (fun m => m = true) matches).
    { unfold matches, query. rewrite Hblank. simpl. apply Forall_fmap, Forall_forall.
      intros item _. simpl. apply includes_empty. }
    split; [|exact Hall]. by rewrite filter_all_true, Hlen. }
  split.
  { intros i item Hi Heq.
    assert (Hm : matches !! i = Some true).
    { rewrite (Hlook i item Hi). fold query in Heq. rewrite Heq. by rewrite includes_refl. }
    assert (Hpos : 0 < length (List.filter (fun m => m) matches)).
    { apply filter_pos. by eapply list_elem_of_lookup_2. }
    split; [exact Hm|]. split; [exact Hpos|].
    apply lookup_lt_Some in Hi.
    destruct (Nat.eqb_spec (length items) 0); [lia|].
    destruct (Nat.eqb_spec (length (List.filter (fun m => m) matches)) 0); [lia|done]. }
  destruct (Nat.eqb_spec (length items) 0) as [H0|H0].
  - assert (Hnil : items = []) by (by apply length_zero_iff_nil).
    split; [done|]. split.
    + split; [discriminate|]. intros [H _]. done.
    + split; [discriminate|]. intros H. lia.
  - assert (Hne : items <> []) by (intros ->; done).
    destruct (Nat.eqb_spec (length (List.filter (fun m => m) matches)) 0) as [Hv|Hv].
    + split; [split; [discriminate|done]|]. split; [done|]. split; [discriminate|lia].
    + split; [split; [discriminate|done]|]. split.
      * split; [discriminate|]. intros [_ H]. done.
      * split; [lia|done].
Qed.

End FilterFacts.

(** ** The camera of the sculpture viewer *)

Section SculptureCameraFacts.
Import Js Transform Camera.
#[local] Open Scope R_scope.

Lemma tan_half_camera_fov_lower : 1 / 4 <= tan (camera_fov * (PI / 180) / 2).
Proof.
  unfold camera_fov. pose proof PI_RGT_0 as Hpi.
  set (x := 50 * (PI / 180) / 2).
  assert (Hx : 0 < x < PI / 2) by (unfold x; lra).
  assert (Hs2 : 1 / 2 <= sin (2 * x)).
  { rewrite <- sin_PI6. apply sin_incr_1; unfold x; lra. }
  rewrite sin_2a in Hs2.
  assert (Hc : 0 < cos x) by (apply cos_gt_0; lra).
  pose proof (COS_bound x) as [_ Hc1].
  assert (Hs : 0 <= sin x) by (apply sin_ge_0; lra).
  assert (Hsx : 1 / 4 <= sin x) by nra.
  unfold tan. apply Rmult_le_reg_r with (cos x); [exact Hc|].
  unfold Rdiv at 2. rewrite Rmult_assoc, Rinv_l by lra. nra.
Qed.

(** X28.  The sculpture viewer fits its camera with the offset 1.35.  For
    content of a positive size the centre of the content lies between the
    near and the far plane, which are 10000 times apart, and the camera
    looks at the centre from straight ahead.  For content without size, as
    a sculpture of sample layers only, the camera is put into the centre and
    both planes are at distance 0. *)
Theorem sculpture_fit_planes (size center : Vector3) :
  let fit := Sculpture.fitCameraToObject camera_fov size center (135 / 100) in
  (0 < maxDim size ->
   0 < cam_near fit /\ cam_near fit < cameraZ fit < cam_far fit /\
   cam_far fit = 10000 * cam_near fit) /\
  (maxDim size = 0 ->
   cameraZ fit = 0 /\ cam_near fit = 0 /\ cam_far fit = 0 /\ cam_position fit = center) /\
  controls_target fit = center /\
  vx (cam_position fit) = vx center /\ vy (cam_position fit) = vy center.
Proof.
  intros fit. subst fit. unfold Sculpture.fitCameraToObject. simpl.
  pose proof tan_half_camera_fov as [Ht0 Ht1].
  pose proof tan_half_camera_fov_lower as Hlow.
  set (t := tan (camera_fov * (PI / 180) / 2)) in *.
  set (m := maxDim size).
  split; [|split; [|done]].
  - intros Hm.
    assert (Hz : 0 <= m / 2 / t).
    { apply Rmult_le_pos; [lra|]. left. by apply Rinv_0_lt_compat. }
    rewrite Rabs_right by lra.
    assert (Hu : m / 2 / t * t = m / 2) by (field; lra).
    split; [lra|]. split; [split; nra|lra].
  - intros Hm. rewrite Hm.
    replace (0 / 2 / t) with 0 by (field; lra). rewrite Rabs_R0.
    split; [lra|]. split; [lra|]. split; [lra|].
    destruct center as [cx cy cz]. simpl. f_equal. lra.
Qed.

Lemma sculpture_fit_planes_witness :
  cam_near (Sculpture.fitCameraToObject camera_fov (mkVector3 2 0 0) (mkVector3 0 0 0) (135 / 100))
  < cameraZ (Sculpture.fitCameraToObject camera_fov (mkVector3 2 0 0) (mkVector3 0 0 0) (135 / 100)).
Proof.
  assert (Hm : 0 < maxDim (mkVector3 2 0 0)) by (rewrite maxDim_x; lra).
  exact (proj1 (proj1 (proj2 (proj1 (sculpture_fit_planes (mkVector3 2 0 0) (mkVector3 0 0 0)) Hm)))).
Defined.

End SculptureCameraFacts.

(** ** Rotations *)

Section RotationFacts.
Import Js Transform.
#[local] Open Scope R_scope.






End RotationFacts.

(** ** The geometries of the image planes *)

Section ImageGeometryFacts.
Import Js PlaneSize ImageGeometry.
#[local] Open Scope R_scope.

Lemma toFixed5_close x y : toFixed5 x = toFixed5 y -> Rabs (x - y) < 1 / 100000.
Proof.
  unfold toFixed5. intros H.
  destruct (base_Int_part (x * 100000 + 1 / 2)) as [H1 H2].
  destruct (base_Int_part (y * 100000 + 1 / 2)) as [H3 H4].
  rewrite H in H1, H2. apply Rabs_def1; lra.
Qed.

Lemma getImageGeometry_keyed t c : keyed c -> keyed (getImageGeometry t c).2.
Proof.
  intros Hc. unfold getImageGeometry.
  pose proof (plane_size_positive t) as Hpos.
  destruct (getPlaneSizeFromTexture t) as [w h]. destruct Hpos as [Hw Hh].
  cbn [fst snd] in *. destruct (c !! (toFixed5 w, toFixed5 h)) as [geo|] eqn:Hk; [exact Hc|].
  cbn [fst snd]. intros key geo. destruct (decide (key = (toFixed5 w, toFixed5 h))) as [->|Hne].
  - rewrite lookup_insert_eq. intros H. by inversion H; subst.
  - rewrite lookup_insert_ne by done. apply Hc.
Qed.

Lemma geometries_keyed (ts : list (option texture)) (c : cache) :
  keyed c -> keyed (geometries ts c).
Proof.
  unfold geometries. revert c. induction ts as [|t ts IH]; intros c Hc; [done|].
  simpl. by apply IH, getImageGeometry_keyed.
Qed.

Lemma geometries_size (ts : list (option texture)) (c : cache) :
  (size (geometries ts c) <= size c + length ts)%nat.
Proof.
  unfold geometries. revert c. induction ts as [|t ts IH]; intros c; simpl; [lia|].
  etrans; [apply IH|].
  unfold getImageGeometry. destruct (c !! _) as [geo|] eqn:Hk; simpl; [lia|].
  rewrite map_size_insert_None by done. lia.
Qed.

(** X30.  Image planes share their geometries by size, to five decimals.  After
    any number of images, the geometry that an image gets has the size of its
    plane up to less than 0.00001 in width and in height, its sides are
    positive, and it is the geometry that the next image of the same texture
    gets; there are at most as many geometries as images. *)
Theorem image_geometry_is_shared_by_size (ts : list (option texture)) (t : option texture) :
  let c := geometries ts ∅ in
  let geo := (getImageGeometry t c).1 in
  let c' := (getImageGeometry t c).2 in
  Rabs (g_width geo - (getPlaneSizeFromTexture t).1) < 1 / 100000 /\
  Rabs (g_height geo - (getPlaneSizeFromTexture t).2) < 1 / 100000 /\
  0 < g_width geo /\ 0 < g_height geo /\
  getImageGeometry t c' = (geo, c') /\
  (size c <= length ts)%nat /\
  (size c' <= S (length ts))%nat.
Proof.
  intros c geo c'.
  assert (Hc : keyed c).
  { apply geometries_keyed. intros key g H. by rewrite lookup_empty in H. }
  pose proof (geometries_size ts ∅) as Hsize. rewrite map_size_empty in Hsize. fold c in Hsize.
  pose proof (plane_size_positive t) as Hpos.
  subst geo c'. unfold getImageGeometry.
  destruct (getPlaneSizeFromTexture t) as [w h] eqn:Hs. cbn [fst snd] in *.
  destruct Hpos as [Hw Hh].
  destruct (c !! (toFixed5 w, toFixed5 h)) as [geo|] eqn:Hk; cbn [fst snd g_width g_height].
  - destruct (Hc _ _ Hk) as (Hkey & Hgw & Hgh). inversion Hkey as [[Hkw Hkh]].
    split; [apply toFixed5_close; congruence|].
    split; [apply toFixed5_close; congruence|].
    split; [done|]. split; [done|]. rewrite Hk. split; [done|]. lia.
  - split; [rewrite Rminus_diag; rewrite Rabs_R0; lra|].
    split; [rewrite Rminus_diag; rewrite Rabs_R0; lra|].
    split; [done|]. split; [done|]. rewrite lookup_insert_eq. split; [done|].
    rewrite map_size_insert_None by done. lia.
Qed.

End ImageGeometryFacts.
